(** * Access control and session bootstrap of the Sentry MCP gateway

    A shallow embedding of
    - [packages/mcp-server/src/permissions.ts]  (scope hierarchy),
    - [packages/mcp-server/src/skills.ts]       (skill registry),
    - [packages/mcp-server/src/cli/parse.ts], [cli/resolve.ts] (merge, finalize),
    - [packages/mcp-server/src/server.ts]       (tool gate, constraint injection),
    - [packages/mcp-test-client/src/auth/oauth.ts] (OAuth bootstrap),
    - [packages/mcp-server/src/index.ts],
      [internal/agents/openai-provider.ts]       (the stdio entry point),
    - [packages/mcp-cloudflare/src/server/lib/mcp-handler.ts] (the remote handler),
    followed by the properties stated about them.

    Conventions.  A JavaScript [string | undefined] is an [option string];
    a [Set<T>] is a [gset T]; an object used as a dictionary is a [gmap];
    an object whose key order matters is an association list.  A string
    is the sequence of bytes of its UTF-8 encoding. *)

From Stdlib Require Import Ascii String.
From stdpp Require Import base decidable option list countable finite.
From stdpp Require Import gmap fin_maps fin_sets sets strings sorting pretty.

Set Default Proof Using "Type".
Set Warnings "-clear-no-such-hyp".
Local Open Scope string_scope.

(** ** JavaScript primitives used by the sources *)

Module Js.

(** Truthiness of an optional string: [undefined] and [""] are falsy. *)
Definition truthy (o : option string) : bool :=
  match o with
  | Some s => negb (bool_decide (s = ""))
  | None => false
  end.

(** Truthiness of an optional boolean. *)
Definition truthyb (o : option bool) : bool :=
  match o with Some b => b | None => false end.

(** [a ?? b]: the left operand unless it is [undefined]. *)
Definition nullish {A} (a b : option A) : option A :=
  match a with Some _ => a | None => b end.

(** [s.split(",")] with a one-character separator. *)
Fixpoint split (sep : ascii) (s : string) : list string :=
  match s with
  | EmptyString => [EmptyString]
  | String a rest =>
      if bool_decide (a = sep) then EmptyString :: split sep rest
      else match split sep rest with
           | hd :: tl => String a hd :: tl
           | [] => [String a EmptyString]
           end
  end.

(** The code points [String.prototype.trim] strips, WhiteSpace and
    LineTerminator of ECMAScript, by the bytes of their UTF-8 encoding:
    one byte for U+0009 to U+000D and U+0020, two for U+00A0, three for
    U+1680, U+2000 to U+200A, U+2028, U+2029, U+202F, U+205F, U+3000 and
    U+FEFF. *)
Definition white1 (a : ascii) : bool := Ascii.is_space a.

Definition white2 (a b : ascii) : bool :=
  bool_decide (a = "194"%char) && bool_decide (b = "160"%char).

Definition white3 (a b c : ascii) : bool :=
  let last := Ascii.N_of_ascii c in
  bool_decide (a = "225"%char) && bool_decide (b = "154"%char) && bool_decide (c = "128"%char)
  || bool_decide (a = "226"%char) && bool_decide (b = "128"%char) &&
     ((128 <=? last)%N && (last <=? 138)%N
      || bool_decide (c = "168"%char) || bool_decide (c = "169"%char)
      || bool_decide (c = "175"%char))
  || bool_decide (a = "226"%char) && bool_decide (b = "129"%char) && bool_decide (c = "159"%char)
  || bool_decide (a = "227"%char) && bool_decide (b = "128"%char) && bool_decide (c = "128"%char)
  || bool_decide (a = "239"%char) && bool_decide (b = "187"%char) && bool_decide (c = "191"%char).

(** Stripping at the front; with [backwards] the bytes come last first,
    as in a reversed string. *)
Fixpoint strip (backwards : bool) (s : string) : string :=
  match s with
  | String a rest =>
      if white1 a then strip backwards rest
      else
        match rest with
        | String b rest2 =>
            if (if backwards then white2 b a else white2 a b) then strip backwards rest2
            else
              match rest2 with
              | String c rest3 =>
                  if (if backwards then white3 c b a else white3 a b c)
                  then strip backwards rest3
                  else s
              | EmptyString => s
              end
        | EmptyString => s
        end
  | EmptyString => EmptyString
  end.

Definition trimStart (s : string) : string := strip false s.

(** [s.trim()]. *)
Definition trim (s : string) : string :=
  String.rev (strip true (String.rev (trimStart s))).

(** [l.join(sep)]. *)
Fixpoint join (sep : string) (l : list string) : string :=
  match l with
  | [] => ""
  | [x] => x
  | x :: rest => x +:+ sep +:+ join sep rest
  end.

(** [t] occurs in [s] as a contiguous piece. *)
Definition occurs_in (t s : string) : Prop :=
  ∃ pre post, s = pre +:+ t +:+ post.

(** Names every object inherits from [Object.prototype]; the [in]
    operator answers [true] on them for any object literal. *)
Definition Object_prototype_keys : list string :=
  [ "constructor"; "__defineGetter__"; "__defineSetter__"; "hasOwnProperty";
    "__lookupGetter__"; "__lookupSetter__"; "isPrototypeOf";
    "propertyIsEnumerable"; "toString"; "valueOf"; "__proto__";
    "toLocaleString" ].

(** [key in obj] for an object literal with own keys [own]. *)
Definition has_property (own : list string) (key : string) : bool :=
  bool_decide (key ∈ own) || bool_decide (key ∈ Object_prototype_keys).

(** The argument of the two token parsers is typed [unknown]. *)
Inductive Unknown :=
| UString (s : string)
| UArray (l : list (option string))   (* [None]: an element that is no string *)
| UOther.

End Js.

(** ** permissions.ts *)

Module Permissions.

Inductive Scope :=
| org_read | org_write | org_admin
| project_read | project_write | project_admin
| team_read | team_write | team_admin
| member_read | member_write | member_admin
| event_read | event_write | event_admin
| project_releases.

#[global] Instance Scope_eq_dec : EqDecision Scope.
Proof. solve_decision. Defined.

(** [Object.keys(SCOPE_HIERARCHY)], in insertion order. *)
Definition ALL_SCOPES : list Scope :=
  [ org_read; org_write; org_admin;
    project_read; project_write; project_admin;
    team_read; team_write; team_admin;
    member_read; member_write; member_admin;
    event_read; event_write; event_admin;
    project_releases ].

#[global, program] Instance Scope_finite : Finite Scope :=
  {| enum := ALL_SCOPES |}.
Next Obligation. by apply (bool_decide_unpack _). Qed.
Next Obligation. intros []; apply (bool_decide_unpack _); by vm_compute. Qed.

(** The string each scope is written as. *)
Definition scope_name (s : Scope) : string :=
  match s with
  | org_read => "org:read" | org_write => "org:write" | org_admin => "org:admin"
  | project_read => "project:read" | project_write => "project:write"
  | project_admin => "project:admin"
  | team_read => "team:read" | team_write => "team:write" | team_admin => "team:admin"
  | member_read => "member:read" | member_write => "member:write"
  | member_admin => "member:admin"
  | event_read => "event:read" | event_write => "event:write"
  | event_admin => "event:admin"
  | project_releases => "project:releases"
  end.

Definition SCOPE_HIERARCHY (s : Scope) : gset Scope :=
  match s with
  | org_read => {[ org_read ]}
  | org_write => {[ org_read; org_write ]}
  | org_admin => {[ org_read; org_write; org_admin ]}
  | project_read => {[ project_read ]}
  | project_write => {[ project_read; project_write ]}
  | project_admin => {[ project_read; project_write; project_admin ]}
  | team_read => {[ team_read ]}
  | team_write => {[ team_read; team_write ]}
  | team_admin => {[ team_read; team_write; team_admin ]}
  | member_read => {[ member_read ]}
  | member_write => {[ member_read; member_write ]}
  | member_admin => {[ member_read; member_write; member_admin ]}
  | event_read => {[ event_read ]}
  | event_write => {[ event_read; event_write ]}
  | event_admin => {[ event_read; event_write; event_admin ]}
  | project_releases => {[ project_releases ]}
  end.

Definition getAvailableScopes : list Scope := ALL_SCOPES.

Definition ALL_SCOPES_SET : gset Scope := list_to_set ALL_SCOPES.

(** [ALL_SCOPES_SET.has(raw)] on a raw string, returning the scope it names. *)
Definition lookup_scope (raw : string) : option Scope :=
  List.find (λ s, bool_decide (scope_name s = raw)) ALL_SCOPES.

(** The two nested [for ... of] loops of [expandScopes]. *)
Definition expandScopes (grantedScopes : gset Scope) : gset Scope :=
  set_fold
    (λ scope expandedScopes,
       set_fold (λ s acc, {[ s ]} ∪ acc) expandedScopes (SCOPE_HIERARCHY scope))
    ∅ grantedScopes.

Definition hasRequiredScopes
    (grantedScopes : gset Scope) (requiredScopes : list Scope) : bool :=
  let expandedScopes := expandScopes grantedScopes in
  forallb (λ scope, bool_decide (scope ∈ expandedScopes)) requiredScopes.

Definition isToolAllowed
    (requiredScopes : option (list Scope)) (grantedScopes : gset Scope) : bool :=
  match requiredScopes with
  | None => true
  | Some [] => true
  | Some required => hasRequiredScopes grantedScopes required
  end.

Record ParsedScopes := { valid : gset Scope; invalid : list string }.

Definition tokens_of (input : Js.Unknown) : list string :=
  match input with
  | Js.UString s => Js.split "," s
  | Js.UArray l => (λ v, default "" v) <$> l
  | Js.UOther => []
  end.

(** The loop of [parseScopes] over the trimmed, non-empty tokens. *)
Fixpoint classify (raws : list string) (acc : ParsedScopes) : ParsedScopes :=
  match raws with
  | [] => acc
  | raw :: rest =>
      classify rest
        match lookup_scope raw with
        | Some s => {| valid := {[ s ]} ∪ valid acc; invalid := invalid acc |}
        | None => {| valid := valid acc; invalid := invalid acc ++ [raw] |}
        end
  end.

Definition parseScopes (input : Js.Unknown) : ParsedScopes :=
  classify
    (List.filter (λ s, negb (bool_decide (s = ""))) (Js.trim <$> tokens_of input))
    {| valid := ∅; invalid := [] |}.

Definition resolveScopes
    (override add : option (gset Scope)) (defaults : list Scope)
    : option (gset Scope) :=
  match override, add with
  | Some o, _ => Some (expandScopes o)
  | None, Some a =>
      let base := set_fold (λ s base, {[ s ]} ∪ base) (list_to_set defaults) a in
      Some (expandScopes base)
  | None, None => None
  end.

(** A hierarchical resource and its three levels; [project:releases] is
    the one scope outside this grid. *)
Inductive Resource := org | project | team | member | event.
Inductive Level := read | write | admin.

Definition scope_of (r : Resource) (l : Level) : Scope :=
  match r, l with
  | org, read => org_read | org, write => org_write | org, admin => org_admin
  | project, read => project_read | project, write => project_write
  | project, admin => project_admin
  | team, read => team_read | team, write => team_write | team, admin => team_admin
  | member, read => member_read | member, write => member_write
  | member, admin => member_admin
  | event, read => event_read | event, write => event_write
  | event, admin => event_admin
  end.

End Permissions.


(** ** skills.ts *)

Module Skills.

(** [Skill] is a union of string literals; at run time a skill is a
    string, and [isValidSkill] decides which strings enter a [Set<Skill>]. *)
Abbreviation Skill := string.

Record SkillDefinition := {
  id : Skill;
  name : string;
  description : string;
  defaultEnabled : bool;
  order : nat
}.

(** The registry object, as its entries in insertion order. *)
Definition SKILLS : list (string * SkillDefinition) :=
  [ ("inspect",
     {| id := "inspect"; name := "Inspect Issues & Events";
        description := "Search for errors, analyze traces, and explore event details";
        defaultEnabled := true; order := 1 |});
    ("seer",
     {| id := "seer"; name := "Seer";
        description := "Sentry's AI debugger that helps you analyze, root cause, and fix issues";
        defaultEnabled := true; order := 2 |});
    ("docs",
     {| id := "docs"; name := "Documentation";
        description := "Search and read Sentry SDK documentation";
        defaultEnabled := false; order := 3 |});
    ("triage",
     {| id := "triage"; name := "Triage Issues";
        description := "Resolve, assign, and update issues";
        defaultEnabled := false; order := 4 |});
    ("project-management",
     {| id := "project-management"; name := "Manage Projects & Teams";
        description := "Create and modify projects, teams, and DSNs";
        defaultEnabled := false; order := 5 |}) ].

(** [Object.values(SKILLS).sort((a, b) => a.order - b.order)]. *)
Definition by_order (a b : SkillDefinition) : Prop := (order a ≤ order b)%nat.

#[global] Instance by_order_dec : RelDecision by_order.
Proof. intros a b. unfold by_order. apply _. Defined.

Definition SKILLS_ARRAY : list SkillDefinition :=
  merge_sort by_order (SKILLS.*2).

(** [Object.keys(SKILLS)]. *)
Definition ALL_SKILLS : list Skill := SKILLS.*1.

Definition DEFAULT_SKILLS : list Skill :=
  id <$> List.filter defaultEnabled SKILLS_ARRAY.

(** [skill in SKILLS]. *)
Definition isValidSkill (skill : string) : bool :=
  Js.has_property (SKILLS.*1) skill.

Definition hasRequiredSkills
    (grantedSkills : option (gset Skill)) (requiredSkills : list Skill) : bool :=
  match grantedSkills with
  | None => false
  | Some granted =>
      if bool_decide (length requiredSkills = 0) then false
      else existsb (λ skill, bool_decide (skill ∈ granted)) requiredSkills
  end.

Record ParsedSkills := { valid : gset Skill; invalid : list string }.

(** The loop of [parseSkills]. *)
Fixpoint classify (skills : list string) (acc : ParsedSkills) : ParsedSkills :=
  match skills with
  | [] => acc
  | skill :: rest =>
      let trimmed := Js.trim skill in
      classify rest
        (if isValidSkill trimmed
         then {| valid := {[ trimmed ]} ∪ valid acc; invalid := invalid acc |}
         else if negb (bool_decide (trimmed = ""))
         then {| valid := valid acc; invalid := invalid acc ++ [trimmed] |}
         else acc)
  end.

Definition parseSkills (input : Js.Unknown) : ParsedSkills :=
  let empty := {| valid := ∅; invalid := [] |} in
  match input with
  | Js.UString "" => empty                       (* [if (!input) return] *)
  | Js.UString s => classify (Js.split "," s) empty
  | Js.UArray l => classify ((λ v, default "" v) <$> l) empty
  | Js.UOther => empty
  end.

End Skills.


(** ** constants.ts *)

Module Constants.
Import Permissions.

Definition DEFAULT_SCOPES : list Scope :=
  [ org_read; project_read; team_read; event_read ].

End Constants.

(** ** Exceptions and diagnostics

    A computation either returns or throws [new Error(msg)], and on the way
    writes lines with [console.warn]. *)

Module Run.

Inductive Outcome (A : Type) :=
| Returned (a : A)
| Thrown (msg : string).
Arguments Returned {A} a.
Arguments Thrown {A} msg.

Record Run (A : Type) := MkRun { warnings : list string; outcome : Outcome A }.
Arguments MkRun {A} warnings outcome.
Arguments warnings {A} r.
Arguments outcome {A} r.

#[global] Instance run_ret : MRet Run := λ A a, MkRun [] (Returned a).

#[global] Instance run_bind : MBind Run := λ A B f m,
  match outcome m with
  | Returned a => MkRun (warnings m ++ warnings (f a))%list (outcome (f a))
  | Thrown msg => MkRun (warnings m) (Thrown msg)
  end.

Definition throw {A} (msg : string) : Run A := MkRun [] (Thrown msg).

Definition console_warn (lines : list string) : Run unit := MkRun lines (Returned tt).

(** A helper that returns or throws, without diagnostics. *)
Definition lift {A} (o : Outcome A) : Run A := MkRun [] o.

End Run.

(** ** cli/types.ts, cli/parse.ts, cli/resolve.ts *)

Module Cli.
Import Permissions Skills Constants Run.

Record CliArgs := {
  cli_accessToken : option string;
  cli_host : option string;
  cli_url : option string;
  cli_mcpUrl : option string;
  cli_sentryDsn : option string;
  cli_openaiBaseUrl : option string;
  cli_openaiModel : option string;
  cli_scopes : option string;
  cli_addScopes : option string;
  cli_allScopes : option bool;
  cli_skills : option string;
  cli_agent : option bool;
  cli_organizationSlug : option string;
  cli_projectSlug : option string;
  cli_help : option bool;
  cli_version : option bool;
  cli_unknownArgs : list string
}.

Record EnvArgs := {
  env_accessToken : option string;
  env_host : option string;
  env_url : option string;
  env_mcpUrl : option string;
  env_sentryDsn : option string;
  env_openaiModel : option string;
  env_scopes : option string;
  env_addScopes : option string;
  env_skills : option string
}.

Record MergedArgs := {
  accessToken : option string;
  host : option string;
  url : option string;
  mcpUrl : option string;
  sentryDsn : option string;
  openaiBaseUrl : option string;
  openaiModel : option string;
  scopes : option string;
  addScopes : option string;
  allScopes : option bool;
  skills : option string;
  agent : option bool;
  organizationSlug : option string;
  projectSlug : option string;
  help : option bool;
  version : option bool;
  unknownArgs : list string
}.

Record ResolvedConfig := {
  cfg_accessToken : string;
  cfg_sentryHost : string;
  cfg_mcpUrl : option string;
  cfg_sentryDsn : option string;
  cfg_openaiBaseUrl : option string;
  cfg_openaiModel : option string;
  finalScopes : option (gset Scope);
  finalSkills : option (gset Skill);
  cfg_organizationSlug : option string;
  cfg_projectSlug : option string
}.

(** [x === true] on an optional boolean. *)
Definition is_true (o : option bool) : bool :=
  match o with Some true => true | _ => false end.

(** [merged.addScopes = v] and [merged.scopes = v]. *)
Definition set_addScopes (v : option string) (m : MergedArgs) : MergedArgs :=
  {| accessToken := accessToken m; host := host m; url := url m;
     mcpUrl := mcpUrl m; sentryDsn := sentryDsn m;
     openaiBaseUrl := openaiBaseUrl m; openaiModel := openaiModel m;
     scopes := scopes m; addScopes := v; allScopes := allScopes m;
     skills := skills m; agent := agent m;
     organizationSlug := organizationSlug m; projectSlug := projectSlug m;
     help := help m; version := version m; unknownArgs := unknownArgs m |}.

Definition set_scopes (v : option string) (m : MergedArgs) : MergedArgs :=
  {| accessToken := accessToken m; host := host m; url := url m;
     mcpUrl := mcpUrl m; sentryDsn := sentryDsn m;
     openaiBaseUrl := openaiBaseUrl m; openaiModel := openaiModel m;
     scopes := v; addScopes := addScopes m; allScopes := allScopes m;
     skills := skills m; agent := agent m;
     organizationSlug := organizationSlug m; projectSlug := projectSlug m;
     help := help m; version := version m; unknownArgs := unknownArgs m |}.

Definition merge (cli : CliArgs) (env : EnvArgs) : MergedArgs :=
  let merged :=
    {| accessToken := Js.nullish (cli_accessToken cli) (env_accessToken env);
       url := Js.nullish (cli_url cli) (env_url env);
       host := Js.nullish (cli_host cli) (env_host env);
       mcpUrl := Js.nullish (cli_mcpUrl cli) (env_mcpUrl env);
       sentryDsn := Js.nullish (cli_sentryDsn cli) (env_sentryDsn env);
       openaiBaseUrl := cli_openaiBaseUrl cli;
       openaiModel := Js.nullish (cli_openaiModel cli) (env_openaiModel env);
       scopes := Js.nullish (cli_scopes cli) (env_scopes env);
       addScopes := Js.nullish (cli_addScopes cli) (env_addScopes env);
       allScopes := Some (is_true (cli_allScopes cli));
       skills := Js.nullish (cli_skills cli) (env_skills env);
       agent := Some (is_true (cli_agent cli));
       organizationSlug := cli_organizationSlug cli;
       projectSlug := cli_projectSlug cli;
       help := Some (is_true (cli_help cli));
       version := Some (is_true (cli_version cli));
       unknownArgs := cli_unknownArgs cli |} in
  (* If CLI provided scopes, ignore additive env var *)
  let merged :=
    if Js.truthy (cli_scopes cli)
    then set_addScopes (cli_addScopes cli) merged
    else merged in
  (* If CLI provided add-scopes, ensure scopes override isn't pulled from env *)
  let merged :=
    if Js.truthy (cli_addScopes cli)
    then set_scopes (cli_scopes cli) merged
    else merged in
  merged.

(** [utils/url-utils.ts] is not among the sources.  Its three validators
    are taken as an interface: each returns or throws. *)
Class UrlUtils := {
  validateAndParseSentryUrlThrows : string → Outcome string;
  validateSentryHostThrows : string → Outcome unit;
  validateOpenAiBaseUrlThrows : string → Outcome string
}.

Definition nl : string := String "010"%char "".

Definition formatInvalid (invalid : list string) (envName : option string) : string :=
  let where_ :=
    if Js.truthy envName then default "" envName +:+ " provided"
    else "Invalid scopes provided" in
  "Error: " +:+ where_ +:+ ": " +:+ Js.join ", " invalid +:+ nl +:+
  "Available scopes: " +:+ Js.join ", " (scope_name <$> ALL_SCOPES).

Definition formatInvalidSkills (invalid : list string) (envName : option string) : string :=
  let where_ :=
    if Js.truthy envName then default "" envName +:+ " provided"
    else "Invalid skills provided" in
  let allSkills := Js.join ", " (SKILLS.*1) in
  "Error: " +:+ where_ +:+ ": " +:+ Js.join ", " invalid +:+ nl +:+
  "Available skills: " +:+ allSkills.

Definition NO_ACCESS_TOKEN : string :=
  "Error: No access token was provided. Pass one with `--access-token` or via `SENTRY_ACCESS_TOKEN`.".
Definition NO_VALID_SCOPES : string :=
  "Error: Invalid scopes provided. No valid scopes found.".
Definition NO_VALID_ADD_SCOPES : string :=
  "Error: Invalid additional scopes provided. No valid scopes found.".
Definition NO_VALID_SKILLS : string :=
  "Error: Invalid skills provided. No valid skills found.".

Definition WARN_ALL_SCOPES : list string :=
  [ "⚠️  Warning: --all-scopes is deprecated. Consider using skills instead:";
    "   --skills=inspect,triage,project-management,seer,docs";
    "   Learn more about skills in the documentation.";
    "" ].
Definition WARN_SCOPES : list string :=
  [ "⚠️  Warning: --scopes is deprecated. Consider using skills instead:";
    "   For example, instead of --scopes=event:write,project:write";
    "   Use: --skills=triage,project-management";
    "   Learn more about skills in the documentation.";
    "" ].
Definition WARN_ADD_SCOPES : list string :=
  [ "⚠️  Warning: --add-scopes is deprecated. Consider using --skills instead:";
    "   For example, instead of --add-scopes=event:write";
    "   Use: --skills=triage";
    "   Learn more about skills in the documentation.";
    "" ].

(** The value of an optional string already tested truthy. *)
Definition the (o : option string) : string := default "" o.

(** [finalize] runs four checks in a row; each is given its own name here
    and [finalize] chains them in the order of the source. *)
Section finalize.
Context `{UrlUtils}.

(** "Determine host from url/host with validation". *)
Definition finalize_host (input : MergedArgs) : Run string :=
  if Js.truthy (url input)
  then lift (validateAndParseSentryUrlThrows (the (url input)))
  else if Js.truthy (host input)
  then _ ← lift (validateSentryHostThrows (the (host input)));
       mret (the (host input))
  else mret "sentry.io".

(** "Scopes resolution (LEGACY - deprecated in favor of skills)". *)
Definition finalize_scopes (input : MergedArgs) : Run (option (gset Scope)) :=
  if Js.truthyb (allScopes input)
  then _ ← console_warn WARN_ALL_SCOPES;
       mret (Some (list_to_set ALL_SCOPES))
  else if Js.truthy (scopes input) || Js.truthy (addScopes input)
  then
    (* Show deprecation warning *)
    _ ← (if Js.truthy (scopes input) then console_warn WARN_SCOPES
         else if Js.truthy (addScopes input) then console_warn WARN_ADD_SCOPES
         else mret tt);
    (* Strict validation: any invalid token is an error *)
    if Js.truthy (scopes input)
    then
      let parsed := parseScopes (Js.UString (the (scopes input))) in
      if bool_decide (0 < length (Permissions.invalid parsed))%nat
      then throw (formatInvalid (Permissions.invalid parsed) None)
      else if bool_decide (size (Permissions.valid parsed) = 0)
      then throw NO_VALID_SCOPES
      else mret (resolveScopes (Some (Permissions.valid parsed)) None DEFAULT_SCOPES)
    else if Js.truthy (addScopes input)
    then
      let parsed := parseScopes (Js.UString (the (addScopes input))) in
      if bool_decide (0 < length (Permissions.invalid parsed))%nat
      then throw (formatInvalid (Permissions.invalid parsed) None)
      else if bool_decide (size (Permissions.valid parsed) = 0)
      then throw NO_VALID_ADD_SCOPES
      else mret (resolveScopes None (Some (Permissions.valid parsed)) DEFAULT_SCOPES)
    else mret None
  else mret None.

(** "Skills resolution". *)
Definition finalize_skills (input : MergedArgs) : Run (option (gset Skill)) :=
  if Js.truthy (skills input)
  then
    (* Override: use only the specified skills *)
    let parsed := parseSkills (Js.UString (the (skills input))) in
    if bool_decide (0 < length (Skills.invalid parsed))%nat
    then throw (formatInvalidSkills (Skills.invalid parsed) None)
    else if bool_decide (size (Skills.valid parsed) = 0)
    then throw NO_VALID_SKILLS
    else mret (Some (Skills.valid parsed))
  else
    (* Default: grant ALL skills when no flag is provided *)
    let allSkills := SKILLS.*1 in
    mret (Some (list_to_set allSkills)).

Definition finalize_openaiBaseUrl (input : MergedArgs) : Run (option string) :=
  if Js.truthy (openaiBaseUrl input)
  then v ← lift (validateOpenAiBaseUrlThrows (the (openaiBaseUrl input)));
       mret (Some v)
  else mret None.

Definition finalize (input : MergedArgs) : Run ResolvedConfig :=
  (* Access token required *)
  if negb (Js.truthy (accessToken input)) then throw NO_ACCESS_TOKEN else
  sentryHost ← finalize_host input;
  finalScopes ← finalize_scopes input;
  finalSkills ← finalize_skills input;
  resolvedOpenAiBaseUrl ← finalize_openaiBaseUrl input;
  mret {| cfg_accessToken := the (accessToken input);
          cfg_sentryHost := sentryHost;
          cfg_mcpUrl := mcpUrl input;
          cfg_sentryDsn := sentryDsn input;
          cfg_openaiBaseUrl := resolvedOpenAiBaseUrl;
          cfg_openaiModel := openaiModel input;
          finalScopes := finalScopes;
          finalSkills := finalSkills;
          cfg_organizationSlug := organizationSlug input;
          cfg_projectSlug := projectSlug input |}.

End finalize.

(** An implementation of the validators that refuses every input; an
    input without [url], [host] and [openaiBaseUrl] never reaches it. *)
Definition refusing_url_utils : UrlUtils :=
  {| validateAndParseSentryUrlThrows _ := Thrown "refused";
     validateSentryHostThrows _ := Thrown "refused";
     validateOpenAiBaseUrlThrows _ := Thrown "refused" |}.

(** [{ accessToken, scopes, addScopes, allScopes, skills, unknownArgs: [] }]. *)
Definition args (accessToken scopes addScopes : option string)
    (allScopes : option bool) (skills : option string) : MergedArgs :=
  {| accessToken := accessToken; host := None; url := None; mcpUrl := None;
     sentryDsn := None; openaiBaseUrl := None; openaiModel := None;
     scopes := scopes; addScopes := addScopes; allScopes := allScopes;
     skills := skills; agent := None; organizationSlug := None;
     projectSlug := None; help := None; version := None; unknownArgs := [] |}.



End Cli.

(** ** types.ts, tools/types.ts, server.ts *)

Module Server.
Import Permissions Skills Run.

(** [string | null | undefined]: both [null] and [undefined] are [None]. *)
Record Constraints := {
  organizationSlug : option string;
  projectSlug : option string;
  regionUrl : option string
}.

Definition CONSTRAINT_PARAMETER_KEYS : gset string :=
  {[ "organizationSlug"; "projectSlug"; "projectSlugOrId"; "regionUrl" ]}.

(** Values found in an argument bag. *)
Inductive JsValue :=
| VString (s : string)
| VNumber (n : Z)
| VBool (b : bool)
| VNull.

Record ServerContext := {
  sentryHost : option string;
  mcpUrl : option string;
  accessToken : string;
  openaiBaseUrl : option string;
  userId : option string;
  clientId : option string;
  grantedSkills : option (gset Skill);
  grantedScopes : option (gset Scope);
  constraints : Constraints
}.

(** What a handler hands back: a string, a content list, or anything else. *)
Inductive HandlerOutput :=
| OutString (text : string)
| OutContent (content : list string)
| OutOther (shown : string).

(** [inputSchema] is kept as its parameter names, in declaration order;
    [requiredSkills] and [requiredScopes] may be missing at run time, which
    the gate tests for. *)
Record ToolConfig := {
  name : string;
  description : string;
  inputSchema : list string;
  requiredSkills : option (list Skill);
  requiredScopes : option (list Scope);
  handler : gmap string JsValue → ServerContext → Outcome HandlerOutput
}.

Record CallToolResult := { content : list string; isError : bool }.

Record RegisteredTool := {
  reg_name : string;
  reg_description : string;
  reg_inputSchema : list string;
  reg_callback : gmap string JsValue → CallToolResult
}.

(** The server of the protocol library, as far as [configureServer] uses
    it: the tools registered on it, oldest first.  [server.tool] keeps
    tools by name and throws on a name it already holds. *)
Abbreviation McpServer := (list RegisteredTool).

Definition server_tool (server : McpServer) (tool : RegisteredTool) : Outcome McpServer :=
  if bool_decide (reg_name tool ∈ reg_name <$> server)
  then Thrown ("Tool " +:+ reg_name tool +:+ " is already registered")
  else Returned (server ++ [tool])%list.

(** [internal/constraint-helpers.ts] and [internal/error-handling.ts] are
    not among the sources; the server is written against their
    signatures, as the calls in [configureServer] fix them. *)
Class Helpers := {
  getConstraintParametersToInject : Constraints → list string → gmap string string;
  getConstraintKeysToFilter : Constraints → list string → list string;
  formatErrorForUser : string → string
}.

(** Modelled from the spec: the two helpers of
    [internal/constraint-helpers.ts], which is not among the sources.
    For a tool they give the declared parameter names matching an active
    constraint, aliases included ([projectSlugOrId] satisfies a project
    constraint), and the constrained values for them. *)
Definition matching_parameters
    (c : Constraints) (schema : list string) : list (string * string) :=
  let entry (key : string) (value : option string) : list (string * string) :=
    match value with
    | Some v =>
        if bool_decide (v = "") then []
        else ((if bool_decide (key ∈ schema) then [(key, v)] else []) ++
              (if bool_decide (key = "projectSlug") &&
                  bool_decide ("projectSlugOrId" ∈ schema)
               then [("projectSlugOrId", v)] else []))%list
    | None => []
    end in
  (entry "organizationSlug" (organizationSlug c) ++
   entry "projectSlug" (projectSlug c) ++
   entry "regionUrl" (regionUrl c))%list.

Definition spec_helpers : Helpers :=
  {| getConstraintParametersToInject c schema :=
       list_to_map (matching_parameters c schema);
     getConstraintKeysToFilter c schema := (matching_parameters c schema).*1;
     formatErrorForUser msg := msg |}.

(** [context.grantedScopes = g]. *)
Definition with_grantedScopes (g : option (gset Scope)) (c : ServerContext)
    : ServerContext :=
  {| sentryHost := sentryHost c; mcpUrl := mcpUrl c; accessToken := accessToken c;
     openaiBaseUrl := openaiBaseUrl c; userId := userId c; clientId := clientId c;
     grantedSkills := grantedSkills c; grantedScopes := g;
     constraints := constraints c |}.

Section configure.
Context `{Helpers}.

(** The gate of [configureServer]: the value of [allowed] for one tool. *)
Definition allowed (context : ServerContext) (tool : ToolConfig) : bool :=
  match grantedSkills context with
  | Some grantedSkills =>
      (* Skills system takes precedence when set *)
      match requiredSkills tool with
      | Some ((_ :: _) as required) => hasRequiredSkills (Some grantedSkills) required
      | _ => false
      end
  | None =>
      match grantedScopes context with
      | Some grantedScopes => isToolAllowed (requiredScopes tool) grantedScopes
      | None => false
      end
  end.

(** [{ ...params, ...applicableConstraints }]: on a key both have, the
    later spread wins. *)
Definition paramsWithConstraints
    (context : ServerContext) (tool : ToolConfig)
    (params : gmap string JsValue) : gmap string JsValue :=
  let applicableConstraints :=
    getConstraintParametersToInject (constraints context) (inputSchema tool) in
  (VString <$> applicableConstraints) ∪ params.

(** The callback registered for a tool.  Tracing spans, telemetry tags and
    the [onToolComplete] hook are left out. *)
Definition callback
    (context : ServerContext) (tool : ToolConfig)
    (params : gmap string JsValue) : CallToolResult :=
  match handler tool (paramsWithConstraints context tool params) context with
  | Returned (OutString output) => {| content := [output]; isError := false |}
  | Returned (OutContent output) => {| content := output; isError := false |}
  | Returned (OutOther shown) =>
      {| content := [formatErrorForUser ("Invalid tool output: " +:+ shown)];
         isError := true |}
  | Thrown error => {| content := [formatErrorForUser error]; isError := true |}
  end.

(** The arguments of [server.tool] for a tool: its name and description,
    the schema without the parameters a constraint fills in, and the
    callback. *)
Definition toolRegistration (context : ServerContext) (tool : ToolConfig) : RegisteredTool :=
  let constraintKeysToFilter : gset string :=
    list_to_set (getConstraintKeysToFilter (constraints context) (inputSchema tool)) in
  let filteredInputSchema :=
    List.filter (λ key, negb (bool_decide (key ∈ constraintKeysToFilter)))
                (inputSchema tool) in
  {| reg_name := name tool;
     reg_description := description tool;
     reg_inputSchema := filteredInputSchema;
     reg_callback := callback context tool |}.

(** [configureServer]: the loop over [Object.entries(toolsToRegister)],
    registering on [server] each tool the gate lets through; a
    registration that throws ends the loop. *)
Fixpoint configureServer
    (server : McpServer) (context : ServerContext)
    (toolsToRegister : list (string * ToolConfig)) : Outcome McpServer :=
  match toolsToRegister with
  | [] => Returned server
  | (toolKey, tool) :: rest =>
      if negb (allowed context tool) then configureServer server context rest
      else
        match server_tool server (toolRegistration context tool) with
        | Returned server => configureServer server context rest
        | Thrown error => Thrown error
        end
  end.

(** [buildServer]: [configureServer] on a new server. *)
Definition buildServer
    (context : ServerContext) (tools : list (string * ToolConfig)) : Outcome McpServer :=
  configureServer [] context tools.

(** The names registered on a server that was built. *)
Definition registered_names (built : Outcome McpServer) : Outcome (list string) :=
  match built with
  | Returned server => Returned (reg_name <$> server)
  | Thrown error => Thrown error
  end.

(** A tool is exposed to a session when the server built for the
    session's context from the tool alone registers it. *)
Definition exposed (context : ServerContext) (tool : ToolConfig) : Prop :=
  ∃ server, buildServer context [(name tool, tool)] = Returned server ∧ server ≠ [].

End configure.

End Server.

(** ** mcp-test-client: auth/oauth.ts

    [authenticate] talks to three things outside the program: the
    authorization server (two [fetch] calls), the operating system (the
    loopback port, the browser, the random source) and the user, whose
    browser calls back.  What they answer during one call is an [Env]; what
    persists between calls is a [World].  Terminal output is left out. *)

Module OAuth.

(** [../constants.js], [node:crypto] and [node:url] are not among the
    sources; the flow is written against them. *)
Class Platform := {
  OAUTH_REDIRECT_PORT : N;
  OAUTH_REDIRECT_URI : string;
  DEFAULT_OAUTH_SCOPES : list string;
  sha256_base64url : string → string;   (* createHash("sha256")...digest("base64url") *)
  url_parses : string → bool            (* whether [new URL(s)] returns *)
}.

Record OAuthConfig := { mcpHost : string; scopes : option (list string) }.

Record TokenResponse := {
  access_token : string;
  token_type : string;
  expires_in : option nat;
  refresh_token : option string;
  scope : option string
}.

(** The answer to a [fetch]: a network failure, or a response with its
    status, its text and its parsed JSON body. *)
Inductive Fetched (A : Type) :=
| FetchFailed (msg : string)
| Response (status : nat) (text : string) (json : A).
Arguments FetchFailed {A} msg.
Arguments Response {A} status text json.

Definition ok (status : nat) : bool :=
  bool_decide (200 ≤ status)%nat && bool_decide (status ≤ 299)%nat.

(** Requests sent to the authorization server. *)
Inductive Sent :=
| RegistrationRequest (url : string) (redirect_uris : list string)
    (token_endpoint_auth_method : string) (scope : string)
| TokenRequest (url : string) (form : list (string * string)).

Definition is_token_request (r : Sent) : bool :=
  match r with TokenRequest _ _ => true | RegistrationRequest _ _ _ _ => false end.

(** A request reaching the callback listener, once its target is read:
    [req.url] missing or empty, or the path and the query that [new URL]
    finds in it.  A target that [new URL] cannot parse is the matter of
    [requestListener] below. *)
Inductive Incoming :=
| NoUrl
| Url (pathname : string) (searchParams : list (string * string)).

(** Pages the listener answers with. *)
Inductive Page :=
| BadRequest | NotFound
| AuthenticationFailed (error errorDescription : string)
| MissingParameters
| Processing.

Record Reply := { status : nat; page : Page }.

Record World := {
  port_bound : bool;                 (* some listener holds the callback port *)
  this_server : option bool;         (* [this.server]; [Some true]: listening *)
  client_ids : gmap string string;
  access_tokens : gmap string (string * option nat);
  sent : list Sent;                  (* oldest first *)
  replies : list Reply;              (* oldest first *)
  opened : list (string * list (string * string))
                                     (* URLs handed to the browser: base and query *)
}.

Record Env := {
  random_verifier : string;          (* randomBytes(32).toString("base64url") *)
  random_state : string;             (* randomBytes(16).toString("base64url") *)
  registration : Fetched string;     (* answer to POST /oauth/register, with its client_id *)
  browser_opens : bool;
  callbacks : list Incoming;         (* requests arriving once the flow awaits,
                                        each with a target that parses *)
  exchange : Fetched TokenResponse;  (* answer to POST /oauth/token *)
  store_error : option string        (* the token store refusing to write *)
}.

(** A promise awaited: fulfilled, rejected, or never settled. *)
Inductive Settled (A : Type) :=
| Fulfilled (a : A)
| Rejected (error : string)
| Pending.
Arguments Fulfilled {A} a.
Arguments Rejected {A} error.
Arguments Pending {A}.

Record Async (A : Type) := MkAsync { run : World → Settled A * World }.
Arguments MkAsync {A} run.
Arguments run {A} a w.

#[global] Instance async_ret : MRet Async := λ A a, MkAsync (λ w, (Fulfilled a, w)).

#[global] Instance async_bind : MBind Async := λ A B f m,
  MkAsync (λ w,
    match run m w with
    | (Fulfilled a, w') => run (f a) w'
    | (Rejected e, w') => (Rejected e, w')
    | (Pending, w') => (Pending, w')
    end).

Definition throw {A} (error : string) : Async A := MkAsync (λ w, (Rejected error, w)).
Definition get : Async World := MkAsync (λ w, (Fulfilled w, w)).
Definition put (w : World) : Async unit := MkAsync (λ _, (Fulfilled tt, w)).
Definition never {A} : Async A := MkAsync (λ w, (Pending, w)).

(** [try { body } catch (error) { handle }]. *)
Definition try_catch {A} (body : Async A) (handle : string → Async A) : Async A :=
  MkAsync (λ w,
    match run body w with
    | (Rejected e, w') => run (handle e) w'
    | settled => settled
    end).

(** [try { body } finally { cleanup }]: the cleanup runs once the body has
    settled, whichever way; it does not run while the body is pending. *)
Definition try_finally {A} (body : Async A) (cleanup : Async unit) : Async A :=
  MkAsync (λ w,
    match run body w with
    | (Pending, w') => (Pending, w')
    | (settled, w') =>
        match run cleanup w' with
        | (Fulfilled _, w'') => (settled, w'')
        | (Rejected e, w'') => (Rejected e, w'')
        | (Pending, w'') => (Pending, w'')
        end
    end).

(** Updates of the world. *)
Definition record_sent (r : Sent) (w : World) : World :=
  {| port_bound := port_bound w; this_server := this_server w;
     client_ids := client_ids w; access_tokens := access_tokens w;
     sent := (sent w ++ [r])%list; replies := replies w; opened := opened w |}.

Definition record_reply (r : Reply) (w : World) : World :=
  {| port_bound := port_bound w; this_server := this_server w;
     client_ids := client_ids w; access_tokens := access_tokens w;
     sent := sent w; replies := (replies w ++ [r])%list; opened := opened w |}.

Definition record_opened (u : string * list (string * string)) (w : World) : World :=
  {| port_bound := port_bound w; this_server := this_server w;
     client_ids := client_ids w; access_tokens := access_tokens w;
     sent := sent w; replies := replies w; opened := (opened w ++ [u])%list |}.

Definition with_listener (bound : bool) (server : option bool) (w : World) : World :=
  {| port_bound := bound; this_server := server;
     client_ids := client_ids w; access_tokens := access_tokens w;
     sent := sent w; replies := replies w; opened := opened w |}.

Definition with_client_ids (m : gmap string string) (w : World) : World :=
  {| port_bound := port_bound w; this_server := this_server w;
     client_ids := m; access_tokens := access_tokens w;
     sent := sent w; replies := replies w; opened := opened w |}.

Definition with_access_tokens (m : gmap string (string * option nat)) (w : World) : World :=
  {| port_bound := port_bound w; this_server := this_server w;
     client_ids := client_ids w; access_tokens := m;
     sent := sent w; replies := replies w; opened := opened w |}.

Definition modify (f : World → World) : Async unit :=
  MkAsync (λ w, (Fulfilled tt, f w)).

(** [url.searchParams.get(key)]. *)
Definition searchParams_get (params : list (string * string)) (key : string)
    : option string :=
  snd <$> List.find (λ kv, bool_decide (kv.1 = key)) params.

(** The request listener of [startCallbackServer], from the parsed URL
    on: its reply, and the call it makes on the callback promise, if it
    makes one.  [resolveCallback] and [rejectCallback] are null until
    [waitForCallback()] has run and set both; [waiting] says that it
    has. *)
Definition handleRequest (waiting : bool) (req : Incoming)
    : Reply * option (Settled (string * string)) :=
  match req with
  | NoUrl => ({| status := 400; page := BadRequest |}, None)
  | Url pathname params =>
      if bool_decide (pathname = "/callback") then
        let code := searchParams_get params "code" in
        let state := searchParams_get params "state" in
        let error := searchParams_get params "error" in
        if Js.truthy error then
          let errorDescription :=
            if Js.truthy (searchParams_get params "error_description")
            then default "" (searchParams_get params "error_description")
            else "Unknown error" in
          ({| status := 400;
              page := AuthenticationFailed (default "" error) errorDescription |},
           if waiting         (* [if (rejectCallback)] *)
           then Some (Rejected ("OAuth error: " +:+ default "" error +:+ " - " +:+
                                errorDescription))
           else None)
        else if negb (Js.truthy code) || negb (Js.truthy state) then
          ({| status := 400; page := MissingParameters |},
           if waiting         (* [if (rejectCallback)] *)
           then Some (Rejected "Missing code or state parameter")
           else None)
        else
          ({| status := 200; page := Processing |},
           if waiting         (* [if (resolveCallback)] *)
           then Some (Fulfilled (default "" code, default "" state))
           else None)
      else ({| status := 404; page := NotFound |}, None)
  end.

(** The listener on the request as it comes.  [req.url] may be missing or
    empty; [new URL(req.url, base)] is not guarded and throws on a target
    it cannot parse, before anything is written.  [parseUrl] stands for
    [new URL] against the base of the listener: the path and the query,
    or nothing when it throws. *)
Definition requestListener
    (parseUrl : string → option (string * list (string * string)))
    (waiting : bool) (url : option string)
    : Run.Outcome (Reply * option (Settled (string * string))) :=
  if negb (Js.truthy url) then Run.Returned (handleRequest waiting NoUrl)
  else
    match parseUrl (default "" url) with
    | None => Run.Thrown "Invalid URL"
    | Some (pathname, searchParams) =>
        Run.Returned (handleRequest waiting (Url pathname searchParams))
    end.

(** A promise settles once: [resolve] and [reject] on a settled promise
    do nothing. *)
Definition settle {A} (promise : Settled A) (call : option (Settled A)) : Settled A :=
  match promise, call with
  | Pending, Some settled => settled
  | _, _ => promise
  end.

(** [waitForCallback()], awaited: the listener, now with both callbacks
    set, serves the arriving requests until one of them settles the
    promise; if none does, the promise stays pending. *)
Fixpoint waitForCallback (arriving : list Incoming) : Async (string * string) :=
  match arriving with
  | [] => never
  | req :: later =>
      let '(reply, settles) := handleRequest true req in
      _ ← modify (record_reply reply);
      match settles with
      | Some (Fulfilled v) => mret v
      | Some (Rejected e) => throw e
      | Some Pending | None => waitForCallback later
      end
  end.

(** How the arriving requests settle the callback promise, and the
    requests the listener serves until then. *)
Fixpoint settlement (arriving : list Incoming) : Settled (string * string) :=
  match arriving with
  | [] => Pending
  | req :: later =>
      match (handleRequest true req).2 with
      | Some (Fulfilled v) => Fulfilled v
      | Some (Rejected e) => Rejected e
      | Some Pending | None => settlement later
      end
  end.

Fixpoint served (arriving : list Incoming) : list Reply :=
  match arriving with
  | [] => []
  | req :: later =>
      (handleRequest true req).1 ::
      match (handleRequest true req).2 with
      | Some (Fulfilled _) | Some (Rejected _) => []
      | Some Pending | None => served later
      end
  end.

(** A step is quiet when it leaves the listener, the two stores and the
    requests sent as they were. *)
Definition quiet (w w' : World) : Prop :=
  port_bound w' = port_bound w ∧ this_server w' = this_server w ∧
  client_ids w' = client_ids w ∧ access_tokens w' = access_tokens w ∧
  sent w' = sent w.

Section client.
Context `{Platform}.
Variable config : OAuthConfig.   (* [this.config], after the constructor *)

(** [config.scopes || DEFAULT_OAUTH_SCOPES]; an empty array is truthy. *)
Definition config_scopes : list string :=
  default DEFAULT_OAUTH_SCOPES (scopes config).

Definition generatePKCE (env : Env) : string * string :=
  let verifier := random_verifier env in
  (verifier, sha256_base64url verifier).

Definition generateState (env : Env) : string := random_state env.

Definition registerClient (env : Env) : Async string :=
  let registrationUrl := mcpHost config +:+ "/oauth/register" in
  _ ← modify (record_sent
         (RegistrationRequest registrationUrl [OAUTH_REDIRECT_URI] "none"
            (Js.join " " config_scopes)));
  match registration env with
  | FetchFailed msg => throw msg
  | Response status error client_id =>
      if negb (ok status)
      then throw ("Client registration failed: " +:+ pretty status +:+ " - " +:+ error)
      else mret client_id
  end.

(** [listen] fails when the port is taken, with the error of the
    operating system. *)
Definition EADDRINUSE : string :=
  "listen EADDRINUSE: address already in use 127.0.0.1:" +:+ pretty OAUTH_REDIRECT_PORT.

Definition startCallbackServer : Async unit :=
  w ← get;
  if port_bound w
  then _ ← put (with_listener true (Some false) w); throw EADDRINUSE
  else put (with_listener true (Some true) w).

(** [this.server.close(); this.server = null], under [if (this.server)]. *)
Definition closeServer : Async unit :=
  w ← get;
  match this_server w with
  | Some listening =>
      put (with_listener (if listening then false else port_bound w) None w)
  | None => mret tt
  end.

Definition exchangeCodeForToken
    (env : Env) (code codeVerifier clientId : string) : Async TokenResponse :=
  let tokenUrl := mcpHost config +:+ "/oauth/token" in
  let body :=
    [ ("grant_type", "authorization_code"); ("client_id", clientId);
      ("code", code); ("redirect_uri", OAUTH_REDIRECT_URI);
      ("code_verifier", codeVerifier) ] in
  _ ← modify (record_sent (TokenRequest tokenUrl body));
  match exchange env with
  | FetchFailed msg => throw msg
  | Response status error json =>
      if negb (ok status)
      then throw ("Token exchange failed: " +:+ pretty status +:+ " - " +:+ error)
      else mret json
  end.

(** Modelled from the spec: the store of [auth/config.js], which is not
    among the sources, keeps one client id and one access token per
    host. *)
Definition getOAuthClientId (host : string) : Async (option string) :=
  w ← get; mret (client_ids w !! host).

Definition setOAuthClientId (host clientId : string) : Async unit :=
  modify (λ w, with_client_ids (<[host := clientId]> (client_ids w)) w).

Definition setAccessToken
    (env : Env) (host token : string) (expiresIn : option nat) : Async unit :=
  match store_error env with
  | Some e => throw e
  | None =>
      modify (λ w, with_access_tokens (<[host := (token, expiresIn)]> (access_tokens w)) w)
  end.

Definition getOrRegisterClientId (env : Env) : Async string :=
  cached ← getOAuthClientId (mcpHost config);
  if Js.truthy cached then mret (default "" cached) else
  try_catch
    (clientId ← registerClient env;
     _ ← setOAuthClientId (mcpHost config) clientId;
     mret clientId)
    (λ error, throw ("Client registration failed: " +:+ error)).

Definition CSRF_ERROR : string := "State mismatch - possible CSRF attack".

(** The [try] block of [authenticate]. *)
Definition awaitCallbackAndExchange
    (env : Env) (clientId verifier state : string) : Async string :=
  (* Wait for callback *)
  '(code, receivedState) ← waitForCallback (callbacks env);
  (* Verify state *)
  if negb (bool_decide (receivedState = state)) then throw CSRF_ERROR else
  (* Exchange code for token *)
  try_catch
    (tokenResponse ← exchangeCodeForToken env code verifier clientId;
     (* Cache the access token *)
     _ ← setAccessToken env (mcpHost config)
           (access_token tokenResponse) (expires_in tokenResponse);
     mret (access_token tokenResponse))
    (λ error, throw error).

Definition authenticate (env : Env) : Async string :=
  (* Get or register client ID *)
  clientId ← getOrRegisterClientId env;
  (* Start callback server *)
  _ ← startCallbackServer;
  (* Generate PKCE and state *)
  let '(verifier, challenge) := generatePKCE env in
  let state := generateState env in
  (* Build authorization URL *)
  let authorize := mcpHost config +:+ "/oauth/authorize" in
  if negb (url_parses authorize) then throw "Invalid URL" else
  let authUrl :=
    (authorize,
     [ ("client_id", clientId); ("redirect_uri", OAUTH_REDIRECT_URI);
       ("response_type", "code"); ("scope", Js.join " " config_scopes);
       ("state", state); ("code_challenge", challenge);
       ("code_challenge_method", "S256") ]) in
  (* Open browser; a failure is swallowed *)
  _ ← (if browser_opens env then modify (record_opened authUrl) else mret tt);
  try_finally
    (awaitCallbackAndExchange env clientId verifier state)
    (* Clean up server *)
    closeServer.

End client.

End OAuth.

(** ** Sample inputs

    The tools and contexts of the repository's tests, and one run of the
    OAuth flow, for the statements that are checked on concrete inputs. *)

Module Samples.
Import Permissions Skills Run Server OAuth.

(** [mockTool] of tool-wrapper.test.ts; its handler reports the
    organization it was called with. *)
Definition mockTool : ToolConfig :=
  {| name := "mock_tool";
     description := "A mock tool for testing";
     inputSchema := ["organizationSlug"; "projectSlug"; "someParam"];
     requiredSkills := Some [];
     requiredScopes := Some [];
     handler params context :=
       Returned (OutString
         match params !! "organizationSlug" with
         | Some (VString organizationSlug) => organizationSlug
         | _ => ""
         end) |}.

(** A tool of the triage skill, as in the comment of [configureServer]. *)
Definition triageTool : ToolConfig :=
  {| name := "update_issue";
     description := "Update an issue";
     inputSchema := ["organizationSlug"; "issueId"; "status"];
     requiredSkills := Some ["triage"];
     requiredScopes := Some [event_write];
     handler params context := Returned (OutString "updated") |}.

Definition context
    (skills : option (gset Skill)) (scopes : option (gset Scope))
    (organizationSlug : option string) : ServerContext :=
  {| sentryHost := Some "sentry.io"; mcpUrl := None; accessToken := "test-token";
     openaiBaseUrl := None; userId := Some "1"; clientId := Some "test-client";
     grantedSkills := skills; grantedScopes := scopes;
     constraints := {| organizationSlug := organizationSlug;
                       projectSlug := None; regionUrl := None |} |}.

(** A platform for the test client: a callback port, and stand-ins for
    the digest and the URL parser. *)
Definition platform : Platform :=
  {| OAUTH_REDIRECT_PORT := 8765%N;
     OAUTH_REDIRECT_URI := "http://localhost:8765/callback";
     DEFAULT_OAUTH_SCOPES := ["org:read"; "project:read"; "event:read"];
     sha256_base64url verifier := "S256(" +:+ verifier +:+ ")";
     url_parses url := bool_decide (String.prefix "http" url = true) |}.

Definition config : OAuthConfig :=
  {| mcpHost := "https://mcp.sentry.dev"; scopes := None |}.

Definition fresh : World :=
  {| port_bound := false; this_server := None; client_ids := ∅;
     access_tokens := ∅; sent := []; replies := []; opened := [] |}.

Definition token : TokenResponse :=
  {| access_token := "token-1"; token_type := "bearer"; expires_in := Some 3600;
     refresh_token := None; scope := None |}.

(** The user approves; the browser calls back with the given state. *)
Definition approving (state : string) : Env :=
  {| random_verifier := "verifier-1";
     random_state := "state-1";
     registration := Response 201 "" "client-1";
     browser_opens := true;
     callbacks := [ Url "/favicon.ico" [];
                    Url "/callback" [("code", "code-1"); ("state", state)] ];
     exchange := Response 200 "" token;
     store_error := None |}.

End Samples.

(** * Further parts of the sources *)

(** ** Text without a separator *)

Module Tokens.

(** [sep] does not occur in [s]. *)
Fixpoint free_of (sep : ascii) (s : string) : Prop :=
  match s with
  | EmptyString => True
  | String a rest => a ≠ sep ∧ free_of sep rest
  end.

End Tokens.

(** ** skills.ts: the scopes behind a skills grant *)

Module SkillScopes.
Import Permissions Skills Constants Run Server.

(** Reading a property of [undefined]. *)
Definition TypeError (property : string) : string :=
  "Cannot read properties of undefined (reading '" +:+ property +:+ "')".

(** The loop of [getScopesForSkills] over [Object.values(tools)]. *)
Fixpoint collectScopes
    (tools : list ToolConfig) (grantedSkills : gset Skill) (scopes : gset Scope)
    : Outcome (gset Scope) :=
  match tools with
  | [] => Returned scopes
  | tool :: rest =>
      match requiredSkills tool with
      | None => Thrown (TypeError "some")
      | Some required =>
          (* Check if any of the tool's required skills are granted *)
          let toolEnabled :=
            existsb (λ reqSkill, bool_decide (reqSkill ∈ grantedSkills)) required in
          (* If tool is enabled by granted skills, add its required scopes *)
          if toolEnabled then
            match requiredScopes tool with
            | None => Thrown "tool.requiredScopes is not iterable"
            | Some needed =>
                collectScopes rest grantedSkills
                  (foldl (λ scopes scope, {[ scope ]} ∪ scopes) scopes needed)
            end
          else collectScopes rest grantedSkills scopes
      end
  end.

Definition getScopesForSkills
    (tools : list ToolConfig) (grantedSkills : gset Skill) : Outcome (gset Scope) :=
  collectScopes tools grantedSkills (list_to_set DEFAULT_SCOPES).

(** A tool as [ToolConfig] types it: both requirement lists are there. *)
Definition typed (tool : ToolConfig) : Prop :=
  is_Some (requiredSkills tool) ∧ is_Some (requiredScopes tool).

(** A tool one of whose required skills a grant holds. *)
Definition enabled (S : gset Skill) (tool : ToolConfig) : Prop :=
  ∃ skill, skill ∈ default [] (requiredSkills tool) ∧ skill ∈ S.

End SkillScopes.

(** ** cli/parse.ts: the environment *)

Module CliEnv.
Import Run Cli.

(** [process.env]: each variable is a string or [undefined]. *)
Abbreviation ProcessEnv := (gmap string string).

(** A field assigned under [if (value)]. *)
Definition given (value : option string) : option string :=
  if Js.truthy value then value else None.

(** [a || b]. *)
Definition or_else (a b : option string) : option string :=
  if Js.truthy a then a else b.

Definition WARN_MCP_SCOPES : list string :=
  [ "⚠️  Warning: MCP_SCOPES environment variable is deprecated.";
    "   Consider using MCP_SKILLS instead.";
    "" ].
Definition WARN_MCP_ADD_SCOPES : list string :=
  [ "⚠️  Warning: MCP_ADD_SCOPES environment variable is deprecated.";
    "   Consider using MCP_SKILLS instead.";
    "" ].

Definition parseEnv (env : ProcessEnv) : Run EnvArgs :=
  (* LEGACY - deprecated environment variables *)
  _ ← (if Js.truthy (env !! "MCP_SCOPES") then console_warn WARN_MCP_SCOPES else mret tt);
  _ ← (if Js.truthy (env !! "MCP_ADD_SCOPES") then console_warn WARN_MCP_ADD_SCOPES
       else mret tt);
  mret {| env_accessToken := given (env !! "SENTRY_ACCESS_TOKEN");
          env_url := given (env !! "SENTRY_URL");
          env_host := given (env !! "SENTRY_HOST");
          env_mcpUrl := given (env !! "MCP_URL");
          env_sentryDsn := given (or_else (env !! "SENTRY_DSN") (env !! "DEFAULT_SENTRY_DSN"));
          env_openaiModel := given (env !! "OPENAI_MODEL");
          env_scopes := given (env !! "MCP_SCOPES");
          env_addScopes := given (env !! "MCP_ADD_SCOPES");
          (* NEW - primary authorization method *)
          env_skills := given (env !! "MCP_SKILLS") |}.

End CliEnv.

(** ** internal/agents/openai-provider.ts, version.ts *)

Module OpenAI.
Import Run CliEnv.

Definition LIB_VERSION (process_env : ProcessEnv) : string :=
  default "0.0.0" (or_else (process_env !! "npm_package_version") (Some "0.0.0")).

Definition USER_AGENT (process_env : ProcessEnv) : string :=
  "sentry-mcp/" +:+ LIB_VERSION process_env +:+ " (https://mcp.sentry.dev)".

Definition DEFAULT_OPENAI_MODEL : string := "gpt-5".
Definition VALID_REASONING_EFFORTS : list string := ["low"; "medium"; "high"].
Definition DEFAULT_REASONING_EFFORT : string := "low".

(** What [createOpenAI] and the factory it returns are called with; a
    setting spread under [value && {...}] is there only for a truthy
    value. *)
Record LanguageModel := {
  baseURL : option string;
  user_agent : string;
  modelId : string;
  reasoningEffort : option string
}.

(** The double quote. *)
Definition quote : string := String "034"%char "".
Definition quoted (s : string) : string := quote +:+ s +:+ quote.

Definition INVALID_REASONING_EFFORT (envReasoningEffort : string) : string :=
  let validValues := Js.join ", " (quoted <$> VALID_REASONING_EFFORTS) in
  "Invalid OPENAI_REASONING_EFFORT value: " +:+ quoted envReasoningEffort +:+
  ". Must be one of: " +:+ validValues +:+ ", or " +:+ quoted "" +:+
  " (empty string to disable). Default is " +:+ quoted DEFAULT_REASONING_EFFORT +:+ ".".

(** [getOpenAIModel(model)], under the module's [configuredBaseUrl] (as
    [setOpenAIBaseUrl] left it), the user agent and [process.env]. *)
Definition getOpenAIModel
    (userAgent : string) (configuredBaseUrl : option string) (process_env : ProcessEnv)
    (model : option string) : Outcome LanguageModel :=
  let defaultModel :=
    default "" (or_else (process_env !! "OPENAI_MODEL") (Some DEFAULT_OPENAI_MODEL)) in
  (* Handle reasoning effort: empty string explicitly disables it, undefined uses default *)
  let envReasoningEffort := process_env !! "OPENAI_REASONING_EFFORT" in
  let build (reasoningEffort : option string) :=
    Returned {| baseURL := given configuredBaseUrl;
                user_agent := userAgent;
                modelId := default defaultModel model;
                reasoningEffort := given reasoningEffort |} in
  match envReasoningEffort with
  | Some "" => build None
  | None => build (Some DEFAULT_REASONING_EFFORT)
  | Some effort =>
      if bool_decide (effort ∈ VALID_REASONING_EFFORTS) then build (Some effort)
      else Thrown (INVALID_REASONING_EFFORT effort)
  end.

End OpenAI.

(** ** index.ts *)

Module Stdio.
Import Permissions Skills Constants Run Cli CliEnv Server OpenAI.

(** The script of index.ts calls [parseArgv], which rests on [parseArgs]
    of node:util, and ends in the transport; embedded here are the steps
    between the two that are this repository's own, each from the values
    it reads. *)

(** What the process holds at the call of [buildServer]: the context
    given to it, the base URL left with [setOpenAIBaseUrl], and
    [process.env]. *)
Record Serving := {
  context : ServerContext;
  configuredBaseUrl : option string;
  process_env : ProcessEnv
}.

(** "Build context once for server configuration and runtime". *)
Definition context_of (cfg : ResolvedConfig) : ServerContext :=
  {| Server.accessToken := cfg_accessToken cfg;
     grantedScopes := finalScopes cfg;
     grantedSkills := finalSkills cfg;
     constraints := {| Server.organizationSlug := cfg_organizationSlug cfg;
                       Server.projectSlug := cfg_projectSlug cfg;
                       regionUrl := None |};
     sentryHost := Some (cfg_sentryHost cfg);
     Server.mcpUrl := cfg_mcpUrl cfg;
     Server.openaiBaseUrl := cfg_openaiBaseUrl cfg;
     userId := None;
     clientId := None |}.

(** "Configure OpenAI settings from CLI flags", then the context. *)
Definition serving (cfg : ResolvedConfig) (env : ProcessEnv) : Serving :=
  {| configuredBaseUrl := cfg_openaiBaseUrl cfg;
     process_env :=
       if Js.truthy (cfg_openaiModel cfg)
       then <[ "OPENAI_MODEL" := the (cfg_openaiModel cfg) ]> env
       else env;
     context := context_of cfg |}.

Section configuration.
Context `{UrlUtils}.

(** [finalize(merge(cli, parseEnv(process.env)))], for the value [cli]
    that [parseArgv] returned, read at its declared type [CliArgs]; an
    error thrown here is the message the script dies with. *)
Definition configuration (cli : CliArgs) (env : ProcessEnv) : Run ResolvedConfig :=
  parsed ← parseEnv env;
  finalize (merge cli parsed).

End configuration.

End Stdio.

(** Command lines for the properties below. *)
Module StdioSamples.
Import Run Cli Server.

(** [--access-token --scopes --skills --openai-base-url --openai-model],
    and [--all-scopes]. *)
Definition flags
    (accessToken scopes skills openaiBaseUrl openaiModel : option string)
    (allScopes : option bool) : CliArgs :=
  {| cli_accessToken := accessToken; cli_host := None; cli_url := None;
     cli_mcpUrl := None; cli_sentryDsn := None;
     cli_openaiBaseUrl := openaiBaseUrl; cli_openaiModel := openaiModel;
     cli_scopes := scopes; cli_addScopes := None; cli_allScopes := allScopes;
     cli_skills := skills; cli_agent := None; cli_organizationSlug := None;
     cli_projectSlug := None; cli_help := None; cli_version := None;
     cli_unknownArgs := [] |}.

(** Validators that let every value through as it is. *)
Definition accepting_url_utils : UrlUtils :=
  {| validateAndParseSentryUrlThrows url := Returned url;
     validateSentryHostThrows _ := Returned tt;
     validateOpenAiBaseUrlThrows url := Returned url |}.

Definition catalog : list (string * ToolConfig) :=
  [ ("mock_tool", Samples.mockTool); ("update_issue", Samples.triageTool) ].

End StdioSamples.

(** ** auth/oauth.ts: what the flow writes *)

Module OAuthRequests.
Import OAuth.

Section client.
Context `{Platform}.
Variable config : OAuthConfig.

(** The registration request of [registerClient]. *)
Definition registrationRequest : Sent :=
  RegistrationRequest (mcpHost config +:+ "/oauth/register") [OAUTH_REDIRECT_URI] "none"
    (Js.join " " (config_scopes config)).

(** The authorization URL [authenticate] builds for a client id. *)
Definition authorizationUrl (env : Env) (clientId : string)
    : string * list (string * string) :=
  (mcpHost config +:+ "/oauth/authorize",
   [ ("client_id", clientId); ("redirect_uri", OAUTH_REDIRECT_URI);
     ("response_type", "code"); ("scope", Js.join " " (config_scopes config));
     ("state", generateState env);
     ("code_challenge", (generatePKCE env).2);
     ("code_challenge_method", "S256") ]).

(** The token request of [exchangeCodeForToken] for the verifier of the
    flow. *)
Definition tokenRequest (env : Env) (clientId code : string) : Sent :=
  TokenRequest (mcpHost config +:+ "/oauth/token")
    [ ("grant_type", "authorization_code"); ("client_id", clientId);
      ("code", code); ("redirect_uri", OAUTH_REDIRECT_URI);
      ("code_verifier", (generatePKCE env).1) ].

End client.

(** The listener has answered these requests. *)
Definition answered (replies : list Reply) (w : World) : World :=
  foldl (λ w reply, record_reply reply w) w replies.

(** An outside world in which [open] throws. *)
Definition without_browser (env : Env) : Env :=
  {| random_verifier := random_verifier env; random_state := random_state env;
     registration := registration env; browser_opens := false;
     callbacks := callbacks env; exchange := exchange env;
     store_error := store_error env |}.

(** A request that is not for the callback path. *)
Definition stray (req : Incoming) : Prop :=
  match req with
  | NoUrl => True
  | Url pathname _ => pathname ≠ "/callback"
  end.

(** The callback promise once the listener has served the requests
    [early], which came in before [waitForCallback()] ran (while
    [authenticate] awaited the browser), and then the requests
    [arriving], every one of them. *)
Definition callbackPromise (early arriving : list Incoming) : Settled (string * string) :=
  foldl (λ promise req, settle promise (handleRequest true req).2)
    (foldl (λ promise req, settle promise (handleRequest false req).2) Pending early)
    arriving.

(** The replies to them. *)
Definition callbackReplies (early arriving : list Incoming) : list Reply :=
  (((λ req, (handleRequest false req).1) <$> early) ++
   ((λ req, (handleRequest true req).1) <$> arriving))%list.

End OAuthRequests.

(** Outside worlds for the properties below. *)
Module OAuthSamples.
Import OAuth.

(** The registration endpoint refuses. *)
Definition refused : Env :=
  {| random_verifier := "verifier-1";
     random_state := "state-1";
     registration := Response 403 "forbidden" "";
     browser_opens := true;
     callbacks := [];
     exchange := FetchFailed "unreachable";
     store_error := None |}.

(** The user never comes back; only the icon is asked for. *)
Definition abandoned : Env :=
  {| random_verifier := "verifier-1";
     random_state := "state-1";
     registration := Response 201 "" "client-1";
     browser_opens := true;
     callbacks := [ Url "/favicon.ico" []; NoUrl ];
     exchange := FetchFailed "unreachable";
     store_error := None |}.

(** A stand-in for [new URL] against the base of the listener: it
    refuses the target [//], which has no host, and knows one callback
    target. *)
Definition parseTarget (target : string) : option (string * list (string * string)) :=
  if bool_decide (target = "//") then None
  else if bool_decide (target = "/callback?code=code-1&state=state-1")
  then Some ("/callback", [("code", "code-1"); ("state", "state-1")])
  else Some (target, []).

(** Another process holds the callback port. *)
Definition busy : World :=
  {| port_bound := true; this_server := None; client_ids := ∅;
     access_tokens := ∅; sent := []; replies := []; opened := [] |}.

End OAuthSamples.

(** ** mcp-cloudflare: server/lib/mcp-handler.ts *)

Module McpHandler.
Import Permissions Skills Run Server CliEnv.

(** [ctx.props], at the types the handler casts its fields to. *)
Record Props := {
  props_id : option string;
  props_clientId : string;
  props_accessToken : string;
  props_grantedScopes : option (list string);
  props_grantedSkills : option (list string)
}.

(** [lib/constraint-utils.ts] is not among the sources; what
    [verifyConstraintsAccess] answers is taken as it is used here. *)
Inductive Verification :=
| Verified (constraints : Constraints)
| Refused (message : string) (status : option nat).

(** How [fetch] ends: with a response of its own, or by handing the
    request to the handler of a server built for a context. *)
Inductive Handled :=
| Respond (status : nat) (body : string)
| Serve (serverContext : ServerContext) (isAgentMode : bool).

Definition NO_VALID_SKILLS_GRANTED : string :=
  "Authorization failed: No valid skills were granted. Please re-authorize and select at least one permission.".
Definition NO_VALID_PERMISSIONS_GRANTED : string :=
  "Authorization failed: No valid permissions were granted. Please re-authorize and select at least one permission.".

(** An array of strings as the two parsers see it. *)
Definition array (l : list string) : Js.Unknown := Js.UArray (Some <$> l).

Section fetch.
(** [verifyConstraintsAccess({organizationSlug, projectSlug}, {accessToken, sentryHost})]. *)
Variable verifyConstraintsAccess :
  option string → option string → string → string → Verification.

(** [fetch], from the result of matching the URL against
    [/mcp/:org?/:project?] (its two groups, when it matches), the [agent]
    query parameter, the props and the two variables of the worker. *)
Definition fetch
    (result : option (option string * option string)) (agent : option string)
    (props : option Props) (SENTRY_HOST MCP_URL : option string) : Outcome Handled :=
  match result with
  | None => Returned (Respond 404 "Not found")
  | Some (orgGroup, projectGroup) =>
      let organizationSlug := given orgGroup in
      let projectSlug := given projectGroup in
      (* Check for agent mode query parameter *)
      let isAgentMode := bool_decide (agent = Some "1") in
      (* Extract OAuth props from ExecutionContext (set by OAuth provider) *)
      match props with
      | None => Thrown "No authentication context available"
      | Some props =>
          let sentryHost := default "" (or_else SENTRY_HOST (Some "sentry.io")) in
          (* Verify user has access to the requested org/project *)
          match verifyConstraintsAccess organizationSlug projectSlug
                  (props_accessToken props) sentryHost with
          | Refused message status => Returned (Respond (default 500%nat status) message)
          | Verified constraints =>
              (* Parse and expand granted scopes (LEGACY - for backward compatibility) *)
              let expandedScopes :=
                match props_grantedScopes props with
                | Some grantedScopes =>
                    Some (expandScopes (Permissions.valid (parseScopes (array grantedScopes))))
                | None => None
                end in
              (* Parse and validate granted skills (NEW - primary authorization method) *)
              let grantedSkills :=
                match props_grantedSkills props with
                | Some grantedSkills => Some (Skills.valid (parseSkills (array grantedSkills)))
                | None => None
                end in
              (* Validate that at least one valid skill was granted *)
              if match grantedSkills with
                 | Some granted => bool_decide (size granted = 0)
                 | None => false
                 end
              then Returned (Respond 400 NO_VALID_SKILLS_GRANTED)
              (* Validate that at least one authorization system is active *)
              else if negb (bool_decide (is_Some grantedSkills)) &&
                      negb (bool_decide (is_Some expandedScopes))
              then Returned (Respond 401 NO_VALID_PERMISSIONS_GRANTED)
              else
                (* Build complete ServerContext from OAuth props + verified constraints *)
                Returned (Serve
                  {| userId := props_id props;
                     clientId := Some (props_clientId props);
                     accessToken := props_accessToken props;
                     grantedScopes := expandedScopes;
                     grantedSkills := grantedSkills;
                     constraints := constraints;
                     sentryHost := Some sentryHost;
                     mcpUrl := MCP_URL;
                     openaiBaseUrl := None |} isAgentMode)
          end
      end
  end.

End fetch.

End McpHandler.

(** A request to the remote handler. *)
Module McpHandlerSamples.
Import Server McpHandler.

(** An access check that lets every request through. *)
Definition permissive
    (organizationSlug projectSlug : option string) (accessToken sentryHost : string)
    : Verification :=
  Verified {| organizationSlug := organizationSlug; projectSlug := projectSlug;
              regionUrl := None |}.

(** Props in which the provider granted one skill and one unknown name. *)
Definition granted : Props :=
  {| props_id := Some "1"; props_clientId := "test-client";
     props_accessToken := "test-token"; props_grantedScopes := None;
     props_grantedSkills := Some ["triage"; "unknown"] |}.

(** Props in which the provider granted no known skill, beside a scope. *)
Definition ungranted : Props :=
  {| props_id := Some "1"; props_clientId := "test-client";
     props_accessToken := "test-token"; props_grantedScopes := Some ["org:read"];
     props_grantedSkills := Some ["unknown"] |}.

(** An access check that refuses every request, without a status. *)
Definition forbidding
    (organizationSlug projectSlug : option string) (accessToken sentryHost : string)
    : Verification :=
  Refused "You do not have access to this organization" None.

End McpHandlerSamples.

(** * Properties *)

(** ** The repository's own tests, run on the embedding *)

Module RepositoryTests.
Import Permissions Skills Constants Run Cli.

(** [set.has(x)]. *)
Local Abbreviation has set x := (bool_decide (x ∈ set)).

Example parseScopes_separates :
  let parsed := parseScopes (Js.UString "org:read,bogus,event:write") in
  elements (Permissions.valid parsed) ≡ₚ [org_read; event_write] ∧
  Permissions.invalid parsed = ["bogus"].
Proof. split; [|by vm_compute]. vm_compute. apply perm_swap. Qed.

Example parseSkills_trims :
  let parsed := parseSkills (Js.UString " inspect , triage , docs ") in
  size (Skills.valid parsed) = 3 ∧ has (Skills.valid parsed) "inspect" = true ∧
  Skills.invalid parsed = [].
Proof. by vm_compute. Qed.

Example parseSkills_separates :
  Skills.invalid (parseSkills (Js.UString "inspect,invalid1,triage,invalid2"))
    = ["invalid1"; "invalid2"].
Proof. by vm_compute. Qed.

Example parseSkills_array :
  let parsed := parseSkills (Js.UArray [Some "inspect"; Some ""; Some "triage"]) in
  size (Skills.valid parsed) = 2 ∧ Skills.invalid parsed = [].
Proof. by vm_compute. Qed.

Example isValidSkill_cases :
  isValidSkill "inspect" = true ∧ isValidSkill "project-management" = true ∧
  isValidSkill "invalid" = false ∧ isValidSkill "" = false ∧
  isValidSkill "INSPECT" = false.
Proof. by vm_compute. Qed.

Example default_skills : DEFAULT_SKILLS = ["inspect"; "seer"].
Proof. by vm_compute. Qed.

Example hasRequiredSkills_any :
  hasRequiredSkills (Some {[ "inspect"; "docs" ]}) ["inspect"; "triage"] = true ∧
  hasRequiredSkills (Some {[ "inspect"; "docs" ]}) ["triage"; "project-management"] = false ∧
  hasRequiredSkills None ["inspect"] = false ∧
  hasRequiredSkills (Some {[ "inspect" ]}) [] = false.
Proof. by vm_compute. Qed.

Example finalize_without_token :
  outcome (finalize (H := refusing_url_utils) (args None None None None None))
    = Thrown NO_ACCESS_TOKEN.
Proof. reflexivity. Qed.

Example finalize_expands_scopes :
  match outcome (finalize (H := refusing_url_utils)
                   (args (Some "tok") (Some "event:write") None None None)) with
  | Returned cfg =>
      match finalScopes cfg with
      | Some granted => has granted event_write && has granted event_read
      | None => false
      end
  | Thrown _ => false
  end = true.
Proof. by vm_compute. Qed.

Example finalize_adds_to_defaults :
  match outcome (finalize (H := refusing_url_utils)
                   (args (Some "tok") None (Some "project:write") None None)) with
  | Returned cfg =>
      match finalScopes cfg with
      | Some granted => has granted project_write && has granted project_read
      | None => false
      end
  | Thrown _ => false
  end = true.
Proof. by vm_compute. Qed.

Example finalize_all_scopes :
  match outcome (finalize (H := refusing_url_utils)
                   (args (Some "tok") None None (Some true) None)) with
  | Returned cfg =>
      match finalScopes cfg with
      | Some granted =>
          bool_decide (size granted = length ALL_SCOPES) && has granted org_admin
      | None => false
      end
  | Thrown _ => false
  end = true.
Proof. by vm_compute. Qed.

Example finalize_invalid_scopes :
  outcome (finalize (H := refusing_url_utils) (args (Some "tok") (Some "foo") None None None))
    = Thrown (formatInvalid ["foo"] None).
Proof. by vm_compute. Qed.

Example finalize_overrides_skills :
  match outcome (finalize (H := refusing_url_utils)
                   (args (Some "tok") None None None (Some "inspect,triage"))) with
  | Returned cfg =>
      match finalSkills cfg with
      | Some granted =>
          bool_decide (size granted = 2) && has granted "inspect" &&
          has granted "triage" && negb (has granted "docs")
      | None => false
      end
  | Thrown _ => false
  end = true.
Proof. by vm_compute. Qed.

End RepositoryTests.

(** ** The scope hierarchy *)

Module PermissionsFacts.
Import Permissions.

Lemma elem_of_fold_add (l : list Scope) (acc : gset Scope) (x : Scope) :
  x ∈ foldr (λ s acc, {[ s ]} ∪ acc) acc l ↔ x ∈ l ∨ x ∈ acc.
Proof.
  induction l as [|s l IH]; simpl.
  - rewrite elem_of_nil. naive_solver.
  - rewrite elem_of_union, elem_of_singleton, IH, elem_of_cons. naive_solver.
Qed.

Lemma elem_of_set_fold_add (X acc : gset Scope) (x : Scope) :
  x ∈ set_fold (λ s acc, {[ s ]} ∪ acc) acc X ↔ x ∈ X ∨ x ∈ acc.
Proof.
  unfold set_fold; simpl. by rewrite elem_of_fold_add, elem_of_elements.
Qed.

(** What the two loops compute: the union of the implied sets. *)
Lemma elem_of_expandScopes (granted : gset Scope) (x : Scope) :
  x ∈ expandScopes granted ↔ ∃ g, g ∈ granted ∧ x ∈ SCOPE_HIERARCHY g.
Proof.
  unfold expandScopes, set_fold at 1; simpl.
  setoid_rewrite <- (elem_of_elements granted).
  generalize (elements granted) as l.
  induction l as [|g l IH]; simpl.
  - rewrite elem_of_empty. split; [done|]. intros (g & Hg & _). by apply elem_of_nil in Hg.
  - rewrite elem_of_set_fold_add, IH. setoid_rewrite elem_of_cons. naive_solver.
Qed.

Lemma hierarchy_reflexive (g : Scope) : g ∈ SCOPE_HIERARCHY g.
Proof. destruct g; simpl; set_solver. Qed.

Lemma hierarchy_transitive (g s t : Scope) :
  s ∈ SCOPE_HIERARCHY g → t ∈ SCOPE_HIERARCHY s → t ∈ SCOPE_HIERARCHY g.
Proof.
  destruct g; simpl; rewrite ?elem_of_union, ?elem_of_singleton;
    intros Hs; destruct_or?; subst s; simpl; set_solver.
Qed.

Lemma expandScopes_extensive (granted : gset Scope) : granted ⊆ expandScopes granted.
Proof.
  intros g Hg. apply elem_of_expandScopes. eauto using hierarchy_reflexive.
Qed.

Lemma expandScopes_monotone (g1 g2 : gset Scope) :
  g1 ⊆ g2 → expandScopes g1 ⊆ expandScopes g2.
Proof.
  intros Hsub x. rewrite !elem_of_expandScopes. intros (g & Hg & Hx). eauto.
Qed.

Lemma expandScopes_singleton (g : Scope) : expandScopes {[ g ]} = SCOPE_HIERARCHY g.
Proof.
  apply set_eq. intros x. rewrite elem_of_expandScopes.
  setoid_rewrite elem_of_singleton. naive_solver.
Qed.

(** C9.  Expanding twice is expanding once; the expansion of a scope
    contains the scope; and on each hierarchical resource the expansion of
    [admin] contains that of [write], which contains that of [read]. *)
Theorem expandScopes_idempotent_and_ordered :
  (∀ S : gset Scope, expandScopes (expandScopes S) = expandScopes S) ∧
  (∀ s : Scope, s ∈ expandScopes {[ s ]}) ∧
  (∀ r : Resource,
     expandScopes {[ scope_of r read ]} ⊆ expandScopes {[ scope_of r write ]} ∧
     expandScopes {[ scope_of r write ]} ⊆ expandScopes {[ scope_of r admin ]}).
Proof.
  split; [|split].
  - intros S. apply set_eq. intros x. split.
    + rewrite elem_of_expandScopes. intros (s & Hs & Hx).
      apply elem_of_expandScopes in Hs as (g & Hg & Hs).
      apply elem_of_expandScopes. eauto using hierarchy_transitive.
    + apply expandScopes_extensive.
  - intros s. apply expandScopes_extensive. by apply elem_of_singleton.
  - intros r. rewrite !expandScopes_singleton. destruct r; simpl; set_solver.
Qed.

Lemma hasRequiredScopes_spec (granted : gset Scope) (required : list Scope) :
  hasRequiredScopes granted required = true ↔
  ∀ scope, scope ∈ required → scope ∈ expandScopes granted.
Proof.
  unfold hasRequiredScopes. rewrite forallb_forall.
  setoid_rewrite <- list_elem_of_In. setoid_rewrite bool_decide_eq_true. done.
Qed.

Lemma isToolAllowed_spec (required : option (list Scope)) (granted : gset Scope) :
  isToolAllowed required granted = true ↔
  ∀ scope, scope ∈ default [] required → scope ∈ expandScopes granted.
Proof.
  destruct required as [[|s l]|].
  - split; [|done]. intros _ scope Hin. by apply elem_of_nil in Hin.
  - apply (hasRequiredScopes_spec granted (s :: l)).
  - split; [|done]. intros _ scope Hin. by apply elem_of_nil in Hin.
Qed.

End PermissionsFacts.

(** ** The tool gate and the constraint injection *)

Module ServerFacts.
Import Permissions Skills Run Server PermissionsFacts.

Lemma hasRequiredSkills_spec (S : gset Skill) (required : list Skill) :
  hasRequiredSkills (Some S) required = true ↔
  required ≠ [] ∧ ∃ skill, skill ∈ required ∧ skill ∈ S.
Proof.
  unfold hasRequiredSkills. destruct required as [|r required].
  - simpl. split; [done | by intros [? _]].
  - rewrite bool_decide_eq_false_2 by done.
    rewrite existsb_exists. setoid_rewrite <- list_elem_of_In.
    setoid_rewrite bool_decide_eq_true. naive_solver.
Qed.

Lemma NoDup_fmap_eq {A B} (f : A → B) (l : list A) (x y : A) :
  NoDup (f <$> l) → x ∈ l → y ∈ l → f x = f y → x = y.
Proof.
  induction l as [|z l IH]; [by intros _ ?%elem_of_nil|].
  cbn [fmap list_fmap]. rewrite NoDup_cons, !elem_of_cons.
  intros [Hz Hl] [->|Hx] [->|Hy] Heq; [done| | |by apply IH].
  - destruct Hz. rewrite Heq. by apply list_elem_of_fmap_2.
  - destruct Hz. rewrite <- Heq. by apply list_elem_of_fmap_2.
Qed.

Lemma filter_sublist {A} (keep : A → bool) (l : list A) : List.filter keep l `sublist_of` l.
Proof.
  induction l as [|x l IH]; [done|]. cbn [List.filter].
  destruct (keep x); [by apply sublist_skip | by apply sublist_cons].
Qed.

Section gate.
Context `{Helpers}.

(** The tools of a catalog that the gate lets through, in catalog order. *)
Lemma configureServer_append server context (tools tools' : list (string * ToolConfig)) :
  configureServer server context (tools ++ tools') =
  match configureServer server context tools with
  | Returned server' => configureServer server' context tools'
  | Thrown error => Thrown error
  end.
Proof.
  revert server. induction tools as [|[key tool] tools IH]; intros server; [done|].
  cbn [app configureServer]. destruct (allowed context tool); cbn [negb]; [|apply IH].
  destruct (server_tool server (toolRegistration context tool)); [apply IH | done].
Qed.

(** The loop returns exactly when every tool the gate lets through brings
    a name the server does not hold yet; it has then added their
    registrations in catalog order. *)
Lemma configureServer_returns server context (tools : list (string * ToolConfig)) server' :
  configureServer server context tools = Returned server' ↔
  server' = (server ++ (toolRegistration context <$> List.filter (allowed context) tools.*2))%list ∧
  NoDup (name <$> List.filter (allowed context) tools.*2) ∧
  ∀ tool, tool ∈ List.filter (allowed context) tools.*2 → name tool ∉ reg_name <$> server.
Proof.
  revert server. induction tools as [|[key tool] tools IH]; intros server.
  - cbn. rewrite app_nil_r. split.
    + intros [= <-]. split_and!; [done | constructor | by intros ? ?%elem_of_nil].
    + by intros (-> & _).
  - cbn [configureServer fmap list_fmap snd List.filter].
    destruct (allowed context tool) eqn:Hallowed; cbn [negb]; [|apply IH].
    unfold server_tool. cbn [fmap list_fmap].
    case_bool_decide as Hheld.
    + split; [done|]. intros (_ & _ & Hfresh). destruct (Hfresh tool); [left | done].
    + rewrite IH. cbn [reg_name toolRegistration]. rewrite <- app_assoc.
      rewrite NoDup_cons, fmap_app. split.
      * intros (-> & Hnodup & Hfresh). split_and!; [done | | done |].
        { intros Hin%list_elem_of_fmap. destruct Hin as (tool' & Heq & Hin).
          apply (Hfresh tool' Hin). rewrite elem_of_app. right. rewrite <- Heq. left. }
        intros tool' [->|Hin]%elem_of_cons; [done|].
        intros Hheld'. apply (Hfresh tool' Hin). rewrite elem_of_app. by left.
      * intros (-> & [Hnew Hnodup] & Hfresh). split_and!; [done..|].
        intros tool' Hin.
        change (reg_name <$> [toolRegistration context tool]) with [name tool].
        rewrite elem_of_app, list_elem_of_singleton. intros [Hheld'|Heq].
        { apply (Hfresh tool'); [by right | done]. }
        apply Hnew. rewrite <- Heq. by apply list_elem_of_fmap_2.
Qed.

(** Two contexts whose gates agree register the same names, or stop
    at the same name. *)
Lemma configureServer_names_agree server server' context context'
    (tools : list (string * ToolConfig)) :
  reg_name <$> server = reg_name <$> server' →
  (∀ tool, allowed context tool = allowed context' tool) →
  registered_names (configureServer server context tools) =
  registered_names (configureServer server' context' tools).
Proof.
  intros Hnames Hgate. revert server server' Hnames.
  induction tools as [|[key tool] tools IH]; intros server server' Hnames.
  - cbn. by rewrite Hnames.
  - cbn [configureServer]. rewrite <- (Hgate tool).
    destruct (allowed context tool); cbn [negb]; [|by apply IH].
    unfold server_tool. rewrite <- Hnames. cbn [reg_name toolRegistration].
    case_bool_decide; [done|]. apply IH. by rewrite !fmap_app, Hnames.
Qed.

(** When the loop throws, it is on the name of a tool the gate let
    through. *)
Lemma configureServer_throws server context (tools : list (string * ToolConfig)) error :
  configureServer server context tools = Thrown error →
  ∃ tool, tool ∈ List.filter (allowed context) tools.*2 ∧
          error = "Tool " +:+ name tool +:+ " is already registered".
Proof.
  revert server. induction tools as [|[key tool] tools IH]; intros server; [done|].
  cbn [configureServer fmap list_fmap snd List.filter].
  destruct (allowed context tool); cbn [negb]; [|apply IH].
  unfold server_tool. case_bool_decide.
  - intros [= <-]. exists tool. split; [left | done].
  - intros (tool' & Hin & ->)%IH. exists tool'. split; [by right | done].
Qed.

(** A catalog of distinctly named tools is always registered: each of
    its tools is on the server exactly when the gate lets it through. *)
Lemma buildServer_catalog context (tools : list (string * ToolConfig)) :
  NoDup (name <$> tools.*2) →
  ∃ server,
    buildServer context tools = Returned server ∧
    reg_name <$> server = name <$> List.filter (allowed context) tools.*2 ∧
    ∀ tool, tool ∈ tools.*2 →
      (name tool ∈ reg_name <$> server ↔ allowed context tool = true).
Proof.
  intros Hnodup. eexists. split_and!.
  - apply configureServer_returns. split_and!; [reflexivity | |].
    + eapply sublist_NoDup; [exact Hnodup|]. apply fmap_sublist, filter_sublist.
    + intros tool _ Hin. by apply elem_of_nil in Hin.
  - cbn [app]. rewrite <- list_fmap_compose. done.
  - intros tool Htool. cbn [app]. rewrite <- list_fmap_compose.
    change (reg_name ∘ toolRegistration context) with name. split.
    + intros (tool' & Heq & Hin)%list_elem_of_fmap.
      apply list_elem_of_In, filter_In in Hin as [Hin%list_elem_of_In Hallowed].
      by rewrite (NoDup_fmap_eq name _ tool tool' Hnodup Htool Hin Heq).
    + intros Hallowed. apply list_elem_of_fmap_2, list_elem_of_In, filter_In.
      by rewrite <- list_elem_of_In.
Qed.

Lemma exposed_allowed context tool :
  exposed context tool ↔ allowed context tool = true.
Proof.
  unfold exposed, buildServer. cbn [configureServer].
  destruct (allowed context tool); cbn [negb].
  - split; [done|]. intros _. by eexists.
  - split; [|done]. by intros (server & [= <-] & ?).
Qed.

Lemma allowed_skills_mode context tool (S : gset Skill) :
  grantedSkills context = Some S →
  allowed context tool = true ↔
  ∃ required, requiredSkills tool = Some required ∧ required ≠ [] ∧
              ∃ skill, skill ∈ required ∧ skill ∈ S.
Proof.
  intros HS. unfold allowed. rewrite HS.
  destruct (requiredSkills tool) as [[|r required]|].
  - split; [done|]. intros (? & [= <-] & Hne & _). by destruct Hne.
  - rewrite hasRequiredSkills_spec. split.
    + intros Hany. by exists (r :: required).
    + by intros (? & [= <-] & Hany).
  - split; [done|]. by intros (? & ? & _).
Qed.

(** C2.  Under a skills grant [S] the server built from a catalog of
    distinctly named tools holds a tool of the catalog exactly when the
    tool's [requiredSkills] is non-empty and has a skill in [S], wherever
    the tool stands in the catalog; no grant satisfies an empty
    requirement, so a tool with [requiredSkills = []] is not on the
    server.  The same holds of a tool on its own. *)
Theorem skills_mode_any_of context (tools : list (string * ToolConfig)) (S : gset Skill) :
  grantedSkills context = Some S →
  NoDup (name <$> tools.*2) →
  (∃ server,
     buildServer context tools = Returned server ∧
     ∀ tool, tool ∈ tools.*2 →
       (name tool ∈ reg_name <$> server ↔
          ∃ required, requiredSkills tool = Some required ∧ required ≠ [] ∧
                      ∃ skill, skill ∈ required ∧ skill ∈ S) ∧
       (requiredSkills tool = Some [] → name tool ∉ reg_name <$> server)) ∧
  (∀ tool,
     (exposed context tool ↔
        ∃ required, requiredSkills tool = Some required ∧ required ≠ [] ∧
                    ∃ skill, skill ∈ required ∧ skill ∈ S) ∧
     (requiredSkills tool = Some [] → ¬ exposed context tool)) ∧
  (∀ S' : gset Skill, hasRequiredSkills (Some S') [] = false).
Proof.
  intros HS Hnodup. split; [|split].
  - destruct (buildServer_catalog context tools Hnodup) as (server & Hbuilt & _ & Hiff).
    exists server. split; [done|]. intros tool Htool.
    rewrite (Hiff tool Htool), (allowed_skills_mode _ _ S HS). split; [done|].
    intros Hempty (required & Hreq & Hne & _). congruence.
  - intros tool. rewrite exposed_allowed, (allowed_skills_mode _ _ S HS). split; [done|].
    intros Hempty (required & Hreq & Hne & _). congruence.
  - done.
Qed.

(** C3.  With no skills granted and scopes [S] granted, the server built
    from a catalog of distinctly named tools holds a tool of the catalog
    exactly when the expansion of [S] has each of the tool's
    [requiredScopes]; a tool whose [requiredScopes] is empty or missing is
    therefore on it; with neither grant the server holds no tool.  The
    same holds of a tool on its own. *)
Theorem scopes_mode_all_of context (tools : list (string * ToolConfig)) :
  grantedSkills context = None →
  NoDup (name <$> tools.*2) →
  (∃ server,
     buildServer context tools = Returned server ∧
     (∀ S : gset Scope, grantedScopes context = Some S →
        ∀ tool, tool ∈ tools.*2 →
          (name tool ∈ reg_name <$> server ↔
             ∀ scope, scope ∈ default [] (requiredScopes tool) → scope ∈ expandScopes S) ∧
          (requiredScopes tool = Some [] ∨ requiredScopes tool = None →
             name tool ∈ reg_name <$> server)) ∧
     (grantedScopes context = None → server = [])) ∧
  (∀ tool,
     (∀ S : gset Scope, grantedScopes context = Some S →
        (exposed context tool ↔
           ∀ scope, scope ∈ default [] (requiredScopes tool) → scope ∈ expandScopes S) ∧
        (requiredScopes tool = Some [] ∨ requiredScopes tool = None →
           exposed context tool)) ∧
     (grantedScopes context = None → ¬ exposed context tool)).
Proof.
  intros Hskills Hnodup.
  assert (∀ S tool, grantedScopes context = Some S →
            allowed context tool = true ↔
            ∀ scope, scope ∈ default [] (requiredScopes tool) → scope ∈ expandScopes S)
    as Hgate.
  { intros S tool Hscopes. unfold allowed. rewrite Hskills, Hscopes.
    apply isToolAllowed_spec. }
  assert (∀ tool, grantedScopes context = None → allowed context tool = false) as Hnone.
  { intros tool Hscopes. unfold allowed. by rewrite Hskills, Hscopes. }
  assert (∀ S tool, requiredScopes tool = Some [] ∨ requiredScopes tool = None →
            ∀ scope, scope ∈ default [] (requiredScopes tool) → scope ∈ expandScopes S)
    as Hvacuous.
  { intros S tool [-> | ->] scope; simpl; by rewrite elem_of_nil. }
  split.
  - destruct (buildServer_catalog context tools Hnodup) as (server & Hbuilt & Hnames & Hiff).
    exists server. split_and!; [done | |].
    + intros S Hscopes tool Htool. rewrite (Hiff tool Htool), (Hgate S tool Hscopes).
      split; [done|]. apply Hvacuous.
    + intros Hscopes. apply fmap_nil_inv with (f := reg_name). rewrite Hnames.
      assert (∀ l, List.filter (allowed context) l = []) as ->; [|done].
      intros l. induction l as [|tool rest IH]; [done|].
      cbn [List.filter]. by rewrite (Hnone tool Hscopes).
  - intros tool. split.
    + intros S Hscopes. rewrite exposed_allowed, (Hgate S tool Hscopes).
      split; [done|]. apply Hvacuous.
    + intros Hscopes. rewrite exposed_allowed. by rewrite (Hnone tool Hscopes).
Qed.

(** C10.  When [grantedSkills] is present the gate does not depend on
    [grantedScopes]; when it is present and empty the server registers
    no tool, whatever the catalog, the granted scopes and the tools'
    [requiredScopes] are. *)
Theorem empty_skills_grant_registers_nothing context :
  (∀ S : gset Skill, grantedSkills context = Some S →
     ∀ g tool, allowed (with_grantedScopes g context) tool = allowed context tool) ∧
  (grantedSkills context = Some ∅ →
     ∀ tools, buildServer context tools = Returned [] ∧
     ∀ g, buildServer (with_grantedScopes g context) tools = Returned []).
Proof.
  split.
  - intros S HS g tool. unfold allowed. simpl. by rewrite HS.
  - intros Hempty.
    assert (∀ c tool, grantedSkills c = Some ∅ → allowed c tool = false) as Hno.
    { intros c tool Hc. apply not_true_is_false.
      rewrite (allowed_skills_mode c tool ∅ Hc).
      intros (? & _ & _ & skill & _ & Hin). by apply elem_of_empty in Hin. }
    assert (∀ c tools, grantedSkills c = Some ∅ → buildServer c tools = Returned []) as Hnil.
    { intros c tools Hc. unfold buildServer.
      induction tools as [|[key tool] tools IH]; [done|].
      cbn [configureServer]. by rewrite (Hno c tool Hc). }
    intros tools. split; [by apply Hnil|]. intros g. by apply Hnil.
Qed.


End gate.

Import Samples.

(** The triage tool stands behind the mock tool, whose [requiredSkills]
    is empty: under the grant {triage} the server holds the one and not
    the other. *)
Lemma skills_mode_any_of_witness :
  ∃ server,
    buildServer (H := spec_helpers) (context (Some {[ "triage" ]}) None None)
      [("mock_tool", mockTool); ("update_issue", triageTool)] = Returned server ∧
    "update_issue" ∈ reg_name <$> server ∧
    ("mock_tool" ∉ reg_name <$> server).
Proof.
  destruct (skills_mode_any_of (H := spec_helpers)
              (context (Some {[ "triage" ]}) None None)
              [("mock_tool", mockTool); ("update_issue", triageTool)] {[ "triage" ]} eq_refl)
    as ((server & Hbuilt & Hiff) & _).
  { apply (bool_decide_unpack _). reflexivity. }
  exists server. split; [exact Hbuilt|]. split.
  - destruct (Hiff triageTool) as (Hregistered & _);
      [apply list_elem_of_further, list_elem_of_here|].
    apply Hregistered. exists ["triage"]. split_and!; [done..|].
    exists "triage". split; [by apply list_elem_of_singleton | by apply elem_of_singleton].
  - destruct (Hiff mockTool) as (_ & Hempty); [apply list_elem_of_here|].
    by apply Hempty.
Defined.

(** The triage tool requires [event:write] and stands behind the mock
    tool, whose [requiredScopes] is empty.  Under the grant
    {event:admin} the server holds both, the triage tool through the
    expansion; under {event:read} it holds the mock tool alone; under no
    grant it holds nothing. *)
Lemma scopes_mode_all_of_witness :
  (∃ server,
     buildServer (H := spec_helpers) (context None (Some {[ event_admin ]}) None)
       [("mock_tool", mockTool); ("update_issue", triageTool)] = Returned server ∧
     "update_issue" ∈ reg_name <$> server ∧ "mock_tool" ∈ reg_name <$> server) ∧
  (∃ server,
     buildServer (H := spec_helpers) (context None (Some {[ event_read ]}) None)
       [("mock_tool", mockTool); ("update_issue", triageTool)] = Returned server ∧
     ("update_issue" ∉ reg_name <$> server) ∧ "mock_tool" ∈ reg_name <$> server) ∧
  buildServer (H := spec_helpers) (context None None None)
    [("mock_tool", mockTool); ("update_issue", triageTool)] = Returned [].
Proof.
  assert (NoDup (name <$> [("mock_tool", mockTool); ("update_issue", triageTool)].*2))
    as Hnodup by (apply (bool_decide_unpack _); reflexivity).
  split_and!.
  - destruct (scopes_mode_all_of (H := spec_helpers)
                (context None (Some {[ event_admin ]}) None)
                [("mock_tool", mockTool); ("update_issue", triageTool)] eq_refl Hnodup)
      as ((server & Hbuilt & Hscopes & _) & _).
    exists server. split; [exact Hbuilt|]. split.
    + destruct (Hscopes {[ event_admin ]} eq_refl triageTool) as (Hiff & _);
        [apply list_elem_of_further, list_elem_of_here|].
      apply Hiff. intros scope ->%list_elem_of_singleton.
      apply elem_of_expandScopes. exists event_admin.
      split; [by apply elem_of_singleton | simpl; set_solver].
    + destruct (Hscopes {[ event_admin ]} eq_refl mockTool) as (_ & Hvacuous);
        [apply list_elem_of_here|].
      apply Hvacuous. by left.
  - destruct (scopes_mode_all_of (H := spec_helpers)
                (context None (Some {[ event_read ]}) None)
                [("mock_tool", mockTool); ("update_issue", triageTool)] eq_refl Hnodup)
      as ((server & Hbuilt & Hscopes & _) & _).
    exists server. split; [exact Hbuilt|]. split.
    + destruct (Hscopes {[ event_read ]} eq_refl triageTool) as (Hiff & _);
        [apply list_elem_of_further, list_elem_of_here|].
      intros Hheld. destruct Hiff as [Hrequired _].
      specialize (Hrequired Hheld event_write (list_elem_of_here _ _)) as Hheld'.
      apply elem_of_expandScopes in Hheld' as (g & ->%elem_of_singleton & Hin).
      simpl in Hin. set_solver.
    + destruct (Hscopes {[ event_read ]} eq_refl mockTool) as (_ & Hvacuous);
        [apply list_elem_of_here|].
      apply Hvacuous. by left.
  - destruct (scopes_mode_all_of (H := spec_helpers) (context None None None)
                [("mock_tool", mockTool); ("update_issue", triageTool)] eq_refl Hnodup)
      as ((server & Hbuilt & _ & Hnone) & _).
    by rewrite Hbuilt, (Hnone eq_refl).
Defined.

(** An empty skills grant beside a grant of every scope. *)
Lemma empty_skills_grant_registers_nothing_witness :
  buildServer (H := spec_helpers)
    (context (Some ∅) (Some (list_to_set ALL_SCOPES)) None)
    [("mock_tool", mockTool); ("update_issue", triageTool)] = Returned [].
Proof.
  destruct (empty_skills_grant_registers_nothing (H := spec_helpers)
              (context (Some ∅) (Some (list_to_set ALL_SCOPES)) None)) as (_ & Hempty).
  by destruct (Hempty eq_refl [("mock_tool", mockTool); ("update_issue", triageTool)]).
Defined.




End ServerFacts.

(** ** Strings *)

Module JsFacts.

Lemma app_cons (a : ascii) (s t : string) : String a s +:+ t = String a (s +:+ t).
Proof. reflexivity. Qed.

Lemma app_nil_l (s : string) : "" +:+ s = s.
Proof. reflexivity. Qed.

Lemma app_nil_r (s : string) : s +:+ "" = s.
Proof. induction s as [|a s IH]; [done|]. by rewrite app_cons, IH. Qed.

Lemma app_assoc (s t u : string) : (s +:+ t) +:+ u = s +:+ (t +:+ u).
Proof. induction s as [|a s IH]; [done|]. by rewrite !app_cons, IH. Qed.

Lemma occurs_in_refl (t : string) : Js.occurs_in t t.
Proof. exists "", "". by rewrite app_nil_l, app_nil_r. Qed.

Lemma occurs_in_app_l (t s u : string) : Js.occurs_in t s → Js.occurs_in t (s +:+ u).
Proof.
  intros (pre & post & ->). exists pre, (post +:+ u). by rewrite !app_assoc.
Qed.

Lemma occurs_in_app_r (t s u : string) : Js.occurs_in t s → Js.occurs_in t (u +:+ s).
Proof.
  intros (pre & post & ->). exists (u +:+ pre), post. by rewrite !app_assoc.
Qed.

(** Every element of a list occurs in its [join]. *)
Lemma occurs_in_join (sep t : string) (l : list string) :
  t ∈ l → Js.occurs_in t (Js.join sep l).
Proof.
  induction l as [|x l IH]; intros Hin; [by apply elem_of_nil in Hin|].
  apply elem_of_cons in Hin. destruct l as [|y l].
  - destruct Hin as [->|Hin]; [apply occurs_in_refl | by apply elem_of_nil in Hin].
  - change (Js.join sep (x :: y :: l)) with (x +:+ sep +:+ Js.join sep (y :: l)).
    destruct Hin as [->|Hin].
    + apply occurs_in_app_l, occurs_in_refl.
    + by apply occurs_in_app_r, occurs_in_app_r, IH.
Qed.

Lemma truthy_Some (o : option string) :
  Js.truthy o = true ↔ ∃ s, o = Some s ∧ s ≠ "".
Proof.
  destruct o as [s|]; simpl.
  - rewrite negb_true_iff, bool_decide_eq_false. naive_solver.
  - naive_solver.
Qed.


(** [trim] strips the white space of Unicode at both ends, and only
    there: a no-break space (C2 A0), a byte order mark (EF BB BF) and a
    line separator (E2 80 A8) go, an inner space and a letter whose
    encoding starts like that of a space (E2 80 94, the em dash) stay. *)
Example trim_unicode_space :
  let nbsp := String "194" (String "160" "") in
  let bom := String "239" (String "187" (String "191" "")) in
  let ls := String "226" (String "128" (String "168" "")) in
  let dash := String "226" (String "128" (String "148" "")) in
  Js.trim (nbsp +:+ " org:read" +:+ nbsp +:+ bom +:+ ls) = "org:read" ∧
  Js.trim (ls +:+ dash +:+ "a b" +:+ dash +:+ " ") = dash +:+ "a b" +:+ dash ∧
  Js.trim (nbsp +:+ bom) = "" ∧
  Js.trimStart (nbsp +:+ "x" +:+ nbsp) = "x" +:+ nbsp.
Proof. by vm_compute. Qed.

End JsFacts.

(** ** Tokens: splitting, joining and parsing back *)

Module TokenFacts.
Import Permissions Skills Tokens.

Lemma split_free (sep : ascii) (s : string) :
  free_of sep s → Js.split sep s = [s].
Proof.
  induction s as [|a s IH]; [done|]. intros [Ha Hs]. simpl.
  rewrite bool_decide_eq_false_2 by done. by rewrite (IH Hs).
Qed.

Lemma split_app_sep (sep : ascii) (s t : string) :
  free_of sep s →
  Js.split sep (s +:+ String sep t) = s :: Js.split sep t.
Proof.
  induction s as [|a s IH]; intros Hs.
  - simpl. by rewrite bool_decide_eq_true_2.
  - destruct Hs as [Ha Hs]. rewrite JsFacts.app_cons. simpl.
    rewrite bool_decide_eq_false_2 by done. by rewrite (IH Hs).
Qed.

(** Splitting undoes joining, as long as no element holds the separator
    and there is an element at all. *)
Lemma split_join (sep : ascii) (l : list string) :
  l ≠ [] → Forall (free_of sep) l →
  Js.split sep (Js.join (String sep "") l) = l.
Proof.
  induction l as [|x l IH]; [done|]. intros _ Hall.
  apply Forall_cons in Hall as [Hx Hl]. destruct l as [|y l].
  - simpl. by apply split_free.
  - change (Js.join (String sep "") (x :: y :: l))
      with (x +:+ String sep "" +:+ Js.join (String sep "") (y :: l)).
    change (String sep "" +:+ ?t) with (String sep t).
    rewrite (split_app_sep _ _ _ Hx). by rewrite IH.
Qed.

(** *** Scopes *)

Lemma ALL_SCOPES_complete (s : Scope) : s ∈ ALL_SCOPES.
Proof. exact (elem_of_enum s). Qed.

Lemma lookup_scope_name (s : Scope) : lookup_scope (scope_name s) = Some s.
Proof. by destruct s. Qed.

Lemma lookup_scope_Some (raw : string) (s : Scope) :
  lookup_scope raw = Some s ↔ scope_name s = raw.
Proof.
  split.
  - intros [_ Hname%bool_decide_eq_true]%List.find_some. done.
  - intros <-. apply lookup_scope_name.
Qed.

Lemma lookup_scope_None (raw : string) :
  lookup_scope raw = None ↔ raw ∉ scope_name <$> ALL_SCOPES.
Proof.
  split.
  - intros Hnone (s & -> & _)%list_elem_of_fmap. by rewrite lookup_scope_name in Hnone.
  - intros Hnot. destruct (lookup_scope raw) as [s|] eqn:Hs; [|done].
    apply lookup_scope_Some in Hs as <-. destruct Hnot.
    apply list_elem_of_fmap. exists s. split; [done|]. apply ALL_SCOPES_complete.
Qed.

Lemma classify_scopes (raws : list string) (acc : ParsedScopes) :
  Permissions.invalid (Permissions.classify raws acc) =
    (Permissions.invalid acc ++
     List.filter (λ t, bool_decide (t ∉ scope_name <$> ALL_SCOPES)) raws)%list ∧
  ∀ s, s ∈ Permissions.valid (Permissions.classify raws acc) ↔
       s ∈ Permissions.valid acc ∨ scope_name s ∈ raws.
Proof.
  revert acc. induction raws as [|raw raws IH]; intros acc.
  - simpl. rewrite app_nil_r. split; [done|]. intros s. rewrite elem_of_nil. naive_solver.
  - cbn [Permissions.classify List.filter].
    destruct (lookup_scope raw) as [s0|] eqn:Hraw.
    + destruct (IH {| Permissions.valid := {[ s0 ]} ∪ Permissions.valid acc;
                      Permissions.invalid := Permissions.invalid acc |}) as [-> Hvalid].
      apply lookup_scope_Some in Hraw as <-.
      rewrite bool_decide_eq_false_2.
      2: { intros Hnot. apply Hnot, list_elem_of_fmap. exists s0.
           split; [done | apply ALL_SCOPES_complete]. }
      split; [done|]. intros s. rewrite Hvalid. simpl.
      rewrite elem_of_union, elem_of_singleton, elem_of_cons.
      split; [naive_solver|]. intros [?|[Heq|?]]; [naive_solver| |naive_solver].
      left. left.
      destruct s, s0; simpl in Heq; (done || discriminate Heq).
    + destruct (IH {| Permissions.valid := Permissions.valid acc;
                      Permissions.invalid := (Permissions.invalid acc ++ [raw])%list |})
        as [-> Hvalid].
      apply lookup_scope_None in Hraw.
      rewrite bool_decide_eq_true_2 by done.
      split; [simpl; by rewrite <- app_assoc|]. intros s. rewrite Hvalid. simpl.
      rewrite elem_of_cons. split; [naive_solver|]. intros [?|[Heq|?]]; [naive_solver| |naive_solver].
      destruct Hraw. rewrite <- Heq. apply list_elem_of_fmap.
      exists s. split; [done | apply ALL_SCOPES_complete].
Qed.

(** X1.  [parseScopes] sorts the trimmed, non-empty tokens in two: the set of
    the scopes they name, and the list of those that name none, in the
    order and as often as they were given.  A token names a scope only by
    exact match. *)
Theorem parseScopes_partition (input : Js.Unknown) :
  let tokens :=
    List.filter (λ t, negb (bool_decide (t = ""))) (Js.trim <$> tokens_of input) in
  Permissions.invalid (parseScopes input) =
    List.filter (λ t, bool_decide (t ∉ scope_name <$> ALL_SCOPES)) tokens ∧
  (∀ s, s ∈ Permissions.valid (parseScopes input) ↔ scope_name s ∈ tokens) ∧
  (∀ t, t ∈ Permissions.invalid (parseScopes input) → t ≠ "" ∧ ∀ s, scope_name s ≠ t).
Proof.
  intros tokens. unfold parseScopes. fold tokens.
  destruct (classify_scopes tokens {| Permissions.valid := ∅; Permissions.invalid := [] |})
    as [Hinvalid Hvalid].
  split_and!.
  - by rewrite Hinvalid.
  - intros s. rewrite Hvalid. simpl. rewrite elem_of_empty. naive_solver.
  - intros t Ht. rewrite Hinvalid in Ht. cbn [Permissions.invalid app] in Ht.
    apply list_elem_of_In, filter_In in Ht as [Htok Hnot%bool_decide_eq_true].
    apply filter_In in Htok as [_ Hne%negb_true_iff%bool_decide_eq_false].
    split; [done|]. intros s <-. apply Hnot, list_elem_of_fmap. exists s.
    split; [done | apply ALL_SCOPES_complete].
Qed.

(** A scope between two no-break spaces, a token that names no scope,
    an empty token and a second scope. *)
Lemma parseScopes_partition_witness :
  let nbsp := String "194" (String "160" "") in
  let parsed :=
    parseScopes (Js.UString (nbsp +:+ "org:read" +:+ nbsp +:+ ", bogus ,,event:read")) in
  Permissions.invalid parsed = ["bogus"] ∧
  org_read ∈ Permissions.valid parsed ∧ event_read ∈ Permissions.valid parsed.
Proof.
  intros nbsp parsed. subst parsed.
  destruct (parseScopes_partition
              (Js.UString (nbsp +:+ "org:read" +:+ nbsp +:+ ", bogus ,,event:read")))
    as (Hinvalid & Hvalid & _).
  assert (List.filter (λ t, negb (bool_decide (t = "")))
            (Js.trim <$> tokens_of
               (Js.UString (nbsp +:+ "org:read" +:+ nbsp +:+ ", bogus ,,event:read")))
          = ["org:read"; "bogus"; "event:read"]) as Htokens by by vm_compute.
  rewrite Htokens in Hinvalid, Hvalid. split_and!.
  - rewrite Hinvalid. by vm_compute.
  - apply Hvalid. apply list_elem_of_here.
  - apply Hvalid. do 2 apply list_elem_of_further. apply list_elem_of_here.
Defined.

Lemma scope_names_plain (l : list Scope) :
  Forall (free_of ",") (scope_name <$> l) ∧
  Js.trim <$> (scope_name <$> l) = scope_name <$> l ∧
  List.filter (λ t, negb (bool_decide (t = ""))) (scope_name <$> l) = scope_name <$> l.
Proof.
  induction l as [|s l (IH1 & IH2 & IH3)]; [done|]. split_and!.
  - apply Forall_cons. split; [|done]. destruct s; simpl; by repeat split.
  - cbn [fmap list_fmap]. f_equal; [|exact IH2]. by destruct s.
  - cbn [fmap list_fmap List.filter].
    replace (negb (bool_decide (scope_name s = ""))) with true by by destruct s.
    f_equal. exact IH3.
Qed.

(** X2.  Writing scopes as a comma-separated list and parsing the list gives
    the scopes back, with nothing invalid. *)
Theorem parseScopes_join_names (l : list Scope) :
  let parsed := parseScopes (Js.UString (Js.join "," (scope_name <$> l))) in
  Permissions.valid parsed = list_to_set l ∧ Permissions.invalid parsed = [].
Proof.
  intros parsed.
  assert (List.filter (λ t, negb (bool_decide (t = "")))
            (Js.trim <$> tokens_of (Js.UString (Js.join "," (scope_name <$> l))))
          = scope_name <$> l) as Htokens.
  { destruct (scope_names_plain l) as (Hfree & Htrim & Hfilter).
    destruct l as [|s l]; [done|].
    cbn [tokens_of]. rewrite (split_join "," (scope_name <$> s :: l)); [|done|done].
    by rewrite Htrim, Hfilter. }
  subst parsed. unfold parseScopes. rewrite Htokens.
  destruct (classify_scopes (scope_name <$> l)
              {| Permissions.valid := ∅; Permissions.invalid := [] |}) as [Hinvalid Hvalid].
  cbn [Permissions.valid Permissions.invalid app] in Hinvalid, Hvalid. split.
  - apply set_eq. intros s. rewrite Hvalid, elem_of_list_to_set, list_elem_of_fmap.
    rewrite elem_of_empty.
    split; [|intros ?; right; by exists s]. intros [[]|(s' & Heq & Hin)].
    replace s with s'; [done|]. destruct s, s'; simpl in Heq; (done || discriminate Heq).
  - rewrite Hinvalid. clear. induction l as [|s l IH]; [done|].
    cbn [fmap list_fmap List.filter]. rewrite bool_decide_eq_false_2; [exact IH|].
    intros Hnot. apply Hnot, list_elem_of_fmap. exists s. split; [done | apply ALL_SCOPES_complete].
Qed.

End TokenFacts.

(** ** Skills: parsing, matching, and the scopes behind a grant *)

Module SkillFacts.
Import Permissions Skills Constants Run Server SkillScopes PermissionsFacts.

Lemma classify_skills (tokens : list string) (acc : ParsedSkills) :
  Skills.invalid (Skills.classify tokens acc) =
    (Skills.invalid acc ++
     List.filter (λ t, negb (isValidSkill t) && negb (bool_decide (t = "")))
                 (Js.trim <$> tokens))%list ∧
  ∀ s, s ∈ Skills.valid (Skills.classify tokens acc) ↔
       s ∈ Skills.valid acc ∨ (s ∈ Js.trim <$> tokens ∧ isValidSkill s = true).
Proof.
  revert acc. induction tokens as [|token tokens IH]; intros acc.
  - simpl. rewrite List.app_nil_r. split; [done|]. intros s. rewrite elem_of_nil. naive_solver.
  - cbn [Skills.classify fmap list_fmap List.filter].
    destruct (isValidSkill (Js.trim token)) eqn:Hvalid; cbn [negb andb].
    + destruct (IH {| Skills.valid := {[ Js.trim token ]} ∪ Skills.valid acc;
                      Skills.invalid := Skills.invalid acc |}) as [-> Hin].
      split; [done|]. intros s. rewrite Hin. cbn [Skills.valid].
      rewrite elem_of_union, elem_of_singleton, elem_of_cons. naive_solver.
    + case_bool_decide as Hempty; cbn [negb].
      * destruct (IH acc) as [-> Hin]. split; [done|]. intros s. rewrite Hin.
        rewrite elem_of_cons. split; [naive_solver|].
        intros [?|[[->|?] Hs]]; [naive_solver | congruence | naive_solver].
      * destruct (IH {| Skills.valid := Skills.valid acc;
                        Skills.invalid := (Skills.invalid acc ++ [Js.trim token])%list |})
          as [-> Hin].
        split; [cbn [Skills.invalid]; by rewrite <- List.app_assoc|].
        intros s. rewrite Hin. cbn [Skills.valid]. rewrite elem_of_cons.
        split; [naive_solver|].
        intros [?|[[->|?] Hs]]; [naive_solver | congruence | naive_solver].
Qed.

Lemma parseSkills_classify (input : Js.Unknown) :
  parseSkills input =
  Skills.classify (tokens_of input) {| Skills.valid := ∅; Skills.invalid := [] |}.
Proof. by destruct input as [[|a s]|l|]. Qed.

(** X6.  [parseSkills] sorts the trimmed tokens in three: those [isValidSkill]
    accepts make the valid set; the others, when not empty, make the
    invalid list, in the order and as often as they were given; empty ones
    are dropped.  [isValidSkill] accepts the five skills of the registry
    and, being the [in] operator on an object literal, the names every
    object inherits. *)
Theorem parseSkills_partition (input : Js.Unknown) :
  let tokens := Js.trim <$> tokens_of input in
  Skills.invalid (parseSkills input) =
    List.filter (λ t, negb (isValidSkill t) && negb (bool_decide (t = ""))) tokens ∧
  (∀ s, s ∈ Skills.valid (parseSkills input) ↔ s ∈ tokens ∧ isValidSkill s = true) ∧
  (∀ t, t ∈ Skills.invalid (parseSkills input) → t ≠ "" ∧ isValidSkill t = false) ∧
  (∀ s, isValidSkill s = true ↔ s ∈ ALL_SKILLS ∨ s ∈ Js.Object_prototype_keys).
Proof.
  intros tokens. rewrite parseSkills_classify.
  destruct (classify_skills (tokens_of input) {| Skills.valid := ∅; Skills.invalid := [] |})
    as [Hinvalid Hvalid].
  fold tokens in Hinvalid, Hvalid. split_and!.
  - by rewrite Hinvalid.
  - intros s. rewrite Hvalid. cbn [Skills.valid]. rewrite elem_of_empty. naive_solver.
  - intros t Ht. rewrite Hinvalid in Ht. cbn [Skills.invalid app] in Ht.
    apply list_elem_of_In, filter_In in Ht as [_ [Hv%negb_true_iff He%negb_true_iff]%andb_true_iff].
    apply bool_decide_eq_false in He. done.
  - intros s. unfold isValidSkill, Js.has_property.
    by rewrite orb_true_iff, !bool_decide_eq_true.
Qed.

(** A skill between two no-break spaces, a token that names no skill,
    an empty token and a name every object inherits. *)
Lemma parseSkills_partition_witness :
  let nbsp := String "194" (String "160" "") in
  let parsed :=
    parseSkills (Js.UString (nbsp +:+ "triage" +:+ nbsp +:+ ", bogus ,,toString")) in
  Skills.invalid parsed = ["bogus"] ∧
  "triage" ∈ Skills.valid parsed ∧ "toString" ∈ Skills.valid parsed.
Proof.
  intros nbsp parsed. subst parsed.
  destruct (parseSkills_partition
              (Js.UString (nbsp +:+ "triage" +:+ nbsp +:+ ", bogus ,,toString")))
    as (Hinvalid & Hvalid & _).
  assert (Js.trim <$> tokens_of
            (Js.UString (nbsp +:+ "triage" +:+ nbsp +:+ ", bogus ,,toString"))
          = ["triage"; "bogus"; ""; "toString"]) as Htokens by by vm_compute.
  rewrite Htokens in Hinvalid, Hvalid. split_and!.
  - rewrite Hinvalid. by vm_compute.
  - apply Hvalid. split; [apply list_elem_of_here | by vm_compute].
  - apply Hvalid. split; [do 3 apply list_elem_of_further; apply list_elem_of_here
                         | by vm_compute].
Defined.

(** The skills of the registry are plain tokens. *)
Lemma registry_skill_plain (s : Skill) :
  s ∈ ALL_SKILLS →
  Tokens.free_of "," s ∧ Js.trim s = s ∧ isValidSkill s = true ∧ s ≠ "".
Proof.
  intros Hs. unfold ALL_SKILLS in Hs. cbn in Hs.
  repeat (apply elem_of_cons in Hs as [->|Hs]; [by vm_compute|]).
  by apply elem_of_nil in Hs.
Qed.

(** A comma-separated list of skills of the registry parses to these
    skills. *)
Lemma parseSkills_names (l : list Skill) :
  l ⊆ ALL_SKILLS →
  Skills.valid (parseSkills (Js.UString (Js.join "," l))) = list_to_set l ∧
  Skills.invalid (parseSkills (Js.UString (Js.join "," l))) = [].
Proof.
  intros Hsub. pose proof registry_skill_plain as Hplain.
  assert (Js.trim <$> tokens_of (Js.UString (Js.join "," l)) = l ∨ l = []) as Htokens.
  { destruct l as [|s l]; [by right|]. left. cbn [tokens_of].
    rewrite (TokenFacts.split_join "," (s :: l)); [|done|].
    - apply list_eq. intros i. rewrite list_lookup_fmap.
      destruct ((s :: l) !! i) as [x|] eqn:Hx; [|done]. simpl.
      f_equal. apply Hplain, Hsub. by eapply list_elem_of_lookup_2.
    - apply Forall_forall. intros x Hx. by apply Hplain, Hsub. }
  destruct Htokens as [Htokens | ->]; [|done].
  rewrite parseSkills_classify.
  destruct (classify_skills (tokens_of (Js.UString (Js.join "," l)))
              {| Skills.valid := ∅; Skills.invalid := [] |}) as [Hinvalid Hvalid].
  rewrite Htokens in Hinvalid, Hvalid.
  cbn [Skills.valid Skills.invalid app] in Hinvalid, Hvalid. split.
  - apply set_eq. intros s. rewrite Hvalid, elem_of_list_to_set, elem_of_empty.
    split; [by intros [[]|[? _]]|]. intros Hs. right. split; [done|]. by apply Hplain, Hsub.
  - rewrite Hinvalid. clear -Hplain Hsub. induction l as [|s l IH]; [done|].
    cbn [List.filter].
    destruct (Hplain s) as (_ & _ & -> & _); [apply Hsub, list_elem_of_here|].
    cbn [negb andb]. apply IH. intros x Hx. apply Hsub. by apply list_elem_of_further.
Qed.

(** X7.  Writing skills of the registry as a comma-separated list and parsing
    the list gives them back, with nothing invalid. *)
Theorem parseSkills_join_names (l : list Skill) :
  l ⊆ ALL_SKILLS →
  let parsed := parseSkills (Js.UString (Js.join "," l)) in
  Skills.valid parsed = list_to_set l ∧ Skills.invalid parsed = [].
Proof. intros Hsub parsed. exact (parseSkills_names l Hsub). Qed.

Lemma parseSkills_join_names_witness :
  Skills.valid (parseSkills (Js.UString (Js.join "," ["triage"; "docs"])))
    = list_to_set ["triage"; "docs"].
Proof.
  apply (parseSkills_join_names ["triage"; "docs"]).
  intros s Hs. unfold ALL_SKILLS. cbn.
  repeat (apply elem_of_cons in Hs as [->|Hs]; [set_solver|]). by apply elem_of_nil in Hs.
Defined.

End SkillFacts.

(** ** Merging and finalizing the configuration *)

Module CliFacts.
Import Permissions Skills Constants Run Cli JsFacts.



Lemma outcome_bind {A B} (m : Run A) (f : A → Run B) :
  outcome (m ≫= f) =
  match outcome m with Returned a => outcome (f a) | Thrown e => Thrown e end.
Proof. unfold mbind, run_bind. by destruct (outcome m). Qed.

Lemma formatInvalid_enumerates (invalid : list string) (envName : option string) :
  ∀ token, token ∈ invalid → Js.occurs_in token (formatInvalid invalid envName).
Proof.
  intros token Hin. unfold formatInvalid.
  do 3 apply occurs_in_app_r. by apply occurs_in_app_l, occurs_in_join.
Qed.

Lemma formatInvalidSkills_enumerates (invalid : list string) (envName : option string) :
  ∀ token, token ∈ invalid → Js.occurs_in token (formatInvalidSkills invalid envName).
Proof.
  intros token Hin. unfold formatInvalidSkills.
  do 3 apply occurs_in_app_r. by apply occurs_in_app_l, occurs_in_join.
Qed.

(** The message for an empty valid set is none of the messages that list
    invalid tokens. *)
Lemma no_valid_distinct (invalid : list string) :
  NO_VALID_SCOPES ≠ formatInvalid invalid None ∧
  NO_VALID_ADD_SCOPES ≠ formatInvalid invalid None ∧
  NO_VALID_SKILLS ≠ formatInvalidSkills invalid None.
Proof.
  unfold formatInvalid, formatInvalidSkills; simpl.
  repeat split; intros Heq; rewrite !app_cons in Heq; discriminate Heq.
Qed.

Section finalize.
Context `{UrlUtils}.

(** [finalize] returns exactly when the access token is there and the
    four checks return; the configuration is made of their results. *)
Lemma finalize_returns_iff input cfg :
  outcome (finalize input) = Returned cfg ↔
  Js.truthy (accessToken input) = true ∧
  ∃ sentryHost scopes' skills' openai,
    outcome (finalize_host input) = Returned sentryHost ∧
    outcome (finalize_scopes input) = Returned scopes' ∧
    outcome (finalize_skills input) = Returned skills' ∧
    outcome (finalize_openaiBaseUrl input) = Returned openai ∧
    cfg = {| cfg_accessToken := the (accessToken input);
             cfg_sentryHost := sentryHost;
             cfg_mcpUrl := mcpUrl input;
             cfg_sentryDsn := sentryDsn input;
             cfg_openaiBaseUrl := openai;
             cfg_openaiModel := openaiModel input;
             finalScopes := scopes';
             finalSkills := skills';
             cfg_organizationSlug := organizationSlug input;
             cfg_projectSlug := projectSlug input |}.
Proof.
  unfold finalize. destruct (Js.truthy (accessToken input)); simpl.
  2: { split; [done | by intros [? _]]. }
  rewrite outcome_bind.
  destruct (outcome (finalize_host input)) as [h|e].
  2: { split; [done | by intros (_ & ? & ? & ? & ? & ? & _)]. }
  rewrite outcome_bind.
  destruct (outcome (finalize_scopes input)) as [fs|e].
  2: { split; [done | by intros (_ & ? & ? & ? & ? & _ & ? & _)]. }
  rewrite outcome_bind.
  destruct (outcome (finalize_skills input)) as [sk|e].
  2: { split; [done | by intros (_ & ? & ? & ? & ? & _ & _ & ? & _)]. }
  rewrite outcome_bind.
  destruct (outcome (finalize_openaiBaseUrl input)) as [oa|e].
  2: { split; [done | by intros (_ & ? & ? & ? & ? & _ & _ & _ & ? & _)]. }
  simpl. split.
  - intros [= <-]. split; [done|]. by exists h, fs, sk, oa.
  - intros (_ & ? & ? & ? & ? & [= <-] & [= <-] & [= <-] & [= <-] & ->). done.
Qed.

(** A check that throws makes [finalize] throw the same error, once the
    checks before it have returned. *)
Lemma finalize_throws_at_scopes input sentryHost error :
  Js.truthy (accessToken input) = true →
  outcome (finalize_host input) = Returned sentryHost →
  outcome (finalize_scopes input) = Thrown error →
  outcome (finalize input) = Thrown error.
Proof.
  intros Htok Hhost Hscopes. unfold finalize. rewrite Htok. simpl.
  by rewrite outcome_bind, Hhost, outcome_bind, Hscopes.
Qed.

Lemma finalize_throws_at_skills input sentryHost scopes' error :
  Js.truthy (accessToken input) = true →
  outcome (finalize_host input) = Returned sentryHost →
  outcome (finalize_scopes input) = Returned scopes' →
  outcome (finalize_skills input) = Thrown error →
  outcome (finalize input) = Thrown error.
Proof.
  intros Htok Hhost Hscopes Hskills. unfold finalize. rewrite Htok. simpl.
  by rewrite outcome_bind, Hhost, outcome_bind, Hscopes, outcome_bind, Hskills.
Qed.

Lemma finalize_skills_outcome input :
  outcome (finalize_skills input) =
  if Js.truthy (skills input) then
    let parsed := parseSkills (Js.UString (the (skills input))) in
    if bool_decide (0 < length (Skills.invalid parsed))%nat
    then Thrown (formatInvalidSkills (Skills.invalid parsed) None)
    else if bool_decide (size (Skills.valid parsed) = 0) then Thrown NO_VALID_SKILLS
    else Returned (Some (Skills.valid parsed))
  else Returned (Some (list_to_set ALL_SKILLS)).
Proof.
  unfold finalize_skills. destruct (Js.truthy (skills input)); [|done].
  simpl. by repeat case_bool_decide.
Qed.

Lemma finalize_scopes_outcome input :
  Js.truthyb (allScopes input) = false →
  outcome (finalize_scopes input) =
  let strict (value : option string) (empty : string) (resolve : gset Scope → option (gset Scope)) :=
    let parsed := parseScopes (Js.UString (the value)) in
    if bool_decide (0 < length (Permissions.invalid parsed))%nat
    then Thrown (formatInvalid (Permissions.invalid parsed) None)
    else if bool_decide (size (Permissions.valid parsed) = 0) then Thrown empty
    else Returned (resolve (Permissions.valid parsed)) in
  if Js.truthy (scopes input)
  then strict (scopes input) NO_VALID_SCOPES (λ v, resolveScopes (Some v) None DEFAULT_SCOPES)
  else if Js.truthy (addScopes input)
  then strict (addScopes input) NO_VALID_ADD_SCOPES (λ v, resolveScopes None (Some v) DEFAULT_SCOPES)
  else Returned None.
Proof.
  intros Hall. unfold finalize_scopes. rewrite Hall.
  destruct (Js.truthy (scopes input)), (Js.truthy (addScopes input)); simpl;
    rewrite ?outcome_bind; simpl; by repeat case_bool_decide.
Qed.


(** C8, as the checks are ordered.  Given an access token and a host
    that passes: with [allScopes] off, invalid tokens in a non-empty
    [scopes], or in a non-empty [addScopes] when [scopes] is empty or
    not given, make [finalize] throw the message that lists all of them;
    once the scope check has returned, invalid tokens in a non-empty
    [skills] do the same; and a non-empty value that parses to no
    invalid token and no valid one makes [finalize] throw a message of
    its own, which is none of the listing messages.  A value that is
    empty or not given is not parsed: the scope check then returns no
    grant, and the skills check every skill. *)
Theorem finalize_rejects_invalid_tokens input sentryHost :
  Js.truthy (accessToken input) = true →
  outcome (finalize_host input) = Returned sentryHost →
  (Js.truthyb (allScopes input) = false →
   Js.truthy (scopes input) = true →
     let parsed := parseScopes (Js.UString (the (scopes input))) in
     (Permissions.invalid parsed ≠ [] →
        outcome (finalize input) = Thrown (formatInvalid (Permissions.invalid parsed) None) ∧
        ∀ token, token ∈ Permissions.invalid parsed →
          Js.occurs_in token (formatInvalid (Permissions.invalid parsed) None)) ∧
     (Permissions.invalid parsed = [] → Permissions.valid parsed = ∅ →
        outcome (finalize input) = Thrown NO_VALID_SCOPES ∧
        ∀ l, NO_VALID_SCOPES ≠ formatInvalid l None)) ∧
  (Js.truthyb (allScopes input) = false →
   Js.truthy (scopes input) = false →
   Js.truthy (addScopes input) = true →
     let parsed := parseScopes (Js.UString (the (addScopes input))) in
     (Permissions.invalid parsed ≠ [] →
        outcome (finalize input) = Thrown (formatInvalid (Permissions.invalid parsed) None) ∧
        ∀ token, token ∈ Permissions.invalid parsed →
          Js.occurs_in token (formatInvalid (Permissions.invalid parsed) None)) ∧
     (Permissions.invalid parsed = [] → Permissions.valid parsed = ∅ →
        outcome (finalize input) = Thrown NO_VALID_ADD_SCOPES ∧
        ∀ l, NO_VALID_ADD_SCOPES ≠ formatInvalid l None)) ∧
  (∀ scopes', outcome (finalize_scopes input) = Returned scopes' →
   Js.truthy (skills input) = true →
     let parsed := parseSkills (Js.UString (the (skills input))) in
     (Skills.invalid parsed ≠ [] →
        outcome (finalize input) =
          Thrown (formatInvalidSkills (Skills.invalid parsed) None) ∧
        ∀ token, token ∈ Skills.invalid parsed →
          Js.occurs_in token (formatInvalidSkills (Skills.invalid parsed) None)) ∧
     (Skills.invalid parsed = [] → Skills.valid parsed = ∅ →
        outcome (finalize input) = Thrown NO_VALID_SKILLS ∧
        ∀ l, NO_VALID_SKILLS ≠ formatInvalidSkills l None)) ∧
  (Js.truthyb (allScopes input) = false →
   Js.truthy (scopes input) = false →
   Js.truthy (addScopes input) = false →
     outcome (finalize_scopes input) = Returned None) ∧
  (Js.truthy (skills input) = false →
     outcome (finalize_skills input) = Returned (Some (list_to_set ALL_SKILLS))).
Proof.
  intros Htok Hhost.
  assert (∀ l : list string, l ≠ [] → bool_decide (0 < length l)%nat = true) as Hpos.
  { intros [|? ?] ?; [done|]. apply bool_decide_eq_true. simpl. lia. }
  split; [|split; [|split; [|split]]].
  4: { intros Hall Hscopes Hadd.
       by rewrite (finalize_scopes_outcome _ Hall), Hscopes, Hadd. }
  4: { intros Hskills. by rewrite finalize_skills_outcome, Hskills. }
  - intros Hall Hscopes parsed. split.
    + intros Hinvalid. split; [|apply formatInvalid_enumerates].
      apply (finalize_throws_at_scopes _ sentryHost); [done..|].
      rewrite (finalize_scopes_outcome _ Hall), Hscopes. simpl.
      subst parsed. by rewrite (Hpos _ Hinvalid).
    + intros Hinvalid Hvalid. split; [|intros l; apply no_valid_distinct].
      apply (finalize_throws_at_scopes _ sentryHost); [done..|].
      rewrite (finalize_scopes_outcome _ Hall), Hscopes. simpl.
      subst parsed. by rewrite Hinvalid, Hvalid.
  - intros Hall Hscopes Hadd parsed. split.
    + intros Hinvalid. split; [|apply formatInvalid_enumerates].
      apply (finalize_throws_at_scopes _ sentryHost); [done..|].
      rewrite (finalize_scopes_outcome _ Hall), Hscopes, Hadd. simpl.
      subst parsed. by rewrite (Hpos _ Hinvalid).
    + intros Hinvalid Hvalid. split; [|intros l; apply no_valid_distinct].
      apply (finalize_throws_at_scopes _ sentryHost); [done..|].
      rewrite (finalize_scopes_outcome _ Hall), Hscopes, Hadd. simpl.
      subst parsed. by rewrite Hinvalid, Hvalid.
  - intros scopes' Hpassed Hskills parsed. split.
    + intros Hinvalid. split; [|apply formatInvalidSkills_enumerates].
      apply (finalize_throws_at_skills _ sentryHost scopes'); [done..|].
      rewrite finalize_skills_outcome, Hskills. cbv zeta.
      subst parsed. by rewrite (Hpos _ Hinvalid).
    + intros Hinvalid Hvalid. split; [|intros l; apply no_valid_distinct].
      apply (finalize_throws_at_skills _ sentryHost scopes'); [done..|].
      rewrite finalize_skills_outcome, Hskills. cbv zeta.
      subst parsed. by rewrite Hinvalid, Hvalid.
Qed.

End finalize.


(** [finalize({accessToken: "t", skills: "inspect,bogus"})]: the message
    lists ["bogus"], the one invalid token. *)
Lemma finalize_rejects_invalid_tokens_witness :
  let invalid := Skills.invalid (parseSkills (Js.UString "inspect,bogus")) in
  invalid = ["bogus"] ∧
  outcome (finalize (H := refusing_url_utils)
             (args (Some "t") None None None (Some "inspect,bogus")))
    = Thrown (formatInvalidSkills invalid None).
Proof.
  split; [by vm_compute|].
  destruct (finalize_rejects_invalid_tokens (H := refusing_url_utils)
              (args (Some "t") None None None (Some "inspect,bogus")) "sentry.io")
    as (_ & _ & Hskills & _); [by vm_compute..|].
  destruct (Hskills None) as [Hinvalid _]; [by vm_compute..|].
  apply Hinvalid. by vm_compute.
Defined.

(** A scope after a no-break space is trimmed to the scope: nothing
    is invalid, and [finalize] returns. *)
Example finalize_trims_unicode_space :
  let nbsp := String "194" (String "160" "") in
  Permissions.invalid (parseScopes (Js.UString (nbsp +:+ "org:read"))) = [] ∧
  org_read ∈ Permissions.valid (parseScopes (Js.UString (nbsp +:+ "org:read"))) ∧
  ∃ cfg,
    outcome (finalize (H := refusing_url_utils)
               (args (Some "t") (Some (nbsp +:+ "org:read")) None None None))
      = Returned cfg.
Proof.
  intros nbsp. split_and!.
  - by vm_compute.
  - unfold parseScopes.
    replace (List.filter _ _) with ["org:read"] by by vm_compute.
    cbn. set_solver.
  - eexists. apply finalize_returns_iff. split; [done|].
    do 4 eexists. split_and!; reflexivity.
Qed.

(** Against C8 as stated.  ["bogus"] is an invalid scope token, yet
    [finalize] returns a configuration when [allScopes] is set beside it,
    and when it is given as [addScopes] beside a [scopes] value. *)
Lemma finalize_accepts_unread_invalid_tokens :
  Permissions.invalid (parseScopes (Js.UString "bogus")) = ["bogus"] ∧
  (∃ cfg, outcome (finalize (H := refusing_url_utils)
                     (args (Some "t") (Some "bogus") None (Some true) None))
          = Returned cfg) ∧
  (∃ cfg, outcome (finalize (H := refusing_url_utils)
                     (args (Some "t") (Some "org:read") (Some "bogus") None None))
          = Returned cfg).
Proof.
  split; [by vm_compute|].
  split; eexists; apply finalize_returns_iff; (split; [done|]);
    do 4 eexists; split_and!; reflexivity.
Qed.

End CliFacts.

(** ** The OAuth bootstrap *)

Module OAuthFacts.
Import OAuth.

Lemma run_bind {A B} (m : Async A) (f : A → Async B) (w : World) :
  run (m ≫= f) w =
  match run m w with
  | (Fulfilled a, w') => run (f a) w'
  | (Rejected e, w') => (Rejected e, w')
  | (Pending, w') => (Pending, w')
  end.
Proof. reflexivity. Qed.

Lemma quiet_refl w : quiet w w.
Proof. by repeat split. Qed.

Lemma quiet_trans w1 w2 w3 : quiet w1 w2 → quiet w2 w3 → quiet w1 w3.
Proof. unfold quiet. intros (?&?&?&?&?) (?&?&?&?&?). split_and!; congruence. Qed.

(** Waiting for the callback settles as [settlement] says and only writes
    replies. *)
Lemma waitForCallback_run (arriving : list Incoming) (w : World) :
  ∃ w', run (waitForCallback arriving) w = (settlement arriving, w') ∧
        quiet w w' ∧ replies w' = (replies w ++ served arriving)%list.
Proof.
  revert w. induction arriving as [|req later IH]; intros w.
  - exists w. simpl. split_and!; [done | apply quiet_refl | by rewrite app_nil_r].
  - cbn [waitForCallback settlement served].
    destruct (handleRequest true req) as [reply settles].
    rewrite run_bind. cbn [run modify fst snd].
    destruct settles as [[v|e|]|]; cbn [run mret async_ret throw].
    + eexists. split_and!; [done | by repeat split | done].
    + eexists. split_and!; [done | by repeat split | done].
    + destruct (IH (record_reply reply w)) as (w' & -> & Hq & Hr).
      exists w'. split_and!; [done | exact Hq |].
      rewrite Hr. simpl. by rewrite <- app_assoc.
    + destruct (IH (record_reply reply w)) as (w' & -> & Hq & Hr).
      exists w'. split_and!; [done | exact Hq |].
      rewrite Hr. simpl. by rewrite <- app_assoc.
Qed.

(** The listener hands a request over exactly when it is a callback
    without an error and with a code and a state. *)
Lemma handleRequest_handoff (req : Incoming) (code state : string) :
  (handleRequest true req).2 = Some (Fulfilled (code, state)) ↔
  ∃ params, req = Url "/callback" params ∧
    Js.truthy (searchParams_get params "error") = false ∧
    searchParams_get params "code" = Some code ∧ code ≠ "" ∧
    searchParams_get params "state" = Some state ∧ state ≠ "".
Proof.
  destruct req as [|pathname params]; simpl.
  { split; [done | by intros (? & ? & _)]. }
  case_bool_decide as Hpath; simpl.
  2: { split; [done|]. intros (? & [= ? ?] & _). congruence. }
  subst pathname.
  destruct (Js.truthy (searchParams_get params "error")) eqn:Herr; simpl.
  { split; [done|]. intros (? & [= <-] & ? & _). congruence. }
  destruct (searchParams_get params "code") as [c|] eqn:Hc; simpl.
  2: { split; [done|]. intros (? & [= <-] & _ & ? & _). congruence. }
  case_bool_decide as Hce; simpl.
  { split; [done|]. intros (? & [= <-] & _ & ? & ? & _). congruence. }
  destruct (searchParams_get params "state") as [st|] eqn:Hst; simpl.
  2: { split; [done|]. intros (? & [= <-] & _ & _ & _ & ? & _). congruence. }
  case_bool_decide as Hse; simpl.
  { split; [done|]. intros (? & [= <-] & _ & _ & _ & ? & ?). congruence. }
  split.
  - intros [= <- <-]. exists params. by rewrite Hc, Hst.
  - intros (? & [= <-] & _ & ? & _ & ? & _). congruence.
Qed.

Section client.
Context `{Platform}.
Variable config : OAuthConfig.

(** Getting the client id never touches the listener or the token
    store, and sends no token request. *)
Lemma getOrRegisterClientId_world env w r w1 :
  run (getOrRegisterClientId config env) w = (r, w1) →
  port_bound w1 = port_bound w ∧ this_server w1 = this_server w ∧
  access_tokens w1 = access_tokens w ∧
  List.filter is_token_request (sent w1) = List.filter is_token_request (sent w).
Proof.
  unfold getOrRegisterClientId, getOAuthClientId, try_catch, registerClient,
    setOAuthClientId.
  rewrite !run_bind. cbn [run get mret async_ret].
  destruct (Js.truthy (client_ids w !! mcpHost config)); cbn [run mret async_ret].
  { by intros [= <- <-]. }
  rewrite !run_bind. cbn [run modify].
  destruct (registration env) as [msg|status text client_id]; cbn [run throw].
  { intros [= <- <-]. simpl. by rewrite List.filter_app, app_nil_r. }
  destruct (negb (ok status)); cbn [run throw mret async_ret modify];
    intros [= <- <-]; simpl; by rewrite List.filter_app, app_nil_r.
Qed.

(** The [try] block leaves the listener as it found it. *)
Lemma awaitCallbackAndExchange_listener env clientId verifier state w r w' :
  run (awaitCallbackAndExchange config env clientId verifier state) w = (r, w') →
  port_bound w' = port_bound w ∧ this_server w' = this_server w.
Proof.
  unfold awaitCallbackAndExchange. rewrite run_bind.
  destruct (waitForCallback_run (callbacks env) w) as (w1 & -> & (Hp & Hs & _) & _).
  destruct (settlement (callbacks env)) as [[code receivedState]|e|].
  2,3: by intros [= <- <-].
  destruct (negb (bool_decide (receivedState = state))); cbn [run throw].
  { by intros [= <- <-]. }
  unfold try_catch, exchangeCodeForToken, setAccessToken. cbn [run].
  rewrite !run_bind. cbn [run modify].
  destruct (exchange env) as [msg|status text json]; cbn [run throw].
  { by intros [= <- <-]. }
  destruct (negb (ok status)); cbn [run throw mret async_ret].
  { by intros [= <- <-]. }
  rewrite run_bind.
  destruct (store_error env); cbn [run throw modify mret async_ret];
    by intros [= <- <-].
Qed.

(** With a client id, a free port and a well-formed authorization URL
    the flow binds the listener and enters the [try] block. *)
Lemma authenticate_reaches_callback env w clientId w1 :
  run (getOrRegisterClientId config env) w = (Fulfilled clientId, w1) →
  port_bound w = false →
  url_parses (mcpHost config +:+ "/oauth/authorize") = true →
  ∃ w3,
    run (authenticate config env) w =
      run (try_finally
             (awaitCallbackAndExchange config env clientId
                (random_verifier env) (generateState env))
             closeServer) w3 ∧
    port_bound w3 = true ∧ this_server w3 = Some true ∧
    access_tokens w3 = access_tokens w1 ∧ sent w3 = sent w1.
Proof.
  intros Hid Hport Hurl.
  destruct (getOrRegisterClientId_world _ _ _ _ Hid) as (Hp1 & _).
  unfold authenticate. rewrite run_bind, Hid, run_bind.
  unfold startCallbackServer. rewrite run_bind. cbn [run get].
  rewrite Hp1, Hport. cbn [run put generatePKCE]. rewrite Hurl. cbn [negb].
  rewrite run_bind.
  destruct (browser_opens env); cbn [run modify mret async_ret];
    eexists; (split; [reflexivity|]); by split_and!.
Qed.

(** C4.  Once the listener is bound, every way the flow settles leaves
    it closed: the port is free, [this.server] is [null], and a next
    [authenticate] binds the port again.  In particular the flow settles
    with the token when the exchange succeeds, with the CSRF error when
    the state differs, and with the exchange error when the exchange
    fails. *)
Theorem authenticate_closes_listener env w clientId w1 r w' :
  run (getOrRegisterClientId config env) w = (Fulfilled clientId, w1) →
  port_bound w = false →
  url_parses (mcpHost config +:+ "/oauth/authorize") = true →
  run (authenticate config env) w = (r, w') →
  (r = Pending ↔ settlement (callbacks env) = Pending) ∧
  (r ≠ Pending →
     port_bound w' = false ∧ this_server w' = None ∧
     ∃ w'', run startCallbackServer w' = (Fulfilled tt, w'')) ∧
  (∀ code receivedState,
     settlement (callbacks env) = Fulfilled (code, receivedState) →
     (receivedState ≠ generateState env → r = Rejected CSRF_ERROR) ∧
     (receivedState = generateState env →
        match exchange env with
        | FetchFailed msg => r = Rejected msg
        | Response status error json =>
            if ok status
            then match store_error env with
                 | None => r = Fulfilled (access_token json)
                 | Some e => r = Rejected e
                 end
            else r = Rejected ("Token exchange failed: " +:+ pretty status +:+
                               " - " +:+ error)
        end)).
Proof.
  intros Hid Hport Hurl Hrun.
  destruct (authenticate_reaches_callback env w clientId w1 Hid Hport Hurl)
    as (w3 & Hreach & Hp3 & Hs3 & _).
  rewrite Hreach in Hrun. clear Hreach.
  unfold try_finally in Hrun. cbn [run] in Hrun.
  destruct (run (awaitCallbackAndExchange config env clientId
                   (random_verifier env) (generateState env)) w3)
    as [body w4] eqn:Hbody.
  destruct (awaitCallbackAndExchange_listener _ _ _ _ _ _ _ Hbody) as (Hp4 & Hs4).
  rewrite Hp3 in Hp4. rewrite Hs3 in Hs4.
  assert (body ≠ Pending →
          r = body ∧ port_bound w' = false ∧ this_server w' = None) as Hclosed.
  { intros Hsettled. unfold closeServer in Hrun.
    destruct body; [| |done];
      rewrite run_bind in Hrun; cbn [run get] in Hrun;
      rewrite Hs4 in Hrun; cbn [run put] in Hrun;
      by injection Hrun as <- <-. }
  assert (body = Pending → r = Pending) as Hpending.
  { intros ->. by injection Hrun as <- <-. }
  (* how the try block settles *)
  unfold awaitCallbackAndExchange in Hbody. rewrite run_bind in Hbody.
  destruct (waitForCallback_run (callbacks env) w3) as (w5 & Hwait & _ & _).
  rewrite Hwait in Hbody. clear Hwait.
  destruct (settlement (callbacks env)) as [[code receivedState]|e|] eqn:Hsettle.
  - assert (body ≠ Pending ∧
            (receivedState ≠ generateState env → body = Rejected CSRF_ERROR) ∧
            (receivedState = generateState env →
             match exchange env with
             | FetchFailed msg => body = Rejected msg
             | Response status error json =>
                 if ok status
                 then match store_error env with
                      | None => body = Fulfilled (access_token json)
                      | Some e => body = Rejected e
                      end
                 else body = Rejected ("Token exchange failed: " +:+ pretty status +:+
                                       " - " +:+ error)
             end)) as (Hsettled & Hmismatch & Hmatch).
    { case_bool_decide as Hstate; cbn [negb run throw] in Hbody.
      - unfold try_catch, exchangeCodeForToken, setAccessToken in Hbody.
        cbn [run] in Hbody. rewrite !run_bind in Hbody. cbn [run modify] in Hbody.
        destruct (exchange env) as [msg|status text json]; cbn [run throw] in Hbody.
        { injection Hbody as <- <-. by split_and!. }
        destruct (ok status); cbn [negb run throw mret async_ret] in Hbody.
        2: { injection Hbody as <- <-. by split_and!. }
        rewrite run_bind in Hbody.
        destruct (store_error env); cbn [run throw modify mret async_ret] in Hbody;
          injection Hbody as <- <-; by split_and!.
      - injection Hbody as <- <-. by split_and!. }
    destruct (Hclosed Hsettled) as (-> & Hp & Hs).
    split_and!.
    + split; [done | done].
    + intros _. split_and!; [done..|].
      unfold startCallbackServer. rewrite run_bind. cbn [run get]. rewrite Hp.
      by eexists.
    + intros code' st' [= <- <-]. by split.
  - injection Hbody as <- <-.
    destruct (Hclosed ltac:(done)) as (-> & Hp & Hs).
    split_and!.
    + split; [done | done].
    + intros _. split_and!; [done..|].
      unfold startCallbackServer. rewrite run_bind. cbn [run get]. rewrite Hp.
      by eexists.
    + by intros code' st' ?.
  - injection Hbody as <- <-. rewrite (Hpending eq_refl).
    split_and!; [done | done | by intros code' st' ?].
Qed.

(** Outside the three exits: when the authorization URL does not parse,
    [new URL] throws after the listener is bound and before the [try]
    block is entered, and the listener stays. *)
Lemma authenticate_malformed_url env w clientId w1 :
  run (getOrRegisterClientId config env) w = (Fulfilled clientId, w1) →
  port_bound w = false →
  url_parses (mcpHost config +:+ "/oauth/authorize") = false →
  ∃ w', run (authenticate config env) w = (Rejected "Invalid URL", w') ∧
        port_bound w' = true ∧ this_server w' = Some true.
Proof.
  intros Hid Hport Hurl.
  destruct (getOrRegisterClientId_world _ _ _ _ Hid) as (Hp1 & _).
  unfold authenticate. rewrite run_bind, Hid, run_bind.
  unfold startCallbackServer. rewrite run_bind. cbn [run get].
  rewrite Hp1, Hport. cbn [run put generatePKCE]. rewrite Hurl. cbn [negb run throw].
  by eexists.
Qed.

(** C5.  When the callback hands over a state that is not the one
    generated for this flow, [authenticate] rejects with the CSRF error;
    it has sent no token request and the token store is as it was. *)
Theorem state_mismatch_rejected_before_exchange
    env w clientId w1 code receivedState :
  run (getOrRegisterClientId config env) w = (Fulfilled clientId, w1) →
  port_bound w = false →
  url_parses (mcpHost config +:+ "/oauth/authorize") = true →
  settlement (callbacks env) = Fulfilled (code, receivedState) →
  receivedState ≠ generateState env →
  ∃ w', run (authenticate config env) w = (Rejected CSRF_ERROR, w') ∧
        List.filter is_token_request (sent w') =
          List.filter is_token_request (sent w) ∧
        access_tokens w' = access_tokens w.
Proof.
  intros Hid Hport Hurl Hsettle Hstate.
  destruct (getOrRegisterClientId_world _ _ _ _ Hid) as (_ & _ & Htok1 & Hsent1).
  destruct (authenticate_reaches_callback env w clientId w1 Hid Hport Hurl)
    as (w3 & -> & Hp3 & Hs3 & Htok3 & Hsent3).
  unfold try_finally, awaitCallbackAndExchange. cbn [run]. rewrite run_bind.
  destruct (waitForCallback_run (callbacks env) w3)
    as (w5 & -> & (_ & Hs5 & _ & Htok5 & Hsent5) & _).
  rewrite Hsettle. rewrite bool_decide_eq_false_2 by done. cbn [negb run throw].
  unfold closeServer. rewrite run_bind. cbn [run get]. rewrite Hs5, Hs3.
  cbn [run put]. eexists. split; [reflexivity|]. simpl. split; congruence.
Qed.

End client.

Import Samples.

(** The user approves and the callback carries the generated state: the
    token comes back and the listener is closed. *)
Lemma authenticate_closes_listener_witness :
  let result := run (authenticate (H := platform) config (approving "state-1")) fresh in
  result.1 = Fulfilled "token-1" ∧
  port_bound result.2 = false ∧ this_server result.2 = None.
Proof.
  intros result.
  destruct (authenticate_closes_listener (H := platform) config (approving "state-1")
              fresh "client-1"
              (run (getOrRegisterClientId (H := platform) config (approving "state-1")) fresh).2
              result.1 result.2)
    as (_ & Hclosed & Hexits);
    [reflexivity | reflexivity | reflexivity | apply surjective_pairing |].
  destruct (Hexits "code-1" "state-1" eq_refl) as (_ & Hmatch).
  split; [exact (Hmatch eq_refl)|].
  destruct Hclosed as (Hport & Hserver & _); [by rewrite (Hmatch eq_refl)|].
  by split.
Defined.

(** The callback carries a state that was not generated for the flow. *)
Lemma state_mismatch_rejected_before_exchange_witness :
  ∃ w', run (authenticate (H := platform) config (approving "forged")) fresh
          = (Rejected CSRF_ERROR, w') ∧
        List.filter is_token_request (sent w') =
          List.filter is_token_request (sent fresh) ∧
        access_tokens w' = access_tokens fresh.
Proof.
  apply (state_mismatch_rejected_before_exchange (H := platform) config
           (approving "forged") fresh "client-1"
           (run (getOrRegisterClientId (H := platform) config (approving "forged")) fresh).2
           "code-1" "forged");
    [reflexivity | reflexivity | reflexivity | reflexivity | discriminate].
Defined.

End OAuthFacts.

(** ** More on the scope hierarchy *)

Module ScopeFacts.
Import Permissions PermissionsFacts.

(** X3.  Expansion goes through unions: the expansion of a grant is made of
    the expansions of its parts, and an empty grant expands to nothing. *)
Theorem expandScopes_union (A B : gset Scope) :
  expandScopes (A ∪ B) = expandScopes A ∪ expandScopes B ∧
  expandScopes (∅ : gset Scope) = ∅.
Proof.
  split.
  - apply set_eq. intros x.
    rewrite elem_of_union, !elem_of_expandScopes.
    setoid_rewrite elem_of_union. naive_solver.
  - apply set_eq. intros x. rewrite elem_of_expandScopes.
    setoid_rewrite elem_of_empty. naive_solver.
Qed.

(** X4.  What expansion adds to a grant is only lower levels of a resource
    the grant holds a higher level of.  So no [admin] scope and no
    [project:releases] is ever implied: they are in the expansion only
    when they are in the grant. *)
Theorem expandScopes_only_lower (S : gset Scope) :
  (∀ s, s ∈ expandScopes S ↔
        s ∈ S ∨
        ∃ r, (s = scope_of r read ∧ (scope_of r write ∈ S ∨ scope_of r admin ∈ S)) ∨
             (s = scope_of r write ∧ scope_of r admin ∈ S)) ∧
  (∀ r, scope_of r admin ∈ expandScopes S ↔ scope_of r admin ∈ S) ∧
  (project_releases ∈ expandScopes S ↔ project_releases ∈ S).
Proof.
  assert (∀ s, s ∈ expandScopes S ↔
        s ∈ S ∨
        ∃ r, (s = scope_of r read ∧ (scope_of r write ∈ S ∨ scope_of r admin ∈ S)) ∨
             (s = scope_of r write ∧ scope_of r admin ∈ S)) as Hchar.
  { intros s. rewrite elem_of_expandScopes. split.
    - intros (g & Hg & Hs).
      destruct g; simpl in Hs;
        rewrite ?elem_of_union, ?elem_of_singleton in Hs; destruct_or?; subst s;
        first [ by left
              | right; first [ exists org; simpl; by eauto
                             | exists project; simpl; by eauto
                             | exists team; simpl; by eauto
                             | exists member; simpl; by eauto
                             | exists event; simpl; by eauto ] ].
    - intros [Hs | (r & [[-> [Hw|Ha]] | [-> Ha]])].
      + exists s. split; [done | apply hierarchy_reflexive].
      + exists (scope_of r write). split; [done|]. destruct r; simpl; set_solver.
      + exists (scope_of r admin). split; [done|]. destruct r; simpl; set_solver.
      + exists (scope_of r admin). split; [done|]. destruct r; simpl; set_solver. }
  split_and!; [done | |].
  - intros r. rewrite Hchar. split; [|by left].
    intros [?|(r' & [[Heq _]|[Heq _]])]; [done | |]; by destruct r, r'.
  - rewrite Hchar. split; [|by left].
    intros [?|(r' & [[Heq _]|[Heq _]])]; [done | |]; by destruct r'.
Qed.

Lemma expandScopes_absorbs (g g' : gset Scope) :
  g ⊆ expandScopes g' → expandScopes g ⊆ expandScopes g'.
Proof.
  intros Hsub x (s & Hs & Hx)%elem_of_expandScopes.
  apply Hsub, elem_of_expandScopes in Hs as (s' & Hs' & Hs).
  apply elem_of_expandScopes. eauto using hierarchy_transitive.
Qed.

Lemma expandScopes_closed (X : gset Scope) :
  expandScopes (expandScopes X) = expandScopes X.
Proof.
  apply set_eq. intros x. split.
  - by apply expandScopes_absorbs.
  - apply expandScopes_extensive.
Qed.

Lemma resolveScopes_base (a : gset Scope) (defaults : list Scope) :
  set_fold (λ (s : Scope) (base : gset Scope), {[ s ]} ∪ base) (list_to_set defaults) a
  = a ∪ list_to_set defaults.
Proof. apply set_eq. intros x. by rewrite elem_of_set_fold_add, elem_of_union. Qed.

Lemma resolveScopes_closed (override add : option (gset Scope)) defaults r :
  resolveScopes override add defaults = Some r → expandScopes r = r.
Proof.
  destruct override as [o|]; [|destruct add as [a|]]; simpl; [| |done];
    intros [= <-]; apply expandScopes_closed.
Qed.

(** X5.  A requirement that a grant satisfies is satisfied by every grant that
    implies it (a larger one, or one with higher levels) and stays
    satisfied when requirements are dropped; a requirement list is
    satisfied exactly when each of its parts is. *)
Theorem hasRequiredScopes_monotone (g g' : gset Scope) (required required' : list Scope) :
  (g ⊆ expandScopes g' → required' ⊆ required →
   hasRequiredScopes g required = true → hasRequiredScopes g' required' = true) ∧
  hasRequiredScopes g (required ++ required') =
    hasRequiredScopes g required && hasRequiredScopes g required'.
Proof.
  split.
  - intros Hg Hr. rewrite !hasRequiredScopes_spec. intros Hall scope Hin.
    by apply (expandScopes_absorbs g g' Hg), Hall, Hr.
  - unfold hasRequiredScopes. apply forallb_app.
Qed.

(** Write access to events is replaced by admin access, beside an
    unrelated scope; and a grant of [event:read] alone satisfies the
    first part of a requirement, not the second, so not the whole. *)
Lemma hasRequiredScopes_monotone_witness :
  hasRequiredScopes {[ event_admin; org_read ]} [event_read] = true ∧
  hasRequiredScopes {[ event_read ]} ([event_read] ++ [event_write]) = false.
Proof.
  split.
  2: { destruct (hasRequiredScopes_monotone {[ event_read ]} ∅ [event_read] [event_write])
         as [_ ->].
       apply andb_false_iff. right. apply not_true_is_false.
       rewrite hasRequiredScopes_spec. intros Hall.
       specialize (Hall event_write (list_elem_of_here _ _)).
       apply elem_of_expandScopes in Hall as (g & ->%elem_of_singleton & Hin).
       simpl in Hin. set_solver. }
  destruct (hasRequiredScopes_monotone {[ event_write ]} {[ event_admin; org_read ]}
              [event_read; event_write] [event_read]) as [Hmonotone _].
  apply Hmonotone.
  - intros s Hs%elem_of_singleton. subst s. apply elem_of_expandScopes.
    exists event_admin. split; [set_solver | simpl; set_solver].
  - intros s Hs%list_elem_of_singleton. subst s. apply list_elem_of_here.
  - apply hasRequiredScopes_spec. intros s Hs. apply elem_of_expandScopes.
    exists event_write. split; [set_solver|].
    apply elem_of_cons in Hs as [->|Hs%list_elem_of_singleton]; subst; simpl; set_solver.
Defined.

End ScopeFacts.

(** ** The scopes behind a skills grant *)

Module SkillScopesFacts.
Import Permissions Skills Constants Run Server SkillScopes PermissionsFacts.

Lemma elem_of_foldl_add (needed : list Scope) (base : gset Scope) (x : Scope) :
  x ∈ foldl (λ scopes scope, {[ scope ]} ∪ scopes) base needed ↔ x ∈ base ∨ x ∈ needed.
Proof.
  revert base. induction needed as [|s needed IH]; intros base; simpl.
  - rewrite elem_of_nil. naive_solver.
  - rewrite IH, elem_of_union, elem_of_singleton, elem_of_cons. naive_solver.
Qed.

Lemma toolEnabled_spec (S : gset Skill) (required : list Skill) :
  existsb (λ reqSkill, bool_decide (reqSkill ∈ S)) required = true ↔
  ∃ skill, skill ∈ required ∧ skill ∈ S.
Proof.
  rewrite existsb_exists. setoid_rewrite <- list_elem_of_In.
  setoid_rewrite bool_decide_eq_true. done.
Qed.

Lemma collectScopes_typed (tools : list ToolConfig) (S : gset Skill) (base : gset Scope) :
  Forall typed tools →
  ∃ scopes, collectScopes tools S base = Returned scopes ∧
    ∀ x, x ∈ scopes ↔
      x ∈ base ∨ ∃ tool, tool ∈ tools ∧ enabled S tool ∧ x ∈ default [] (requiredScopes tool).
Proof.
  intros Htyped. revert base.
  induction Htyped as [|tool tools [[required Hskills] [needed Hscopes]] _ IH]; intros base.
  - exists base. split; [done|]. intros x. setoid_rewrite elem_of_nil. naive_solver.
  - cbn [collectScopes]. rewrite Hskills.
    assert (enabled S tool ↔ ∃ skill, skill ∈ required ∧ skill ∈ S) as Henabled.
    { unfold enabled. by rewrite Hskills. }
    destruct (existsb _ required) eqn:Hsome.
    + rewrite Hscopes.
      destruct (IH (foldl (λ scopes scope, {[ scope ]} ∪ scopes) base needed))
        as (scopes & -> & Hin).
      exists scopes. split; [done|]. intros x. rewrite Hin, elem_of_foldl_add.
      apply toolEnabled_spec, Henabled in Hsome.
      setoid_rewrite elem_of_cons. split.
      * intros [[?|?]|(t & ? & ? & ?)]; [by left| |right; exists t; naive_solver].
        right. exists tool. rewrite Hscopes. naive_solver.
      * intros [?|(t & [->|?] & ? & Hx)]; [by left; left| |right; exists t; naive_solver].
        rewrite Hscopes in Hx. by left; right.
    + destruct (IH base) as (scopes & -> & Hin).
      exists scopes. split; [done|]. intros x. rewrite Hin.
      setoid_rewrite elem_of_cons. split; [naive_solver|].
      intros [?|(t & [->|?] & Hen & Hx)]; [by left| |right; exists t; naive_solver].
      apply Henabled, toolEnabled_spec in Hen. congruence.
Qed.

(** X8.  Over a catalog of tools that carry both requirement lists,
    [getScopesForSkills] returns the default scopes together with the
    required scopes of every tool one of whose required skills is granted,
    and nothing else.  So the defaults are always in the result, and a
    grant that touches no tool (the empty grant) gives the defaults alone. *)
Theorem getScopesForSkills_spec (tools : list ToolConfig) (S : gset Skill) :
  Forall typed tools →
  ∃ scopes, getScopesForSkills tools S = Returned scopes ∧
    (∀ x, x ∈ scopes ↔
       x ∈ DEFAULT_SCOPES ∨
       ∃ tool, tool ∈ tools ∧ enabled S tool ∧ x ∈ default [] (requiredScopes tool)) ∧
    list_to_set DEFAULT_SCOPES ⊆ scopes ∧
    ((∀ tool, tool ∈ tools → ¬ enabled S tool) → scopes = list_to_set DEFAULT_SCOPES).
Proof.
  intros Htyped.
  destruct (collectScopes_typed tools S (list_to_set DEFAULT_SCOPES) Htyped)
    as (scopes & Hrun & Hin).
  setoid_rewrite elem_of_list_to_set in Hin.
  exists scopes. split_and!; [done|done| |].
  - intros x Hx. apply Hin. left. by apply elem_of_list_to_set in Hx.
  - intros Hnone. apply set_eq. intros x. rewrite Hin, elem_of_list_to_set.
    split; [|by left]. intros [?|(tool & ? & ? & _)]; [done|]. by destruct (Hnone tool).
Qed.

(** The two sample tools under the triage grant: [event:write] is added. *)
Lemma getScopesForSkills_spec_witness :
  ∃ scopes,
    getScopesForSkills [Samples.mockTool; Samples.triageTool] {[ "triage" ]} = Returned scopes ∧
    event_write ∈ scopes.
Proof.
  destruct (getScopesForSkills_spec [Samples.mockTool; Samples.triageTool] {[ "triage" ]})
    as (scopes & Hrun & Hin & _).
  { repeat constructor; by eexists. }
  exists scopes. split; [done|]. apply Hin. right. exists Samples.triageTool.
  split_and!; [set_solver| |by apply list_elem_of_singleton].
  exists "triage". split; [by apply list_elem_of_singleton | by apply elem_of_singleton].
Defined.

(** X9.  A larger grant of skills never gives fewer scopes. *)
Theorem getScopesForSkills_monotone (tools : list ToolConfig) (S S' : gset Skill) scopes scopes' :
  Forall typed tools →
  S ⊆ S' →
  getScopesForSkills tools S = Returned scopes →
  getScopesForSkills tools S' = Returned scopes' →
  scopes ⊆ scopes'.
Proof.
  intros Htyped Hsub Hrun Hrun'.
  destruct (collectScopes_typed tools S (list_to_set DEFAULT_SCOPES) Htyped)
    as (r & Heq & Hin).
  destruct (collectScopes_typed tools S' (list_to_set DEFAULT_SCOPES) Htyped)
    as (r' & Heq' & Hin').
  unfold getScopesForSkills in Hrun, Hrun'.
  rewrite Hrun in Heq. rewrite Hrun' in Heq'. simplify_eq.
  intros x. rewrite Hin, Hin'.
  intros [?|(tool & ? & (skill & ? & ?) & ?)]; [by left|].
  right. exists tool. split_and!; [done| |done]. exists skill. split; [done|]. by apply Hsub.
Qed.

Lemma getScopesForSkills_monotone_witness :
  (list_to_set DEFAULT_SCOPES : gset Scope) ⊆ {[ event_write ]} ∪ list_to_set DEFAULT_SCOPES.
Proof.
  apply (getScopesForSkills_monotone [Samples.mockTool; Samples.triageTool] ∅ {[ "triage" ]}).
  - repeat constructor; by eexists.
  - set_solver.
  - reflexivity.
  - reflexivity.
Defined.

(** X10.  Every tool of the catalog that a server built for the skills grant [S]
    registers is also allowed by the scope check under the scopes
    [getScopesForSkills] computes for [S]. *)
Theorem getScopesForSkills_covers_exposed
    (tools : list ToolConfig) (S : gset Skill) (context : ServerContext)
    (tool : ToolConfig) (scopes : gset Scope) :
  Forall typed tools →
  tool ∈ tools →
  grantedSkills context = Some S →
  allowed context tool = true →
  getScopesForSkills tools S = Returned scopes →
  isToolAllowed (requiredScopes tool) scopes = true.
Proof.
  intros Htyped Htool Hgrant Hallowed Hrun.
  destruct (collectScopes_typed tools S (list_to_set DEFAULT_SCOPES) Htyped)
    as (r & Heq & Hin).
  unfold getScopesForSkills in Hrun. rewrite Hrun in Heq. simplify_eq.
  apply isToolAllowed_spec. intros scope Hscope.
  apply expandScopes_extensive, Hin. right. exists tool. split_and!; [done| |done].
  unfold allowed in Hallowed. rewrite Hgrant in Hallowed.
  destruct (requiredSkills tool) as [[|first required]|] eqn:Hskills; [done| |done].
  apply ServerFacts.hasRequiredSkills_spec in Hallowed as [_ Hex].
  unfold enabled. by rewrite Hskills.
Qed.

Lemma getScopesForSkills_covers_exposed_witness :
  isToolAllowed (requiredScopes Samples.triageTool)
    ({[ event_write ]} ∪ list_to_set DEFAULT_SCOPES) = true.
Proof.
  apply (getScopesForSkills_covers_exposed [Samples.mockTool; Samples.triageTool]
           {[ "triage" ]} (Samples.context (Some {[ "triage" ]}) None None)).
  - repeat constructor; by eexists.
  - set_solver.
  - reflexivity.
  - reflexivity.
  - reflexivity.
Defined.

End SkillScopesFacts.

(** ** The command line, end to end *)

Module StdioFacts.
Import Permissions Skills Constants Run Cli CliEnv Server OpenAI Stdio.
Import PermissionsFacts ScopeFacts CliFacts.

Lemma given_Some (value : option string) (v : string) :
  given value = Some v ↔ value = Some v ∧ v ≠ "".
Proof.
  unfold given. destruct value as [s|]; simpl; [|naive_solver].
  case_bool_decide; simpl; naive_solver.
Qed.

Lemma truthy_given (value : option string) : Js.truthy (given value) = Js.truthy value.
Proof. unfold given. by destruct (Js.truthy value) eqn:Hv. Qed.

Lemma parseEnv_outcome (env : ProcessEnv) :
  outcome (parseEnv env) =
  Returned {| env_accessToken := given (env !! "SENTRY_ACCESS_TOKEN");
              env_url := given (env !! "SENTRY_URL");
              env_host := given (env !! "SENTRY_HOST");
              env_mcpUrl := given (env !! "MCP_URL");
              env_sentryDsn :=
                given (or_else (env !! "SENTRY_DSN") (env !! "DEFAULT_SENTRY_DSN"));
              env_openaiModel := given (env !! "OPENAI_MODEL");
              env_scopes := given (env !! "MCP_SCOPES");
              env_addScopes := given (env !! "MCP_ADD_SCOPES");
              env_skills := given (env !! "MCP_SKILLS") |}.
Proof.
  unfold parseEnv.
  by destruct (Js.truthy (env !! "MCP_SCOPES")), (Js.truthy (env !! "MCP_ADD_SCOPES")).
Qed.

(** X11.  [parseEnv] always returns; no field of its result is the empty
    string (a variable set to nothing counts as not set); the DSN falls
    back on [DEFAULT_SENTRY_DSN]; and it warns exactly when one of the two
    legacy variables has a value. *)
Theorem parseEnv_fields (env : ProcessEnv) :
  ∃ parsed, outcome (parseEnv env) = Returned parsed ∧
    Forall (λ field, field ≠ Some "")
      [ env_accessToken parsed; env_url parsed; env_host parsed; env_mcpUrl parsed;
        env_sentryDsn parsed; env_openaiModel parsed; env_scopes parsed;
        env_addScopes parsed; env_skills parsed ] ∧
    (Js.truthy (env !! "SENTRY_DSN") = false →
       env_sentryDsn parsed = given (env !! "DEFAULT_SENTRY_DSN")) ∧
    (warnings (parseEnv env) = [] ↔
       Js.truthy (env !! "MCP_SCOPES") = false ∧ Js.truthy (env !! "MCP_ADD_SCOPES") = false).
Proof.
  eexists. split; [apply parseEnv_outcome|]. cbn [env_accessToken env_url env_host
    env_mcpUrl env_sentryDsn env_openaiModel env_scopes env_addScopes env_skills].
  split_and!.
  - repeat constructor; intros [_ ?]%given_Some; done.
  - intros Hdsn. unfold or_else. by rewrite Hdsn.
  - unfold parseEnv.
    destruct (Js.truthy (env !! "MCP_SCOPES")), (Js.truthy (env !! "MCP_ADD_SCOPES"));
      simpl; naive_solver.
Qed.

Section finalize.
Context `{UrlUtils}.

Lemma finalize_scopes_all input :
  Js.truthyb (allScopes input) = true →
  outcome (finalize_scopes input) = Returned (Some (list_to_set ALL_SCOPES)).
Proof. intros Hall. unfold finalize_scopes. by rewrite Hall. Qed.

Lemma ALL_SCOPES_closed :
  (list_to_set ALL_SCOPES : gset Scope) ≠ ∅ ∧
  expandScopes (list_to_set ALL_SCOPES) = list_to_set ALL_SCOPES.
Proof.
  split.
  - apply (non_empty_inhabited_L org_read), elem_of_list_to_set.
    apply TokenFacts.ALL_SCOPES_complete.
  - apply set_eq. intros x. split; [|apply expandScopes_extensive].
    intros _. apply elem_of_list_to_set, TokenFacts.ALL_SCOPES_complete.
Qed.

Lemma ALL_SKILLS_nonempty : (list_to_set ALL_SKILLS : gset Skill) ≠ ∅.
Proof. apply (non_empty_inhabited_L "inspect"). set_solver. Qed.

Lemma size_not_zero `{Countable K} (X : gset K) : size X ≠ 0 → X ≠ ∅.
Proof. intros Hsize ->. by apply Hsize. Qed.

(** X12.  A configuration that [finalize] returns never grants nothing: the
    access token is not empty; the skills grant is there and not empty;
    the scopes grant is missing exactly when no scope flag has a value,
    and otherwise is not empty and closed under the scope hierarchy. *)
Theorem finalize_never_grants_nothing input cfg :
  outcome (finalize input) = Returned cfg →
  cfg_accessToken cfg ≠ "" ∧
  (∃ S, finalSkills cfg = Some S ∧ S ≠ ∅) ∧
  (finalScopes cfg = None ↔
     Js.truthyb (allScopes input) = false ∧ Js.truthy (scopes input) = false ∧
     Js.truthy (addScopes input) = false) ∧
  (∀ G, finalScopes cfg = Some G → G ≠ ∅ ∧ expandScopes G = G).
Proof.
  intros (Htok & h & sc & sk & oa & _ & Hsc & Hsk & _ & ->)%finalize_returns_iff.
  cbn [cfg_accessToken finalSkills finalScopes].
  assert (∀ v : gset Scope, size v ≠ 0 → expandScopes v ≠ ∅) as Hnonempty.
  { intros v Hv%size_not_zero Hempty. apply Hv, set_eq. intros x.
    split; [|by intros ?%elem_of_empty].
    intros Hx%expandScopes_extensive. rewrite Hempty in Hx. by apply elem_of_empty in Hx. }
  split_and!.
  - apply JsFacts.truthy_Some in Htok as (t & -> & ?). done.
  - rewrite finalize_skills_outcome in Hsk.
    destruct (Js.truthy (skills input)).
    + cbv zeta in Hsk. repeat case_bool_decide; [done..|].
      injection Hsk as <-. eexists. split; [done|]. by apply size_not_zero.
    + injection Hsk as <-. eexists. split; [done|]. exact ALL_SKILLS_nonempty.
  - destruct (Js.truthyb (allScopes input)) eqn:Hall.
    + rewrite (finalize_scopes_all _ Hall) in Hsc. injection Hsc as <-.
      split; [done | by intros (? & _)].
    + rewrite (finalize_scopes_outcome _ Hall) in Hsc. cbv zeta in Hsc.
      destruct (Js.truthy (scopes input)); [|destruct (Js.truthy (addScopes input))].
      * repeat case_bool_decide; [done..|]. injection Hsc as <-.
        split; [done | by intros (_ & ? & _)].
      * repeat case_bool_decide; [done..|]. injection Hsc as <-.
        split; [done | by intros (_ & _ & ?)].
      * by injection Hsc as <-.
  - intros G ->.
    destruct (Js.truthyb (allScopes input)) eqn:Hall.
    + rewrite (finalize_scopes_all _ Hall) in Hsc. injection Hsc as <-.
      exact ALL_SCOPES_closed.
    + rewrite (finalize_scopes_outcome _ Hall) in Hsc. cbv zeta in Hsc.
      destruct (Js.truthy (scopes input)); [|destruct (Js.truthy (addScopes input))].
      * repeat case_bool_decide; [done..|].
        cbn [resolveScopes] in Hsc. injection Hsc as <-.
        split; [by apply Hnonempty | apply expandScopes_closed].
      * repeat case_bool_decide; [done..|].
        cbn [resolveScopes] in Hsc. cbv zeta in Hsc. rewrite resolveScopes_base in Hsc.
        injection Hsc as <-. split; [|apply expandScopes_closed].
        apply (non_empty_inhabited_L org_read).
        apply expandScopes_extensive. set_solver.
      * done.
Qed.

End finalize.

Lemma finalize_never_grants_nothing_witness :
  ∃ cfg,
    outcome (finalize (H := refusing_url_utils)
               (args (Some "t") None (Some "event:write") None None)) = Returned cfg ∧
    cfg_accessToken cfg ≠ "" ∧ finalScopes cfg ≠ None.
Proof.
  eexists. split; [reflexivity|].
  destruct (finalize_never_grants_nothing (H := refusing_url_utils)
              (args (Some "t") None (Some "event:write") None None) _ eq_refl)
    as (Htoken & _ & Hnone & _).
  split; [exact Htoken|]. intros Hno. by destruct (proj1 Hnone Hno) as (_ & _ & ?).
Defined.

Section configuration.
Context `{UrlUtils}.

(** The configuration is [finalize] on the merge with what [parseEnv]
    returns, after the warnings of [parseEnv]. *)
Lemma configuration_outcome cli env :
  ∃ parsed,
    outcome (parseEnv env) = Returned parsed ∧
    outcome (configuration cli env) = outcome (finalize (merge cli parsed)) ∧
    warnings (configuration cli env) =
      (warnings (parseEnv env) ++ warnings (finalize (merge cli parsed)))%list ∧
    env_accessToken parsed = given (env !! "SENTRY_ACCESS_TOKEN") ∧
    env_openaiModel parsed = given (env !! "OPENAI_MODEL") ∧
    env_skills parsed = given (env !! "MCP_SKILLS").
Proof.
  eexists. split; [apply parseEnv_outcome|].
  unfold configuration, mbind, run_bind. rewrite parseEnv_outcome. done.
Qed.

Lemma merge_accessToken cli parsed :
  Cli.accessToken (merge cli parsed) =
    Js.nullish (cli_accessToken cli) (env_accessToken parsed).
Proof.
  unfold merge. by destruct (Js.truthy (cli_scopes cli)), (Js.truthy (cli_addScopes cli)).
Qed.

Lemma merge_skills cli parsed :
  Cli.skills (merge cli parsed) = Js.nullish (cli_skills cli) (env_skills parsed).
Proof.
  unfold merge. by destruct (Js.truthy (cli_scopes cli)), (Js.truthy (cli_addScopes cli)).
Qed.

Lemma merge_openai cli parsed :
  Cli.openaiBaseUrl (merge cli parsed) = cli_openaiBaseUrl cli ∧
  Cli.openaiModel (merge cli parsed) =
    Js.nullish (cli_openaiModel cli) (env_openaiModel parsed).
Proof.
  unfold merge. by destruct (Js.truthy (cli_scopes cli)), (Js.truthy (cli_addScopes cli)).
Qed.

(** X14.  For a command line whose flags are of their declared type,
    strings or undefined: the access token of a configuration that is
    returned is not empty; it is the flag's value when the flag is given
    at all, and the variable's otherwise, and it is the token of the
    server's context.  A flag given with an empty value is not replaced by
    the variable: the configuration then fails with the missing-token
    error, as it does when neither is there, with no warning but those
    of [parseEnv]. *)
Theorem stdio_access_token (cli : CliArgs) (env : ProcessEnv) :
  let token := Js.nullish (cli_accessToken cli) (env !! "SENTRY_ACCESS_TOKEN") in
  (∀ cfg, outcome (configuration cli env) = Returned cfg →
     cfg_accessToken cfg ≠ "" ∧ token = Some (cfg_accessToken cfg) ∧
     ∀ env', Server.accessToken (context (serving cfg env')) = cfg_accessToken cfg) ∧
  (Js.truthy token = false →
     outcome (configuration cli env) = Thrown NO_ACCESS_TOKEN ∧
     warnings (configuration cli env) = warnings (parseEnv env)).
Proof.
  intros token. subst token.
  destruct (configuration_outcome cli env)
    as (parsed & Hparsed & Houtcome & Hwarnings & Htoken & _).
  assert (Js.truthy (Cli.accessToken (merge cli parsed)) =
            Js.truthy (Js.nullish (cli_accessToken cli) (env !! "SENTRY_ACCESS_TOKEN")) ∧
          (Js.truthy (Cli.accessToken (merge cli parsed)) = true →
           Cli.accessToken (merge cli parsed) =
             Js.nullish (cli_accessToken cli) (env !! "SENTRY_ACCESS_TOKEN")))
    as [Htruthy Hsame].
  { rewrite merge_accessToken, Htoken.
    destruct (cli_accessToken cli) as [t|]; [done|]. cbn [Js.nullish].
    rewrite truthy_given. split; [done|]. intros Htrue. unfold given. by rewrite Htrue. }
  split.
  - intros cfg Hcfg. rewrite Houtcome in Hcfg.
    apply finalize_returns_iff in Hcfg as (Htok & ? & ? & ? & ? & _ & _ & _ & _ & ->).
    cbn [context serving context_of Server.accessToken cfg_accessToken].
    rewrite <- (Hsame Htok).
    apply JsFacts.truthy_Some in Htok as (t & -> & ?). done.
  - intros Hmissing. rewrite Hmissing in Htruthy. rewrite Houtcome, Hwarnings.
    unfold finalize. rewrite Htruthy. cbn [negb throw outcome warnings].
    by rewrite app_nil_r.
Qed.

Lemma configuration_grantedSkills cli env cfg :
  outcome (configuration cli env) = Returned cfg →
  let value := Js.nullish (cli_skills cli) (given (env !! "MCP_SKILLS")) in
  finalSkills cfg =
    Some (if Js.truthy value then Skills.valid (parseSkills (Js.UString (the value)))
          else list_to_set ALL_SKILLS).
Proof.
  destruct (configuration_outcome cli env) as (parsed & _ & -> & _ & _ & _ & Hskills).
  intros (_ & ? & ? & sk & ? & _ & _ & Hsk & _ & ->)%finalize_returns_iff value.
  cbn [finalSkills].
  rewrite finalize_skills_outcome, merge_skills, Hskills in Hsk.
  fold value in Hsk. destruct (Js.truthy value); [|by injection Hsk as <-].
  cbv zeta in Hsk. repeat case_bool_decide; [done..|]. by injection Hsk as <-.
Qed.

(** X15.  The tools a stdio server registers follow from the skills value
    alone ([--skills], else [MCP_SKILLS]): two runs that reach
    [buildServer] and agree on it register the same tools of any
    catalog, or fail on the same tool, whatever their scope flags and
    variables, constraints and tokens are. *)
Theorem stdio_registration_follows_skills `{Helpers}
    (cli cli' : CliArgs) (env env' : ProcessEnv) cfg cfg'
    (tools : list (string * ToolConfig)) :
  outcome (configuration cli env) = Returned cfg →
  outcome (configuration cli' env') = Returned cfg' →
  Js.nullish (cli_skills cli) (given (env !! "MCP_SKILLS")) =
    Js.nullish (cli_skills cli') (given (env' !! "MCP_SKILLS")) →
  registered_names (buildServer (context (serving cfg env)) tools) =
    registered_names (buildServer (context (serving cfg' env')) tools).
Proof.
  intros Hs%configuration_grantedSkills Hs'%configuration_grantedSkills Hvalue.
  cbv zeta in Hs, Hs'. rewrite <- Hvalue in Hs'.
  apply ServerFacts.configureServer_names_agree; [done|].
  intros tool. unfold allowed. cbn [context serving context_of grantedSkills].
  by rewrite Hs, Hs'.
Qed.

(** X16.  For a command line whose flags are of their declared type,
    strings or undefined: what a process that reaches [buildServer] has
    set up for the embedded agents.  The base URL comes from the flag
    [--openai-base-url] alone, as the validator returned it, and no
    variable of the environment sets it.  The model used by default is
    the flag [--openai-model] if it has a value, else the variable
    [OPENAI_MODEL] if it has one, else [gpt-5]. *)
Theorem stdio_openai_settings (cli : CliArgs) (env : ProcessEnv) cfg :
  outcome (configuration cli env) = Returned cfg →
  let s := serving cfg env in
  (configuredBaseUrl s = None ↔ Js.truthy (cli_openaiBaseUrl cli) = false) ∧
  (∀ url, configuredBaseUrl s = Some url →
     validateOpenAiBaseUrlThrows (the (cli_openaiBaseUrl cli)) = Returned url) ∧
  (∀ userAgent model m,
     getOpenAIModel userAgent (configuredBaseUrl s) (process_env s) model = Returned m →
     baseURL m = given (configuredBaseUrl s) ∧
     modelId m =
       default (if Js.truthy (cli_openaiModel cli) then the (cli_openaiModel cli)
                else if Js.truthy (env !! "OPENAI_MODEL") then the (env !! "OPENAI_MODEL")
                else DEFAULT_OPENAI_MODEL) model).
Proof.
  destruct (configuration_outcome cli env) as (parsed & _ & -> & _ & _ & Hvariable & _).
  intros (_ & ? & ? & ? & oa & _ & _ & _ & Hoa & ->)%finalize_returns_iff s. subst s.
  cbn [serving configuredBaseUrl process_env cfg_openaiBaseUrl cfg_openaiModel].
  destruct (merge_openai cli parsed) as [Hbase Hmodel].
  rewrite Hmodel, Hvariable.
  unfold finalize_openaiBaseUrl in Hoa. rewrite Hbase in Hoa.
  split_and!.
  - destruct (Js.truthy (cli_openaiBaseUrl cli)); [|by injection Hoa as <-].
    unfold lift in Hoa. rewrite outcome_bind in Hoa. cbn [outcome] in Hoa.
    destruct (validateOpenAiBaseUrlThrows _); [|done]. by injection Hoa as <-.
  - intros url ->. destruct (Js.truthy (cli_openaiBaseUrl cli)); [|done].
    unfold lift in Hoa. rewrite outcome_bind in Hoa. cbn [outcome] in Hoa.
    destruct (validateOpenAiBaseUrlThrows _); [|done]. by injection Hoa as ->.
  - intros userAgent model m Hm.
    assert (∀ process_env' defaultModel,
              default "" (or_else (process_env' !! "OPENAI_MODEL") (Some DEFAULT_OPENAI_MODEL))
                = defaultModel →
              getOpenAIModel userAgent oa process_env' model = Returned m →
              baseURL m = given oa ∧ modelId m = default defaultModel model) as Hget.
    { intros process_env' defaultModel <-. unfold getOpenAIModel.
      destruct (process_env' !! "OPENAI_REASONING_EFFORT") as [[|a effort]|];
        [by intros [= <-] | | by intros [= <-]].
      case_bool_decide; [by intros [= <-] | done]. }
    eapply Hget; [|exact Hm]. clear Hget Hm Hoa.
    destruct (cli_openaiModel cli) as [flag|]; cbn [Js.nullish].
    + destruct (Js.truthy (Some flag)) eqn:Hflag.
      * change (the (Some flag)) with flag. rewrite lookup_insert_eq.
        unfold or_else. by rewrite Hflag.
      * unfold or_else. by destruct (Js.truthy (env !! "OPENAI_MODEL")).
    + rewrite truthy_given. cbn [Js.truthy].
      destruct (Js.truthy (env !! "OPENAI_MODEL")) eqn:Hvar.
      * rewrite lookup_insert_eq. unfold given. rewrite Hvar.
        destruct (env !! "OPENAI_MODEL") as [v|]; [|done].
        change (the (Some v)) with v. unfold or_else. by rewrite Hvar.
      * unfold or_else. by rewrite Hvar.
Qed.

End configuration.

(** [--scopes=org:read] against [--all-scopes], both without a skills
    value. *)
Lemma stdio_registration_follows_skills_witness :
  ∃ cfg cfg',
    outcome (configuration (H := refusing_url_utils)
               (StdioSamples.flags (Some "t") (Some "org:read") None None None None) ∅)
      = Returned cfg ∧
    outcome (configuration (H := refusing_url_utils)
               (StdioSamples.flags (Some "u") None None None None (Some true)) ∅)
      = Returned cfg' ∧
    registered_names
      (buildServer (H := spec_helpers) (context (serving cfg ∅)) StdioSamples.catalog) =
    registered_names
      (buildServer (H := spec_helpers) (context (serving cfg' ∅)) StdioSamples.catalog).
Proof.
  do 2 eexists.
  match goal with |- ?run ∧ ?run' ∧ _ =>
    assert run as Hrun by reflexivity; assert run' as Hrun' by reflexivity end.
  split_and!; [exact Hrun | exact Hrun' |].
  exact (stdio_registration_follows_skills (H := refusing_url_utils) (H0 := spec_helpers)
           _ _ _ _ _ _ StdioSamples.catalog Hrun Hrun' eq_refl).
Defined.

(** [--openai-base-url=https://proxy.example.com/v1] beside the variable
    [OPENAI_MODEL=o1-mini]. *)
Lemma stdio_openai_settings_witness :
  ∃ cfg,
    outcome (configuration (H := StdioSamples.accepting_url_utils)
               (StdioSamples.flags (Some "t") None None
                  (Some "https://proxy.example.com/v1") None None)
               {[ "OPENAI_MODEL" := "o1-mini" ]}) = Returned cfg ∧
    ∀ m, getOpenAIModel "sentry-mcp"
           (configuredBaseUrl (serving cfg {[ "OPENAI_MODEL" := "o1-mini" ]}))
           (process_env (serving cfg {[ "OPENAI_MODEL" := "o1-mini" ]})) None = Returned m →
         baseURL m = Some "https://proxy.example.com/v1" ∧ modelId m = "o1-mini".
Proof.
  eexists.
  match goal with |- ?run ∧ _ => assert run as Hrun by reflexivity end.
  split; [exact Hrun|]. intros m Hm.
  destruct (stdio_openai_settings (H := StdioSamples.accepting_url_utils) _ _ _ Hrun)
    as (_ & _ & Hget).
  destruct (Hget _ _ _ Hm) as [-> ->]. split; reflexivity.
Defined.

(** The flag [--access-token=] with no value, beside a token in the
    environment. *)
Lemma stdio_access_token_witness :
  outcome (configuration (H := refusing_url_utils)
             (StdioSamples.flags (Some "") None None None None None)
             {[ "SENTRY_ACCESS_TOKEN" := "token" ]}) = Thrown NO_ACCESS_TOKEN.
Proof.
  destruct (stdio_access_token (H := refusing_url_utils)
              (StdioSamples.flags (Some "") None None None None None)
              {[ "SENTRY_ACCESS_TOKEN" := "token" ]}) as (_ & Hmissing).
  by destruct (Hmissing eq_refl).
Defined.

End StdioFacts.

(** ** The OpenAI provider *)

Module OpenAIFacts.
Import Run CliEnv OpenAI.

(** X17.  [getOpenAIModel] reads the reasoning effort from
    [OPENAI_REASONING_EFFORT]: not set means ["low"], set to nothing means
    no effort setting, one of the three valid values is passed on, and any
    other value makes it throw an error that quotes the value.  The base
    URL it passes is the configured one, if that has a value, whatever the
    environment holds. *)
Theorem getOpenAIModel_settings
    (userAgent : string) (configuredBaseUrl : option string) (process_env : ProcessEnv)
    (model : option string) :
  let effort := process_env !! "OPENAI_REASONING_EFFORT" in
  let result := getOpenAIModel userAgent configuredBaseUrl process_env model in
  ((∃ m, result = Returned m) ↔
     effort ∈ [None; Some ""; Some "low"; Some "medium"; Some "high"]) ∧
  (∀ m, result = Returned m →
     reasoningEffort m =
       match effort with None => Some "low" | Some value => given (Some value) end ∧
     baseURL m = given configuredBaseUrl ∧
     user_agent m = userAgent) ∧
  (∀ value, effort = Some value → value ∉ [""; "low"; "medium"; "high"] →
     result = Thrown (INVALID_REASONING_EFFORT value) ∧
     Js.occurs_in (quoted value) (INVALID_REASONING_EFFORT value)).
Proof.
  intros effort result. subst effort result. unfold getOpenAIModel.
  destruct (process_env !! "OPENAI_REASONING_EFFORT") as [[|a rest]|] eqn:Heffort.
  - split_and!.
    + split; [intros _ | intros _; by eexists].
      apply list_elem_of_further, list_elem_of_here.
    + intros m [= <-]. by split_and!.
    + intros ? [= <-] Hnot. destruct Hnot. apply list_elem_of_here.
  - set (value := String a rest). assert (value ≠ "") as Hvalue by done.
    clearbody value. case_bool_decide as Hvalid.
    + split_and!.
      * split; [intros _ | intros _; by eexists].
        do 2 apply list_elem_of_further.
        by apply (list_elem_of_fmap_2 Some) in Hvalid.
      * intros m [= <-]. cbn [reasoningEffort baseURL user_agent]. split_and!; [|done..].
        unfold given. cbn [Js.truthy]. by rewrite bool_decide_eq_false_2.
      * intros ? [= <-] Hnot. destruct Hnot.
        apply list_elem_of_further. exact Hvalid.
    + split_and!.
      * split; [by intros [m ?]|]. intros Hin. destruct Hvalid.
        apply elem_of_cons in Hin as [?|Hin]; [done|].
        apply elem_of_cons in Hin as [[= ?]|Hin]; [done|].
        change (Some value ∈ Some <$> VALID_REASONING_EFFORTS) in Hin.
        apply list_elem_of_fmap in Hin as (? & [= <-] & ?). done.
      * done.
      * intros ? [= <-] _. split; [done|].
        unfold INVALID_REASONING_EFFORT.
        exists "Invalid OPENAI_REASONING_EFFORT value: ". eexists. reflexivity.
  - split_and!.
    + split; [intros _ | intros _; by eexists]. apply list_elem_of_here.
    + intros m [= <-]. by split_and!.
    + done.
Qed.

End OpenAIFacts.

(** ** More on the registration gate *)

Module GateFacts.
Import Permissions Skills Run Server PermissionsFacts ScopeFacts ServerFacts.

Section gate.
Context `{Helpers}.

(** X18.  A larger grant never hides a tool.  Under skills, a tool exposed for
    a grant is exposed for every grant that contains it; under scopes, for
    every grant that implies it. *)
Theorem exposure_monotone (context context' : ServerContext) (tool : ToolConfig) :
  (∀ skills, grantedSkills context = Some skills →
     ∃ skills', grantedSkills context' = Some skills' ∧ skills ⊆ skills') →
  (grantedSkills context = None →
     grantedSkills context' = None ∧
     ∀ scopes, grantedScopes context = Some scopes →
       ∃ scopes', grantedScopes context' = Some scopes' ∧ scopes ⊆ expandScopes scopes') →
  exposed context tool → exposed context' tool.
Proof.
  rewrite !exposed_allowed. unfold allowed. intros Hskills Hscopes.
  destruct (grantedSkills context) as [skills|].
  - destruct (Hskills skills eq_refl) as (skills' & -> & Hsub).
    destruct (requiredSkills tool) as [[|first required]|]; [done| |done].
    rewrite !hasRequiredSkills_spec. intros [? (skill & ? & ?)].
    split; [done|]. exists skill. split; [done|]. by apply Hsub.
  - destruct (Hscopes eq_refl) as [-> Hgrant].
    destruct (grantedScopes context) as [scopes|]; [|done].
    destruct (Hgrant scopes eq_refl) as (scopes' & -> & Hsub).
    rewrite !isToolAllowed_spec. intros Hall scope Hscope.
    by apply (expandScopes_absorbs scopes scopes' Hsub), Hall.
Qed.

(** X19.  What [configureServer] does to a server for a catalog.  It
    registers each tool the gate lets through, in catalog order, under
    the tool's own name (the catalog key plays no part), with the
    declared parameters, in order, without those
    [getConstraintKeysToFilter] names.  It returns exactly when these
    names are distinct and new to the server; otherwise it throws the
    error of [server.tool] for a tool the gate let through, and the tools
    after it are not registered.  Catalogs put one after the other
    register one after the other.  A catalog of distinct names is always
    registered on a new server. *)
Theorem configureServer_registers
    (context : ServerContext) (server : McpServer)
    (tools tools' : list (string * ToolConfig)) :
  let passing := List.filter (allowed context) tools.*2 in
  configureServer server context (tools ++ tools') =
    match configureServer server context tools with
    | Returned server' => configureServer server' context tools'
    | Thrown error => Thrown error
    end ∧
  (∀ server',
     configureServer server context tools = Returned server' ↔
     server' = (server ++ (toolRegistration context <$> passing))%list ∧
     NoDup (name <$> passing) ∧
     ∀ tool, tool ∈ passing → name tool ∉ reg_name <$> server) ∧
  (∀ error,
     configureServer server context tools = Thrown error →
     ¬ (NoDup (name <$> passing) ∧
        ∀ tool, tool ∈ passing → name tool ∉ reg_name <$> server) ∧
     ∃ tool, tool ∈ tools.*2 ∧ allowed context tool = true ∧
             error = "Tool " +:+ name tool +:+ " is already registered") ∧
  (name <$> passing) `sublist_of` (name <$> tools.*2) ∧
  (∀ tool,
     reg_name (toolRegistration context tool) = name tool ∧
     reg_inputSchema (toolRegistration context tool) `sublist_of` inputSchema tool ∧
     ∀ key, key ∈ reg_inputSchema (toolRegistration context tool) ↔
            key ∈ inputSchema tool ∧
            key ∉ getConstraintKeysToFilter (constraints context) (inputSchema tool)) ∧
  (NoDup (name <$> tools.*2) →
     buildServer context tools = Returned (toolRegistration context <$> passing)).
Proof.
  intros passing. subst passing. split_and!.
  - apply configureServer_append.
  - intros server'. apply configureServer_returns.
  - intros error Hthrown. split.
    + intros Hfresh.
      assert (configureServer server context tools =
                Returned (server ++ (toolRegistration context <$>
                                       List.filter (allowed context) tools.*2))%list)
        as Hreturned by by apply configureServer_returns.
      congruence.
    + apply configureServer_throws in Hthrown as (tool & Hin & ->).
      apply list_elem_of_In, filter_In in Hin as [Hin%list_elem_of_In Hallowed].
      by exists tool.
  - apply fmap_sublist, filter_sublist.
  - intros tool. cbn [toolRegistration reg_name reg_inputSchema]. split_and!; [done | |].
    + apply filter_sublist.
    + intros key. rewrite list_elem_of_In, filter_In, <- list_elem_of_In.
      rewrite negb_true_iff, bool_decide_eq_false, elem_of_list_to_set. done.
  - intros Hnodup. apply configureServer_returns. split_and!; [done | |].
    + eapply sublist_NoDup; [exact Hnodup|]. apply fmap_sublist, filter_sublist.
    + intros tool _ Hin. by apply elem_of_nil in Hin.
Qed.

End gate.

(** The triage tool under the grant of triage alone and under a grant
    that adds the documentation skill. *)
Lemma exposure_monotone_witness :
  exposed (H := spec_helpers)
    (Samples.context (Some {[ "triage"; "docs" ]}) None None) Samples.triageTool.
Proof.
  apply (exposure_monotone (H := spec_helpers)
           (Samples.context (Some {[ "triage" ]}) None None)
           (Samples.context (Some {[ "triage"; "docs" ]}) None None)).
  - intros skills [= <-]. eexists. split; [reflexivity | set_solver].
  - discriminate.
  - apply exposed_allowed. reflexivity.
Defined.

(** The mock tool under two catalog keys.  Under a scope grant the gate
    lets it through, and the second registration throws; under a skills
    grant the gate holds it back, and the server is built. *)
Lemma configureServer_registers_witness :
  buildServer (H := spec_helpers) (Samples.context None (Some ∅) None)
    [("first", Samples.mockTool); ("second", Samples.mockTool)]
    = Thrown "Tool mock_tool is already registered" ∧
  buildServer (H := spec_helpers) (Samples.context (Some {[ "triage" ]}) None None)
    [("first", Samples.mockTool); ("second", Samples.mockTool)]
    = Returned [].
Proof.
  split.
  - destruct (buildServer (H := spec_helpers) (Samples.context None (Some ∅) None)
                [("first", Samples.mockTool); ("second", Samples.mockTool)])
      as [server|error] eqn:Hbuilt.
    + exfalso.
      destruct (configureServer_registers (H := spec_helpers)
                  (Samples.context None (Some ∅) None) []
                  [("first", Samples.mockTool); ("second", Samples.mockTool)] [])
        as (_ & Hreturns & _).
      apply Hreturns in Hbuilt as (_ & Hnodup & _).
      apply NoDup_cons in Hnodup as [Hnew _]. apply Hnew, list_elem_of_here.
    + destruct (configureServer_registers (H := spec_helpers)
                  (Samples.context None (Some ∅) None) []
                  [("first", Samples.mockTool); ("second", Samples.mockTool)] [])
        as (_ & _ & Hthrows & _).
      destruct (Hthrows error Hbuilt) as (_ & tool & Hin & _ & ->).
      cbn in Hin. by repeat (apply elem_of_cons in Hin as [->|Hin]; [done|]);
        apply elem_of_nil in Hin.
  - destruct (configureServer_registers (H := spec_helpers)
                (Samples.context (Some {[ "triage" ]}) None None) []
                [("first", Samples.mockTool); ("second", Samples.mockTool)] [])
      as (_ & Hreturns & _).
    apply Hreturns. split_and!; [done | constructor | by intros ? ?%elem_of_nil].
Defined.

End GateFacts.

(** ** The OAuth flow, step by step *)

Module OAuthFlowFacts.
Import OAuth OAuthRequests OAuthFacts.

Lemma answered_fields (l : list Reply) (w : World) :
  port_bound (answered l w) = port_bound w ∧
  this_server (answered l w) = this_server w ∧
  client_ids (answered l w) = client_ids w ∧
  access_tokens (answered l w) = access_tokens w ∧
  sent (answered l w) = sent w ∧
  opened (answered l w) = opened w ∧
  replies (answered l w) = (replies w ++ l)%list.
Proof.
  revert w. induction l as [|reply l IH]; intros w.
  - cbn. by rewrite app_nil_r.
  - change (answered (reply :: l) w) with (answered l (record_reply reply w)).
    destruct (IH (record_reply reply w)) as (-> & -> & -> & -> & -> & -> & ->).
    cbn. by rewrite <- app_assoc.
Qed.

Lemma waitForCallback_world (arriving : list Incoming) (w : World) :
  run (waitForCallback arriving) w = (settlement arriving, answered (served arriving) w).
Proof.
  revert w. induction arriving as [|req later IH]; intros w; [done|].
  cbn [waitForCallback settlement served].
  destruct (handleRequest true req) as [reply [[v|e|]|]];
    rewrite run_bind; cbn [run modify fst snd answered foldl];
    cbn [run mret async_ret throw]; try done; apply IH.
Qed.

Lemma answered_port_bound l w : port_bound (answered l w) = port_bound w.
Proof. apply answered_fields. Qed.
Lemma answered_this_server l w : this_server (answered l w) = this_server w.
Proof. apply answered_fields. Qed.
Lemma answered_client_ids l w : client_ids (answered l w) = client_ids w.
Proof. apply answered_fields. Qed.
Lemma answered_access_tokens l w : access_tokens (answered l w) = access_tokens w.
Proof. apply answered_fields. Qed.
Lemma answered_sent l w : sent (answered l w) = sent w.
Proof. apply answered_fields. Qed.
Lemma answered_opened l w : opened (answered l w) = opened w.
Proof. apply answered_fields. Qed.

Ltac world_simpl :=
  repeat first
    [ progress cbn [port_bound this_server client_ids access_tokens sent replies opened
                    record_sent record_reply record_opened with_listener with_client_ids
                    with_access_tokens fst snd]
    | rewrite answered_port_bound | rewrite answered_this_server
    | rewrite answered_client_ids | rewrite answered_access_tokens
    | rewrite answered_sent | rewrite answered_opened ].

Ltac world_simpl_in H :=
  repeat first
    [ progress cbn [port_bound this_server client_ids access_tokens sent replies opened
                    record_sent record_reply record_opened with_listener with_client_ids
                    with_access_tokens fst snd] in H
    | rewrite answered_port_bound in H | rewrite answered_this_server in H
    | rewrite answered_client_ids in H | rewrite answered_access_tokens in H
    | rewrite answered_sent in H | rewrite answered_opened in H ].

Lemma handleRequest_stray (req : Incoming) : (handleRequest true req).2 = None ↔ stray req.
Proof.
  destruct req as [|pathname params]; cbn [handleRequest stray snd]; [done|].
  case_bool_decide as Hpath; [|done].
  split; [|done].
  destruct (Js.truthy (searchParams_get params "error")); [done|].
  by destruct (negb _ || negb _).
Qed.

Lemma handleRequest_never_pending (waiting : bool) (req : Incoming) :
  (handleRequest waiting req).2 ≠ Some Pending.
Proof.
  destruct req as [|pathname params]; cbn [handleRequest snd]; [done|].
  case_bool_decide; [|done].
  destruct (Js.truthy (searchParams_get params "error")); [by destruct waiting|].
  by destruct (negb _ || negb _), waiting.
Qed.

(** Before the flow waits the listener calls nothing, and replies as it
    does afterwards. *)
Lemma handleRequest_early (req : Incoming) :
  (handleRequest false req).2 = None ∧
  (handleRequest false req).1 = (handleRequest true req).1.
Proof.
  destruct req as [|pathname params]; cbn [handleRequest fst snd]; [done|].
  case_bool_decide; [|done].
  destruct (Js.truthy (searchParams_get params "error")); [done|].
  by destruct (negb _ || negb _).
Qed.

(** X20.  The request listener, on a request as it comes.  It throws,
    before any reply, exactly when [req.url] is there and [new URL]
    cannot parse it; to a missing or empty [req.url] it answers 400.
    Otherwise it answers 200 exactly to a request for the callback path
    that has a code and a state and no error, 404 exactly to a request
    for another path, and 400 to the rest, the same whether the flow is
    waiting or not.  It calls on the callback promise only once the flow
    waits, and then exactly on a request for the callback path: it hands
    the code and the state over exactly when it answers 200, and rejects
    otherwise.  On the callback path an [error] parameter wins: the
    promise is rejected with it even when a code and a state are
    there. *)
Theorem requestListener_reply
    (parseUrl : string → option (string * list (string * string)))
    (waiting : bool) (url : option string) :
  (∀ error,
     requestListener parseUrl waiting url = Run.Thrown error ↔
     Js.truthy url = true ∧ parseUrl (default "" url) = None ∧ error = "Invalid URL") ∧
  (Js.truthy url = false →
     requestListener parseUrl waiting url =
       Run.Returned ({| status := 400; page := BadRequest |}, None)) ∧
  (∀ pathname params,
     Js.truthy url = true → parseUrl (default "" url) = Some (pathname, params) →
     let code := searchParams_get params "code" in
     let state := searchParams_get params "state" in
     let error := searchParams_get params "error" in
     ∃ reply settles,
       requestListener parseUrl waiting url = Run.Returned (reply, settles) ∧
       (∀ waiting', ∃ settles',
          requestListener parseUrl waiting' url = Run.Returned (reply, settles')) ∧
       status reply ∈ [200; 400; 404] ∧
       (status reply = 200 ↔
          pathname = "/callback" ∧ Js.truthy error = false ∧
          Js.truthy code = true ∧ Js.truthy state = true) ∧
       (status reply = 404 ↔ pathname ≠ "/callback") ∧
       (settles ≠ None ↔ waiting = true ∧ pathname = "/callback") ∧
       settles ≠ Some Pending ∧
       (∀ handed, settles = Some (Fulfilled handed) ↔
          waiting = true ∧ status reply = 200 ∧
          handed = (default "" code, default "" state)) ∧
       (∀ value, pathname = "/callback" → error = Some value → value ≠ "" →
          ∃ description,
            reply = {| status := 400; page := AuthenticationFailed value description |} ∧
            settles =
              (if waiting
               then Some (Rejected ("OAuth error: " +:+ value +:+ " - " +:+ description))
               else None) ∧
            (searchParams_get params "error_description" = Some description ∨
             description = "Unknown error"))).
Proof.
  split_and!.
  - intros error. unfold requestListener.
    destruct (Js.truthy url); cbn [negb]; [|split; [done | by intros [? _]]].
    destruct (parseUrl (default "" url)) as [[pathname params]|].
    + split; [done | by intros (_ & ? & _)].
    + split; [by intros [= <-] | by intros (_ & _ & ->)].
  - intros Hno. unfold requestListener. by rewrite Hno.
  - intros pathname params Hurl Hparsed code state error.
    assert (∀ waiting', requestListener parseUrl waiting' url =
              Run.Returned (handleRequest waiting' (Url pathname params))) as Hreturned.
    { intros waiting'. unfold requestListener. by rewrite Hurl, Hparsed. }
    exists (handleRequest waiting (Url pathname params)).1,
           (handleRequest waiting (Url pathname params)).2.
    split; [rewrite Hreturned; by destruct (handleRequest _ _)|].
    split.
    { intros waiting'. exists (handleRequest waiting' (Url pathname params)).2.
      rewrite Hreturned.
      rewrite (surjective_pairing (handleRequest waiting' (Url pathname params))) at 1.
      do 2 f_equal. destruct (handleRequest_early (Url pathname params)) as [_ Hreply].
      destruct waiting, waiting'; congruence. }
    cbn [handleRequest]. fold code state error.
    case_bool_decide as Hpath.
    2: { cbn [fst snd status]. split_and!; try done.
         - do 2 apply list_elem_of_further. apply list_elem_of_here.
         - split; [done | by intros (? & _)].
         - split; [done | by intros (_ & ?)].
         - intros handed. split; [done | by intros (_ & ? & _)]. }
    destruct (Js.truthy error) eqn:Herror.
    { cbn [fst snd status]. split_and!.
      - apply list_elem_of_further, list_elem_of_here.
      - split; [done | by intros (_ & ? & _)].
      - split; [done | done].
      - destruct waiting; naive_solver.
      - by destruct waiting.
      - intros handed. destruct waiting; (split; [done | by intros (_ & ? & _)]).
      - intros value _ Hvalue Hne. rewrite Hvalue. cbn [default].
        eexists. split_and!; [reflexivity | reflexivity |].
        destruct (searchParams_get params "error_description") as [d|]; cbn [Js.truthy];
          [|by right].
        case_bool_decide; cbn [negb]; [by right | by left]. }
    destruct (Js.truthy code) eqn:Hcode, (Js.truthy state) eqn:Hstate;
      cbn [negb orb fst snd status].
    1: { split_and!.
         - apply list_elem_of_here.
         - done.
         - split; [done | done].
         - destruct waiting; naive_solver.
         - by destruct waiting.
         - intros handed. destruct waiting.
           + split; [by intros [= <-] | by intros (_ & _ & ->)].
           + split; [done | by intros (? & _)].
         - intros value _ Hvalue Hne. subst error. rewrite Hvalue in Herror.
           apply negb_false_iff, bool_decide_eq_true in Herror. done. }
    all: split_and!;
      [ apply list_elem_of_further, list_elem_of_here
      | split; [done | by intros (_ & _ & ? & ?)]
      | split; [done | done]
      | destruct waiting; naive_solver
      | by destruct waiting
      | intros handed; destruct waiting; (split; [done | by intros (_ & ? & _)])
      | intros value _ Hvalue Hne; subst error; rewrite Hvalue in Herror;
        apply negb_false_iff, bool_decide_eq_true in Herror; done ].
Qed.

(** A target that does not parse; a callback before the flow waits, and
    the same once it waits. *)
Lemma requestListener_reply_witness :
  requestListener OAuthSamples.parseTarget true (Some "//") = Run.Thrown "Invalid URL" ∧
  requestListener OAuthSamples.parseTarget false
    (Some "/callback?code=code-1&state=state-1")
    = Run.Returned ({| status := 200; page := Processing |}, None) ∧
  requestListener OAuthSamples.parseTarget true
    (Some "/callback?code=code-1&state=state-1")
    = Run.Returned ({| status := 200; page := Processing |},
                    Some (Fulfilled ("code-1", "state-1"))).
Proof.
  split_and!.
  - destruct (requestListener_reply OAuthSamples.parseTarget true (Some "//"))
      as (Hthrows & _).
    by apply Hthrows.
  - destruct (requestListener_reply OAuthSamples.parseTarget false
                (Some "/callback?code=code-1&state=state-1")) as (_ & _ & Hparsed).
    specialize (Hparsed "/callback" [("code", "code-1"); ("state", "state-1")]
                  eq_refl eq_refl).
    cbv zeta in Hparsed. destruct Hparsed as (reply & settles & Hreturned & _).
    reflexivity.
  - reflexivity.
Defined.

(** X21.  The callback promise is settled by the first request for the
    callback path that the listener serves once the flow waits.
    Requests served before that, while [authenticate] still awaits the
    browser, are answered as they would be later and settle nothing, a
    well-formed callback among them included; requests for other paths
    never settle the promise; and whatever is served after the settling
    request has no say, a promise settling once.  So the promise is what
    [waitForCallback] awaits, and it stays pending exactly when every
    request served while waiting is stray. *)
Theorem settlement_first_callback (early arriving : list Incoming) :
  callbackPromise early arriving = settlement arriving ∧
  callbackPromise early [] = Pending ∧
  callbackReplies early arriving = callbackReplies [] (early ++ arriving) ∧
  (settlement arriving = Pending ↔ Forall stray arriving) ∧
  (∀ pre req post,
     arriving = (pre ++ req :: post)%list → Forall stray pre → ¬ stray req →
     callbackPromise early arriving = settlement [req] ∧ settlement [req] ≠ Pending).
Proof.
  assert (∀ l rest, Forall stray l → settlement (l ++ rest) = settlement rest) as Hskip.
  { intros l rest Hl. induction Hl as [|x l Hx%handleRequest_stray _ IH]; [done|].
    cbn [app settlement]. by rewrite Hx. }
  assert (∀ l, settlement l = Pending ↔ Forall stray l) as Hpending.
  { intros l. induction l as [|x l IH]; [done|].
    rewrite Forall_cons, <- IH, <- handleRequest_stray. cbn [settlement].
    pose proof (handleRequest_never_pending true x).
    destruct ((handleRequest true x).2) as [[?|?|]|]; naive_solver. }
  assert (foldl (λ promise req, settle promise (handleRequest false req).2) Pending early
          = Pending) as Hearly.
  { induction early as [|req early IH]; [done|].
    cbn [foldl]. destruct (handleRequest_early req) as [-> _]. exact IH. }
  assert (callbackPromise early arriving = settlement arriving) as Hpromise.
  { unfold callbackPromise. rewrite Hearly. clear.
    induction arriving as [|req later IH]; [done|].
    cbn [foldl settlement].
    pose proof (handleRequest_never_pending true req).
    destruct ((handleRequest true req).2) as [[v|e|]|]; cbn [settle]; [| |done|exact IH];
      clear IH; (induction later as [|req' later IH]; [done | exact IH]). }
  split_and!; [done | exact Hearly | | done |].
  - unfold callbackReplies. cbn [fmap list_fmap app]. rewrite fmap_app. f_equal.
    apply list_fmap_ext. intros _ req _. apply handleRequest_early.
  - intros pre req post -> Hpre Hreq. rewrite Hpromise, Hskip by done.
    split.
    + cbn [settlement]. pose proof (handleRequest_never_pending true req).
      assert ((handleRequest true req).2 ≠ None) by by rewrite handleRequest_stray.
      by destruct ((handleRequest true req).2) as [[?|?|]|].
    + intros Hp%Hpending. inversion Hp. done.
Qed.

(** The callback comes in before the flow waits, and only the icon is
    asked for afterwards: the browser is told that the authentication is
    being processed, and the flow stays pending.  The same callback once
    the flow waits settles it, whatever follows. *)
Lemma settlement_first_callback_witness :
  callbackPromise [ Url "/callback" [("code", "code-1"); ("state", "state-1")] ]
                  [ Url "/favicon.ico" [] ] = Pending ∧
  status <$> callbackReplies [ Url "/callback" [("code", "code-1"); ("state", "state-1")] ]
                             [ Url "/favicon.ico" [] ] = [200; 404] ∧
  callbackPromise []
    [ Url "/favicon.ico" [];
      Url "/callback" [("code", "code-1"); ("state", "state-1")];
      Url "/callback" [("code", "code-2"); ("state", "forged")] ]
  = Fulfilled ("code-1", "state-1").
Proof.
  split_and!.
  - destruct (settlement_first_callback
                [ Url "/callback" [("code", "code-1"); ("state", "state-1")] ]
                [ Url "/favicon.ico" [] ]) as (-> & _ & _ & Hpending & _).
    apply Hpending. repeat constructor. done.
  - reflexivity.
  - destruct (settlement_first_callback []
                [ Url "/favicon.ico" [];
                  Url "/callback" [("code", "code-1"); ("state", "state-1")];
                  Url "/callback" [("code", "code-2"); ("state", "forged")] ])
      as (_ & _ & _ & _ & Hfirst).
    destruct (Hfirst [Url "/favicon.ico" []]
                (Url "/callback" [("code", "code-1"); ("state", "state-1")])
                [Url "/callback" [("code", "code-2"); ("state", "forged")]] eq_refl)
      as [-> _]; [repeat constructor; done | intros Hstray; by apply Hstray | reflexivity].
Defined.

Section client.
Context `{Platform}.
Variable config : OAuthConfig.

Lemma getOrRegisterClientId_run env w :
  run (getOrRegisterClientId config env) w =
  if Js.truthy (client_ids w !! mcpHost config)
  then (Fulfilled (default "" (client_ids w !! mcpHost config)), w)
  else
    let w1 := record_sent (registrationRequest config) w in
    match registration env with
    | FetchFailed msg => (Rejected ("Client registration failed: " +:+ msg), w1)
    | Response status text client_id =>
        if ok status
        then (Fulfilled client_id,
              with_client_ids (<[mcpHost config := client_id]> (client_ids w1)) w1)
        else (Rejected ("Client registration failed: " +:+
                        ("Client registration failed: " +:+ pretty status +:+ " - " +:+ text)),
              w1)
    end.
Proof.
  unfold getOrRegisterClientId, getOAuthClientId, try_catch, registerClient,
    setOAuthClientId, registrationRequest.
  rewrite !run_bind. cbn [run get mret async_ret].
  destruct (Js.truthy (client_ids w !! mcpHost config)); cbn [run mret async_ret]; [done|].
  rewrite !run_bind. cbn [run modify].
  destruct (registration env) as [msg|status text client_id]; cbn [run throw]; [done|].
  by destruct (ok status).
Qed.

(** The [try] block and its [finally], from a world in which the
    listener is up. *)
Lemma try_block_run env clientId w :
  this_server w = Some true →
  run (try_finally
         (awaitCallbackAndExchange config env clientId (random_verifier env) (generateState env))
         closeServer) w =
  let w4 := answered (served (callbacks env)) w in
  let close := with_listener false None in
  match settlement (callbacks env) with
  | Pending => (Pending, w4)
  | Rejected e => (Rejected e, close w4)
  | Fulfilled (code, receivedState) =>
      if bool_decide (receivedState = generateState env) then
        let w5 := record_sent (tokenRequest config env clientId code) w4 in
        match exchange env with
        | FetchFailed msg => (Rejected msg, close w5)
        | Response status text json =>
            if ok status then
              match store_error env with
              | Some e => (Rejected e, close w5)
              | None =>
                  (Fulfilled (access_token json),
                   close (with_access_tokens
                            (<[mcpHost config := (access_token json, expires_in json)]>
                               (access_tokens w5)) w5))
              end
            else (Rejected ("Token exchange failed: " +:+ pretty status +:+ " - " +:+ text),
                  close w5)
        end
      else (Rejected CSRF_ERROR, close w4)
  end.
Proof.
  intros Hserver. cbv zeta.
  destruct (answered_fields (served (callbacks env)) w) as (_ & Hs4 & _).
  rewrite Hserver in Hs4.
  unfold try_finally, awaitCallbackAndExchange. cbn [run]. rewrite run_bind.
  rewrite waitForCallback_world.
  destruct (settlement (callbacks env)) as [[code receivedState]|e|]; [| |done].
  - case_bool_decide; cbn [negb run throw].
    + unfold try_catch, exchangeCodeForToken, setAccessToken, tokenRequest. cbn [run].
      rewrite !run_bind. cbn [run modify generatePKCE fst].
      destruct (exchange env) as [msg|status text json]; cbn [run throw].
      { unfold closeServer. rewrite run_bind. cbn [run get record_sent this_server].
        by rewrite Hs4. }
      destruct (ok status); cbn [negb run throw mret async_ret].
      2: { unfold closeServer. rewrite run_bind. cbn [run get record_sent this_server].
           by rewrite Hs4. }
      rewrite run_bind.
      destruct (store_error env); cbn [run throw modify mret async_ret];
        unfold closeServer; rewrite run_bind;
        cbn [run get record_sent with_access_tokens this_server]; by rewrite Hs4.
    + unfold closeServer. rewrite run_bind. cbn [run get]. by rewrite Hs4.
  - unfold closeServer. rewrite run_bind. cbn [run get]. by rewrite Hs4.
Qed.

Lemma authenticate_run env w :
  run (authenticate config env) w =
  match run (getOrRegisterClientId config env) w with
  | (Fulfilled clientId, w1) =>
      if port_bound w1 then (Rejected EADDRINUSE, with_listener true (Some false) w1)
      else
        let w2 := with_listener true (Some true) w1 in
        if url_parses (mcpHost config +:+ "/oauth/authorize") then
          run (try_finally
                 (awaitCallbackAndExchange config env clientId
                    (random_verifier env) (generateState env))
                 closeServer)
              (if browser_opens env then record_opened (authorizationUrl config env clientId) w2
               else w2)
        else (Rejected "Invalid URL", w2)
  | (Rejected e, w1) => (Rejected e, w1)
  | (Pending, w1) => (Pending, w1)
  end.
Proof.
  unfold authenticate. rewrite run_bind.
  destruct (run (getOrRegisterClientId config env) w) as [[clientId|e|] w1]; [|done..].
  rewrite run_bind. unfold startCallbackServer. rewrite run_bind. cbn [run get].
  destruct (port_bound w1); cbn [run put throw generatePKCE]; [done|].
  destruct (url_parses _); cbn [negb run throw]; [|done].
  rewrite run_bind. unfold authorizationUrl. cbn [generatePKCE snd].
  by destruct (browser_opens env).
Qed.

Lemma flow_world_listening env clientId w :
  this_server
    (if browser_opens env
     then record_opened (authorizationUrl config env clientId)
            (with_listener true (Some true) w)
     else with_listener true (Some true) w) = Some true.
Proof. by destruct (browser_opens env). Qed.

(** X22.  When no client id is cached and the registration endpoint answers
    with a status outside 200-299, [authenticate] rejects with the
    registration message, prefixed twice, after the one registration
    request: no client id is cached, the listener is never bound, no
    browser is opened and the token store is untouched. *)
Theorem registration_failure_aborts env w status text client_id :
  Js.truthy (client_ids w !! mcpHost config) = false →
  registration env = Response status text client_id →
  ok status = false →
  ∃ w', run (authenticate config env) w =
          (Rejected ("Client registration failed: Client registration failed: " +:+
                     pretty status +:+ " - " +:+ text), w') ∧
        sent w' = (sent w ++ [registrationRequest config])%list ∧
        client_ids w' = client_ids w ∧ access_tokens w' = access_tokens w ∧
        port_bound w' = port_bound w ∧ this_server w' = this_server w ∧
        opened w' = opened w.
Proof.
  intros Hcached Hregistration Hstatus.
  rewrite authenticate_run, getOrRegisterClientId_run, Hcached, Hregistration, Hstatus.
  cbv zeta. eexists. split; [reflexivity|]. by split_and!.
Qed.

(** X23.  The client id is registered once: a client id that is cached and not
    empty is returned without a request, and a client id that a
    registration returned, unless empty, is found by the next call. *)
Theorem client_id_registered_once env env' w clientId w1 :
  run (getOrRegisterClientId config env) w = (Fulfilled clientId, w1) →
  clientId ≠ "" →
  client_ids w1 !! mcpHost config = Some clientId ∧
  run (getOrRegisterClientId config env') w1 = (Fulfilled clientId, w1) ∧
  (sent w1 = sent w ∨ sent w1 = (sent w ++ [registrationRequest config])%list).
Proof.
  intros Hrun Hne.
  assert (client_ids w1 !! mcpHost config = Some clientId ∧
          (sent w1 = sent w ∨ sent w1 = (sent w ++ [registrationRequest config])%list))
    as [Hcached Hsent].
  { rewrite getOrRegisterClientId_run in Hrun.
    destruct (Js.truthy (client_ids w !! mcpHost config)) eqn:Htruthy.
    - injection Hrun as <- <-.
      apply JsFacts.truthy_Some in Htruthy as (id & -> & _). split; [done | by left].
    - cbv zeta in Hrun. destruct (registration env) as [msg|status text id]; [done|].
      destruct (ok status); [|done]. injection Hrun as <- <-. world_simpl.
      split; [apply lookup_insert_eq | by right]. }
  split_and!; [done | | done].
  rewrite getOrRegisterClientId_run, Hcached. cbn [Js.truthy default].
  by rewrite bool_decide_eq_false_2.
Qed.

(** X24.  The access token is stored exactly when the flow succeeds: a fulfilled
    run has stored the token of an accepted exchange under the host, with
    its lifetime; any other run leaves the token store as it found it. *)
Theorem token_cached_only_on_success env w r w' :
  run (authenticate config env) w = (r, w') →
  match r with
  | Fulfilled token =>
      ∃ status text json,
        exchange env = Response status text json ∧ ok status = true ∧
        token = access_token json ∧
        access_tokens w' =
          <[mcpHost config := (token, expires_in json)]> (access_tokens w)
  | _ => access_tokens w' = access_tokens w
  end.
Proof.
  rewrite authenticate_run.
  destruct (run (getOrRegisterClientId config env) w) as [[clientId|e|] w1] eqn:Hid.
  2,3: apply getOrRegisterClientId_world in Hid as (_ & _ & ? & _); by intros [= <- <-].
  apply getOrRegisterClientId_world in Hid as (_ & _ & Htokens & _).
  destruct (port_bound w1); [by intros [= <- <-]|]. cbv zeta.
  destruct (url_parses _); [|by intros [= <- <-]].
  rewrite try_block_run by apply flow_world_listening. cbv zeta.
  set (w3 := if browser_opens env then _ else _).
  assert (access_tokens w3 = access_tokens w) as Hw3.
  { subst w3. by destruct (browser_opens env). }
  clearbody w3.
  destruct (settlement (callbacks env)) as [[code receivedState]|e|].
  2,3: intros [= <- <-]; by world_simpl.
  case_bool_decide; [|intros [= <- <-]; by world_simpl].
  destruct (exchange env) as [msg|status text json]; [intros [= <- <-]; by world_simpl|].
  destruct (ok status) eqn:Hok; [|intros [= <- <-]; by world_simpl].
  destruct (store_error env); intros [= <- <-]; world_simpl; [done|].
  exists status, text, json. by rewrite Hw3.
Qed.

(** X25.  A token request is sent only for this flow's own callback: after the
    callback handed over the state generated for the flow, with the code
    it handed over, the client id of the flow and the verifier whose
    digest went out as the challenge in the authorization URL.  A run
    sends at most one. *)
Theorem token_request_bound_to_flow env w r w' :
  run (authenticate config env) w = (r, w') →
  List.filter is_token_request (sent w') = List.filter is_token_request (sent w) ∨
  ∃ clientId code w1,
    run (getOrRegisterClientId config env) w = (Fulfilled clientId, w1) ∧
    settlement (callbacks env) = Fulfilled (code, generateState env) ∧
    List.filter is_token_request (sent w') =
      (List.filter is_token_request (sent w) ++ [tokenRequest config env clientId code])%list ∧
    (generatePKCE env).2 = sha256_base64url (generatePKCE env).1 ∧
    (browser_opens env = true →
       opened w' = (opened w ++ [authorizationUrl config env clientId])%list).
Proof.
  rewrite authenticate_run.
  destruct (run (getOrRegisterClientId config env) w) as [[clientId|e|] w1] eqn:Hid.
  2,3: apply getOrRegisterClientId_world in Hid as (_ & _ & _ & ?); intros [= <- <-]; by left.
  assert (opened w1 = opened w) as Hopened.
  { rewrite getOrRegisterClientId_run in Hid.
    destruct (Js.truthy _); [by injection Hid as <- <-|]. cbv zeta in Hid.
    destruct (registration env) as [|status ? ?]; [done|].
    destruct (ok status); [|done]. by injection Hid as <- <-. }
  pose proof Hid as Hid'.
  apply getOrRegisterClientId_world in Hid as (_ & _ & _ & Hsent).
  destruct (port_bound w1); [intros [= <- <-]; by left|]. cbv zeta.
  destruct (url_parses _); [|intros [= <- <-]; by left].
  rewrite try_block_run by apply flow_world_listening. cbv zeta.
  set (w3 := if browser_opens env then _ else _).
  assert (sent w3 = sent w1) as Hw3.
  { subst w3. by destruct (browser_opens env). }
  assert (browser_opens env = true →
          opened w3 = (opened w ++ [authorizationUrl config env clientId])%list) as Ho3.
  { subst w3. intros ->. world_simpl. by rewrite Hopened. }
  clearbody w3.
  destruct (settlement (callbacks env)) as [[code receivedState]|e|].
  2,3: intros [= <- <-]; left; world_simpl; congruence.
  case_bool_decide as Hstate; [|intros [= <- <-]; left; world_simpl; congruence].
  subst receivedState.
  assert (List.filter is_token_request
            (sent (record_sent (tokenRequest config env clientId code)
                     (answered (served (callbacks env)) w3))) =
          (List.filter is_token_request (sent w) ++ [tokenRequest config env clientId code])%list)
    as Hone.
  { world_simpl. by rewrite List.filter_app, Hw3, Hsent. }
  intros Hrun. right. exists clientId, code, w1. split_and!; [done | done | | done |].
  - destruct (exchange env) as [msg|status text json]; [by injection Hrun as <- <-|].
    destruct (ok status); [|by injection Hrun as <- <-].
    destruct (store_error env); by injection Hrun as <- <-.
  - intros Hopens. specialize (Ho3 Hopens).
    destruct (exchange env) as [msg|status text json];
      [injection Hrun as <- <-; by world_simpl|].
    destruct (ok status); [|injection Hrun as <- <-; by world_simpl].
    destruct (store_error env); injection Hrun as <- <-; by world_simpl.
Qed.

(** X26.  A browser that cannot be opened changes nothing but the list of
    opened URLs: the flow settles the same way and leaves the same
    listener, stores and requests. *)
Theorem browser_failure_is_not_fatal env w :
  let result := run (authenticate config env) w in
  let result' := run (authenticate config (without_browser env)) w in
  result'.1 = result.1 ∧
  port_bound result'.2 = port_bound result.2 ∧
  this_server result'.2 = this_server result.2 ∧
  client_ids result'.2 = client_ids result.2 ∧
  access_tokens result'.2 = access_tokens result.2 ∧
  sent result'.2 = sent result.2.
Proof.
  cbv zeta. rewrite !authenticate_run.
  assert (run (getOrRegisterClientId config (without_browser env)) w =
          run (getOrRegisterClientId config env) w) as -> by by rewrite !getOrRegisterClientId_run.
  destruct (run (getOrRegisterClientId config env) w) as [[clientId|e|] w1]; [|done..].
  destruct (port_bound w1); [done|]. cbv zeta.
  destruct (url_parses _); [|done].
  rewrite !try_block_run by apply flow_world_listening. cbv zeta.
  cbn [without_browser browser_opens callbacks exchange store_error].
  change (generateState (without_browser env)) with (generateState env).
  change (tokenRequest config (without_browser env)) with (tokenRequest config env).
  set (w2 := with_listener true (Some true) w1).
  set (w3 := if browser_opens env then _ else _).
  assert (port_bound w3 = port_bound w2 ∧ this_server w3 = this_server w2 ∧
          client_ids w3 = client_ids w2 ∧ access_tokens w3 = access_tokens w2 ∧
          sent w3 = sent w2) as (Hp & Hs & Hc & Ha & Hsent).
  { subst w3. by destruct (browser_opens env). }
  clearbody w3 w2.
  destruct (settlement (callbacks env)) as [[code receivedState]|e|];
    [|world_simpl; by split_and!..].
  case_bool_decide; [|world_simpl; by split_and!].
  destruct (exchange env) as [msg|status text json]; [world_simpl; split_and!; congruence|].
  destruct (ok status); [|world_simpl; split_and!; congruence].
  destruct (store_error env); world_simpl; split_and!; congruence.
Qed.

(** X27.  Registration comes before the listener: when the callback port is
    taken, [authenticate] rejects with the error of [listen], after any
    registration has been sent and its client id cached; it opens no
    browser, sends no token request and leaves a server object behind
    that is not listening. *)
Theorem port_in_use_rejects env w clientId w1 :
  run (getOrRegisterClientId config env) w = (Fulfilled clientId, w1) →
  port_bound w = true →
  ∃ w', run (authenticate config env) w = (Rejected EADDRINUSE, w') ∧
        port_bound w' = true ∧ this_server w' = Some false ∧
        client_ids w' = client_ids w1 ∧ sent w' = sent w1 ∧
        access_tokens w' = access_tokens w ∧ opened w' = opened w1.
Proof.
  intros Hid Hport. rewrite authenticate_run, Hid.
  apply getOrRegisterClientId_world in Hid as (Hp1 & _ & Htokens & _).
  rewrite Hp1, Hport. eexists. split; [reflexivity|]. by split_and!.
Qed.

(** X28.  While only stray requests arrive the flow stays pending, with the
    listener bound: nothing in [authenticate] ends the wait. *)
Theorem pending_keeps_listening env w clientId w1 :
  run (getOrRegisterClientId config env) w = (Fulfilled clientId, w1) →
  port_bound w = false →
  url_parses (mcpHost config +:+ "/oauth/authorize") = true →
  Forall stray (callbacks env) →
  ∃ w', run (authenticate config env) w = (Pending, w') ∧
        port_bound w' = true ∧ this_server w' = Some true ∧
        access_tokens w' = access_tokens w ∧ sent w' = sent w1 ∧
        length (replies w') = (length (replies w1) + length (callbacks env))%nat.
Proof.
  intros Hid Hport Hurl Hstray. rewrite authenticate_run, Hid.
  apply getOrRegisterClientId_world in Hid as (Hp1 & _ & Htokens & _).
  rewrite Hp1, Hport, Hurl. cbv zeta.
  rewrite try_block_run by apply flow_world_listening. cbv zeta.
  assert (settlement (callbacks env) = Pending ∧
          length (served (callbacks env)) = length (callbacks env)) as [-> Hserved].
  { induction Hstray as [|req l Hreq%handleRequest_stray _ [IH1 IH2]]; [done|].
    cbn [settlement served]. rewrite Hreq. cbn [length]. by rewrite IH1, IH2. }
  eexists. split; [reflexivity|]. world_simpl.
  destruct (answered_fields (served (callbacks env))
              (if browser_opens env
               then record_opened (authorizationUrl config env clientId)
                      (with_listener true (Some true) w1)
               else with_listener true (Some true) w1)) as (_ & _ & _ & _ & _ & _ & ->).
  rewrite length_app, Hserved.
  destruct (browser_opens env); world_simpl; by split_and!.
Qed.

End client.

Import Samples OAuthSamples.

Lemma registration_failure_aborts_witness :
  ∃ w', run (authenticate (H := platform) config refused) fresh =
          (Rejected "Client registration failed: Client registration failed: 403 - forbidden",
           w') ∧
        port_bound w' = false ∧ client_ids w' = ∅.
Proof.
  destruct (registration_failure_aborts (H := platform) config refused fresh
              403 "forbidden" "" eq_refl eq_refl eq_refl)
    as (w' & Hrun & _ & Hids & _ & Hport & _).
  exists w'. split_and!; [exact Hrun | exact Hport | exact Hids].
Defined.

Lemma client_id_registered_once_witness :
  ∃ w1,
    run (getOrRegisterClientId (H := platform) config (approving "state-1")) fresh
      = (Fulfilled "client-1", w1) ∧
    run (getOrRegisterClientId (H := platform) config refused) w1 = (Fulfilled "client-1", w1).
Proof.
  eexists.
  match goal with |- ?run ∧ _ => assert run as Hrun by reflexivity end.
  split; [exact Hrun|].
  by destruct (client_id_registered_once (H := platform) config (approving "state-1") refused
                 _ _ _ Hrun) as (_ & Hnext & _).
Defined.

Lemma token_cached_only_on_success_witness :
  ∃ w', run (authenticate (H := platform) config (approving "state-1")) fresh
          = (Fulfilled "token-1", w') ∧
        access_tokens w' !! "https://mcp.sentry.dev" = Some ("token-1", Some 3600%nat).
Proof.
  eexists.
  match goal with |- ?run ∧ _ => assert run as Hrun by reflexivity end.
  split; [exact Hrun|].
  destruct (token_cached_only_on_success (H := platform) config _ _ _ _ Hrun)
    as (status & text & json & Hexchange & _ & _ & ->).
  injection Hexchange as <- <- <-. apply lookup_insert_eq.
Defined.

Lemma token_request_bound_to_flow_witness :
  ∃ w', run (authenticate (H := platform) config (approving "state-1")) fresh
          = (Fulfilled "token-1", w') ∧
        List.filter is_token_request (sent w') =
          [tokenRequest (H := platform) config (approving "state-1") "client-1" "code-1"].
Proof.
  eexists.
  match goal with |- ?run ∧ _ => assert run as Hrun by reflexivity end.
  split; [exact Hrun|].
  destruct (token_request_bound_to_flow (H := platform) config _ _ _ _ Hrun)
    as [Hnone | (clientId & code & w1 & Hid & Hsettle & Hsent & _)].
  - reflexivity.
  - injection Hid as <- _. injection Hsettle as <-. exact Hsent.
Defined.

Lemma port_in_use_rejects_witness :
  ∃ w', run (authenticate (H := platform) config (approving "state-1")) busy
          = (Rejected (EADDRINUSE (H := platform)), w') ∧
        client_ids w' !! "https://mcp.sentry.dev" = Some "client-1" ∧ opened w' = [].
Proof.
  destruct (port_in_use_rejects (H := platform) config (approving "state-1") busy
              "client-1" _ eq_refl eq_refl)
    as (w' & Hrun & _ & _ & Hids & _ & _ & Hopened).
  exists w'. split_and!; [exact Hrun | by rewrite Hids | by rewrite Hopened].
Defined.

Lemma pending_keeps_listening_witness :
  ∃ w', run (authenticate (H := platform) config abandoned) fresh = (Pending, w') ∧
        port_bound w' = true ∧ length (replies w') = 2%nat.
Proof.
  destruct (pending_keeps_listening (H := platform) config abandoned fresh
              "client-1" _ eq_refl eq_refl eq_refl)
    as (w' & Hrun & Hport & _ & _ & _ & Hreplies).
  - repeat constructor. done.
  - exists w'. split_and!; [exact Hrun | exact Hport | exact Hreplies].
Defined.

End OAuthFlowFacts.

(** ** The remote handler *)

Module McpHandlerFacts.
Import Permissions Skills Run Server CliEnv McpHandler PermissionsFacts ScopeFacts.

Section fetch.
Variable verifyConstraintsAccess :
  option string → option string → string → string → Verification.

(** X29.  When [fetch] hands a request to a server, the context it built
    carries the token and the verified constraints, and a grant made of the
    valid tokens of the props alone: a skills grant that is not empty, or,
    without a skills prop, a scopes grant; a scopes grant is closed under
    the hierarchy.  Agent mode is on exactly for [agent=1]. *)
Theorem fetch_serves result agent props SENTRY_HOST MCP_URL serverContext isAgentMode :
  fetch verifyConstraintsAccess result agent props SENTRY_HOST MCP_URL
    = Returned (Serve serverContext isAgentMode) →
  ∃ orgGroup projectGroup p,
    result = Some (orgGroup, projectGroup) ∧ props = Some p ∧
    verifyConstraintsAccess (given orgGroup) (given projectGroup) (props_accessToken p)
      (default "sentry.io" (given SENTRY_HOST)) = Verified (constraints serverContext) ∧
    accessToken serverContext = props_accessToken p ∧
    grantedSkills serverContext =
      (λ l, Skills.valid (parseSkills (array l))) <$> props_grantedSkills p ∧
    grantedScopes serverContext =
      (λ l, expandScopes (Permissions.valid (parseScopes (array l))))
        <$> props_grantedScopes p ∧
    (∀ granted, grantedSkills serverContext = Some granted → granted ≠ ∅) ∧
    (grantedSkills serverContext = None → is_Some (grantedScopes serverContext)) ∧
    (∀ granted, grantedScopes serverContext = Some granted →
       expandScopes granted = granted) ∧
    (isAgentMode = true ↔ agent = Some "1").
Proof.
  unfold fetch. destruct result as [[orgGroup projectGroup]|]; [|done].
  destruct props as [p|]; [|done].
  assert (default "" (or_else SENTRY_HOST (Some "sentry.io")) =
          default "sentry.io" (given SENTRY_HOST)) as ->.
  { unfold or_else, given. destruct SENTRY_HOST as [host|]; [|done].
    cbn [Js.truthy]. by case_bool_decide. }
  destruct (verifyConstraintsAccess _ _ _ _) as [c|message status] eqn:Hverified; [|done].
  cbv zeta.
  destruct (props_grantedSkills p) as [skills|] eqn:Hskills.
  - case_bool_decide as Hsize; [done|].
    rewrite bool_decide_eq_true_2 by by eexists. cbn [negb andb].
    intros [= <- <-]. exists orgGroup, projectGroup, p.
    cbn [constraints accessToken grantedSkills grantedScopes]. rewrite Hskills.
    split; [done|]. split; [done|]. split; [done|]. split; [done|]. split; [done|].
    split; [by destruct (props_grantedScopes p)|]. split; [|split; [|split]].
    + intros granted Heq Hempty. apply Hsize.
      assert (Skills.valid (parseSkills (array skills)) = granted) as ->
        by exact (f_equal (default ∅) Heq).
      rewrite Hempty. apply size_empty.
    + done.
    + intros granted. destruct (props_grantedScopes p) as [scopes|]; [|done].
      intros Heq.
      assert (expandScopes (Permissions.valid (parseScopes (array scopes))) = granted) as <-
        by exact (f_equal (default ∅) Heq).
      apply expandScopes_closed.
    + by rewrite bool_decide_eq_true.
  - rewrite (bool_decide_eq_false_2 (is_Some None)) by by intros [? ?].
    cbn [negb andb].
    destruct (props_grantedScopes p) as [scopes|] eqn:Hscopes.
    + rewrite bool_decide_eq_true_2 by by eexists. cbn [negb].
      intros [= <- <-]. exists orgGroup, projectGroup, p.
      cbn [constraints accessToken grantedSkills grantedScopes]. rewrite Hskills, Hscopes.
      split; [done|]. split; [done|]. split; [done|]. split; [done|]. split; [done|].
      split; [done|]. split; [|split; [|split]].
      * done.
      * intros _. by eexists.
      * intros granted Heq.
        assert (expandScopes (Permissions.valid (parseScopes (array scopes))) = granted) as <-
          by exact (f_equal (default ∅) Heq).
        apply expandScopes_closed.
      * by rewrite bool_decide_eq_true.
    + by rewrite bool_decide_eq_false_2 by by intros [? ?].
Qed.

(** X30.  The responses of [fetch] itself, by what causes them and back.
    A path that is not under the route gets 404; under the route, a
    request without props makes [fetch] throw; a refusal of the access
    check is passed on with its status, or 500 when it has none; a
    skills prop that holds no valid skill gets 400, whatever the scopes
    prop holds; props with neither grant get 401.  These are all the
    responses of [fetch], and every other request is handed to a server.
    An empty or all-invalid scopes prop on its own is not refused: the
    request is served under an empty grant. *)
Theorem fetch_refuses result agent props SENTRY_HOST MCP_URL :
  let handled := fetch verifyConstraintsAccess result agent props SENTRY_HOST MCP_URL in
  let verified orgGroup projectGroup p :=
    verifyConstraintsAccess (given orgGroup) (given projectGroup)
      (props_accessToken p) (default "sentry.io" (given SENTRY_HOST)) in
  (result = None → handled = Returned (Respond 404 "Not found")) ∧
  (∀ orgGroup projectGroup p message given_status,
     result = Some (orgGroup, projectGroup) → props = Some p →
     verified orgGroup projectGroup p = Refused message given_status →
     handled = Returned (Respond (default 500%nat given_status) message)) ∧
  (∀ orgGroup projectGroup p c l,
     result = Some (orgGroup, projectGroup) → props = Some p →
     verified orgGroup projectGroup p = Verified c →
     props_grantedSkills p = Some l → Skills.valid (parseSkills (array l)) = ∅ →
     handled = Returned (Respond 400 NO_VALID_SKILLS_GRANTED)) ∧
  (∀ orgGroup projectGroup p c,
     result = Some (orgGroup, projectGroup) → props = Some p →
     verified orgGroup projectGroup p = Verified c →
     props_grantedSkills p = None → props_grantedScopes p = None →
     handled = Returned (Respond 401 NO_VALID_PERMISSIONS_GRANTED)) ∧
  (∀ status body, handled = Returned (Respond status body) →
     status = 404 ∧ result = None ∨
     (∃ orgGroup projectGroup p,
        result = Some (orgGroup, projectGroup) ∧ props = Some p ∧
        ((∃ given_status,
            verified orgGroup projectGroup p = Refused body given_status ∧
            status = default 500%nat given_status) ∨
         status = 400 ∧ body = NO_VALID_SKILLS_GRANTED ∧
           (∃ l, props_grantedSkills p = Some l ∧
                 Skills.valid (parseSkills (array l)) = ∅) ∨
         status = 401 ∧ body = NO_VALID_PERMISSIONS_GRANTED ∧
           props_grantedSkills p = None ∧ props_grantedScopes p = None))) ∧
  (∀ error, handled = Thrown error ↔
     error = "No authentication context available" ∧ is_Some result ∧ props = None) ∧
  ((∃ serverContext isAgentMode, handled = Returned (Serve serverContext isAgentMode)) ↔
     ∃ orgGroup projectGroup p c,
       result = Some (orgGroup, projectGroup) ∧ props = Some p ∧
       verified orgGroup projectGroup p = Verified c ∧
       ((∃ l, props_grantedSkills p = Some l ∧
              Skills.valid (parseSkills (array l)) ≠ ∅) ∨
        props_grantedSkills p = None ∧ is_Some (props_grantedScopes p))) ∧
  (∀ orgGroup projectGroup p c l,
     result = Some (orgGroup, projectGroup) → props = Some p →
     verified orgGroup projectGroup p = Verified c →
     props_grantedSkills p = None → props_grantedScopes p = Some l →
     Permissions.valid (parseScopes (array l)) = ∅ →
     ∃ serverContext isAgentMode,
       handled = Returned (Serve serverContext isAgentMode) ∧
       grantedSkills serverContext = None ∧ grantedScopes serverContext = Some ∅).
Proof.
  intros handled verified. subst handled verified. unfold fetch. cbv beta.
  assert (default "" (or_else SENTRY_HOST (Some "sentry.io")) =
          default "sentry.io" (given SENTRY_HOST)) as ->.
  { unfold or_else, given. destruct SENTRY_HOST as [host|]; [|done].
    cbn [Js.truthy]. by case_bool_decide. }
  split_and!.
  - by intros ->.
  - by intros orgGroup projectGroup p message given_status -> -> ->.
  - intros orgGroup projectGroup p c l -> -> -> Hskills Hvalid. cbv zeta.
    rewrite Hskills, Hvalid. by rewrite bool_decide_eq_true_2 by apply size_empty.
  - intros orgGroup projectGroup p c -> -> -> Hskills Hscopes. cbv zeta.
    rewrite Hskills, Hscopes.
    by rewrite (bool_decide_eq_false_2 (is_Some None)) by by intros [? ?].
  - intros status body.
    destruct result as [[orgGroup projectGroup]|]; [|intros [= <- <-]; by left].
    destruct props as [p|]; [|done].
    intros Hhandled. right. exists orgGroup, projectGroup, p. split; [done|]. split; [done|].
    destruct (verifyConstraintsAccess _ _ _ _) as [c|message st].
    + cbv zeta in Hhandled. right.
      destruct (props_grantedSkills p) as [skills|].
      * case_bool_decide as Hsize.
        { injection Hhandled as <- <-. left. split_and!; [done..|].
          exists skills. split; [done|]. by apply size_empty_iff, leibniz_equiv in Hsize. }
        rewrite bool_decide_eq_true_2 in Hhandled by by eexists. done.
      * rewrite (bool_decide_eq_false_2 (is_Some None)) in Hhandled by by intros [? ?].
        destruct (props_grantedScopes p).
        { rewrite bool_decide_eq_true_2 in Hhandled by by eexists. done. }
        rewrite bool_decide_eq_false_2 in Hhandled by by intros [? ?].
        injection Hhandled as <- <-. by right.
    + injection Hhandled as <- <-. left. by exists st.
  - intros error. destruct result as [[orgGroup projectGroup]|].
    2: { split; [done|]. by intros (_ & [? ?] & _). }
    destruct props as [p|].
    2: { split; [intros [= <-]; by split_and! | by intros (-> & _)]. }
    split; [|by intros (_ & _ & ?)].
    destruct (verifyConstraintsAccess _ _ _ _); [|done]. cbv zeta.
    destruct (props_grantedSkills p); [by case_bool_decide|].
    by destruct (props_grantedScopes p).
  - destruct result as [[orgGroup projectGroup]|].
    2: { split; [by intros (? & ? & ?) | by intros (? & ? & ? & ? & ? & _)]. }
    destruct props as [p|].
    2: { split; [by intros (? & ? & ?) | by intros (? & ? & ? & ? & _ & ? & _)]. }
    destruct (verifyConstraintsAccess _ _ _ _) as [c|message st] eqn:Hverified.
    2: { split; [by intros (? & ? & ?)|].
         intros (? & ? & ? & ? & [= <- <-] & [= <-] & Hother & _). congruence. }
    cbv zeta. destruct (props_grantedSkills p) as [skills|] eqn:Hskills.
    + case_bool_decide as Hsize.
      * split; [by intros (? & ? & ?)|].
        intros (? & ? & ? & ? & _ & [= <-] & _ & [(l & Hl & Hne) | [Hnone _]]);
          [|congruence].
        rewrite Hskills in Hl. injection Hl as <-.
        destruct Hne. by apply size_empty_iff, leibniz_equiv in Hsize.
      * rewrite bool_decide_eq_true_2 by by eexists. cbn [negb andb].
        split; [|intros _; by eexists _, _].
        intros _. exists orgGroup, projectGroup, p, c. split_and!; [done..|].
        left. exists skills. split; [done|]. intros Hempty. apply Hsize.
        rewrite Hempty. apply size_empty.
    + rewrite (bool_decide_eq_false_2 (is_Some None)) by by intros [? ?].
      cbn [negb andb]. destruct (props_grantedScopes p) as [scopes|] eqn:Hscopes.
      * rewrite bool_decide_eq_true_2 by by eexists. cbn [negb].
        split; [|intros _; by eexists _, _].
        intros _. exists orgGroup, projectGroup, p, c. split_and!; [done..|].
        right. split; [done | by eexists].
      * rewrite bool_decide_eq_false_2 by by intros [? ?]. cbn [negb].
        split; [by intros (? & ? & ?)|].
        intros (? & ? & ? & ? & _ & [= <-] & _ & [(l & Hl & _) | [_ [? Hsome]]]);
          congruence.
  - intros orgGroup projectGroup p c l -> -> -> Hskills Hscopes Hvalid. cbv zeta.
    rewrite Hskills, Hscopes, Hvalid.
    rewrite (bool_decide_eq_false_2 (is_Some None)) by by intros [? ?].
    rewrite bool_decide_eq_true_2 by by eexists. cbn [negb andb].
    eexists _, _. split; [reflexivity|].
    cbn [grantedSkills grantedScopes]. split; reflexivity.
Qed.

End fetch.

(** [/mcp/acme] with a grant of one skill and one unknown name. *)
Lemma fetch_serves_witness :
  ∃ serverContext,
    fetch McpHandlerSamples.permissive (Some (Some "acme", None)) None
      (Some McpHandlerSamples.granted) None None = Returned (Serve serverContext false) ∧
    organizationSlug (constraints serverContext) = Some "acme" ∧
    ∀ granted, grantedSkills serverContext = Some granted → granted ≠ ∅.
Proof.
  eexists.
  match goal with |- ?run ∧ _ => assert run as Hrun by reflexivity end.
  split; [exact Hrun|]. split; [reflexivity|].
  by destruct (fetch_serves McpHandlerSamples.permissive _ _ _ _ _ _ _ Hrun)
    as (? & ? & ? & _ & _ & _ & _ & _ & _ & Hnonempty & _).
Defined.

(** A skills prop without a known skill, beside a scope that is known;
    and an access check that refuses without a status. *)
Lemma fetch_refuses_witness :
  fetch McpHandlerSamples.permissive (Some (Some "acme", None)) None
    (Some McpHandlerSamples.ungranted) None None
    = Returned (Respond 400 NO_VALID_SKILLS_GRANTED) ∧
  fetch McpHandlerSamples.forbidding (Some (Some "acme", None)) None
    (Some McpHandlerSamples.granted) None None
    = Returned (Respond 500 "You do not have access to this organization").
Proof.
  split.
  - destruct (fetch_refuses McpHandlerSamples.permissive (Some (Some "acme", None)) None
                (Some McpHandlerSamples.ungranted) None None)
      as (_ & _ & Hskills & _).
    eapply Hskills; [reflexivity..|]. by vm_compute.
  - destruct (fetch_refuses McpHandlerSamples.forbidding (Some (Some "acme", None)) None
                (Some McpHandlerSamples.granted) None None)
      as (_ & Hrefused & _).
    eapply (Hrefused _ _ _ _ None); reflexivity.
Defined.

End McpHandlerFacts.
